(** * sbom-tree: normalisation of CycloneDX / SPDX documents into a
    dependency graph, and the traversals that render it.

    A shallow embedding of [sbom-tree.py].  Parsed JSON is an inductive type,
    Python dictionaries and sets are stdpp finite maps and finite sets,
    exceptions are an explicit result type, and the code that runs after
    normalisation is written in a small state-and-error monad over the
    objects it can reach (the [SBOM] instance, the renderer's
    [visited_global] set and standard output).

    [main] is embedded from the parsed command line and the loaded value
    on.  Outside the embedding: reading and decoding the file, the parsing
    of the command line, the text of the HTML template and of [json.dumps],
    the messages of the exceptions, floating-point numbers and characters
    beyond [ascii].  The interpreter's recursion limit is no number of the
    embedding: [render] and [make_node] take the number of nested calls
    they may make as [fuel], and [ascii_trees] and [to_d3_tree] give them
    [len(sbom.edges) + 1], which is always enough; a run that the
    interpreter would stop with [RecursionError] is not told apart from
    one that it lets through. *)

From Stdlib Require Import ZArith String Ascii List.
From stdpp Require Import base option list gmap sets strings sorting pretty.

Open Scope string_scope.
Set Warnings "-register-all,-clear-no-such-hyp".

(** ** Python values *)

(** What [json.load] returns, with two restrictions: numbers are integers
    (floating-point values are not modelled) and a character of a string is
    an [ascii]. An object is an association list read first-match. *)
Inductive json : Type :=
| JNull
| JBool (b : bool)
| JNum (z : Z)
| JStr (s : string)
| JList (l : list json)
| JDict (kvs : list (string * json)).

(** Hashable values, as dictionary keys and set members. Python identifies
    [True] with [1] and [False] with [0] there, and so does [key_of]. *)
Inductive key : Type :=
| KNone
| KNum (z : Z)
| KStr (s : string).

Global Instance key_eq_dec : EqDecision key.
Proof. solve_decision. Defined.

Definition key_enc (k : key) : unit + (Z + string) :=
  match k with
  | KNone => inl tt
  | KNum z => inr (inl z)
  | KStr s => inr (inr s)
  end.

Definition key_dec (x : unit + (Z + string)) : key :=
  match x with
  | inl _ => KNone
  | inr (inl z) => KNum z
  | inr (inr s) => KStr s
  end.

Global Instance key_countable : Countable key :=
  inj_countable' key_enc key_dec
    (λ k, match k with KNone => eq_refl | KNum _ => eq_refl | KStr _ => eq_refl end).

Inductive pyexn : Type := AttributeError | TypeError | ValueError.

(** The outcome of a call: a value, a raised exception, or [OutOfFuel],
    which only the fuel-indexed recursive definitions can produce. *)
Inductive res (A : Type) : Type :=
| Ok (a : A)
| Raise (e : pyexn)
| OutOfFuel.
Arguments Ok {A} a.
Arguments Raise {A} e.
Arguments OutOfFuel {A}.

Global Instance pyexn_eq_dec : EqDecision pyexn.
Proof. solve_decision. Defined.

Global Instance res_eq_dec {A : Type} `{EqDecision A} : EqDecision (res A).
Proof. solve_decision. Defined.

Global Instance res_ret : MRet res := λ A a, Ok a.
Global Instance res_bind : MBind res := λ A B f m,
  match m with
  | Ok a => f a
  | Raise e => Raise e
  | OutOfFuel => OutOfFuel
  end.

(** [for x in l: s = body(s, x)], stopping at the first exception. *)
Fixpoint foldM {A S : Type} (body : S → A → res S) (s : S) (l : list A) : res S :=
  match l with
  | [] => Ok s
  | x :: l' => s' ← body s x; foldM body s' l'
  end.

Fixpoint mapM_res {A B : Type} (f : A → res B) (l : list A) : res (list B) :=
  match l with
  | [] => Ok []
  | x :: l' => y ← f x; ys ← mapM_res f l'; Ok (y :: ys)
  end.

(** Truth value of an object ([if v:], [a or b], [not v]). *)
Definition truthy (v : json) : bool :=
  match v with
  | JNull => false
  | JBool b => b
  | JNum z => negb (z =? 0)%Z
  | JStr s => negb (String.eqb s "")
  | JList l => negb (bool_decide (l = []))
  | JDict kvs => negb (bool_decide (kvs = []))
  end.

Definition py_or (a b : json) : json := if truthy a then a else b.

Fixpoint dict_get (kvs : list (string * json)) (k : string) : option json :=
  match kvs with
  | [] => None
  | (k', v) :: rest => if String.eqb k' k then Some v else dict_get rest k
  end.

Fixpoint dict_keys (kvs : list (string * json)) : list string :=
  match kvs with
  | [] => []
  | (k, _) :: rest => k :: filter (λ k', k' ≠ k) (dict_keys rest)
  end.

(** [isinstance(v, dict)], [isinstance(v, list)], [isinstance(v, str)] *)
Definition is_dict (v : json) : bool := if v is JDict _ then true else false.
Definition is_list (v : json) : bool := if v is JList _ then true else false.
Definition is_str (v : json) : bool := if v is JStr _ then true else false.

(** [k in v] for a mapping [v] *)
Definition has_key (v : json) (k : string) : bool :=
  if v is JDict kvs then bool_decide (is_Some (dict_get kvs k)) else false.

(** [v.get(k, d)]: only a mapping has the method. *)
Definition get_default (v : json) (k : string) (d : json) : res json :=
  match v with
  | JDict kvs => Ok (default d (dict_get kvs k))
  | _ => Raise AttributeError
  end.

(** [v.get(k)] *)
Definition get (v : json) (k : string) : res json := get_default v k JNull.

(** Hashing, as done by a dictionary or set operation on [v]. *)
Definition key_of (v : json) : res key :=
  match v with
  | JNull => Ok KNone
  | JBool b => Ok (KNum (if b then 1 else 0))
  | JNum z => Ok (KNum z)
  | JStr s => Ok (KStr s)
  | JList _ | JDict _ => Raise TypeError
  end.

(** The value a key stands for. A key that came from [True] or [False]
    stands for the integer it equals, so the spelling of such an id in a
    printed line ([--show-ids], DOT) is that of the integer. *)
Definition val_of (k : key) : json :=
  match k with
  | KNone => JNull
  | KNum z => JNum z
  | KStr s => JStr s
  end.

(** [for x in v] *)
Definition py_iter (v : json) : res (list json) :=
  match v with
  | JList l => Ok l
  | JStr s => Ok ((λ c, JStr (String c "")) <$> list_ascii_of_string s)
  | JDict kvs => Ok (JStr <$> dict_keys kvs)
  | JNull | JBool _ | JNum _ => Raise TypeError
  end.

(** [a == b] on parsed JSON *)
Fixpoint py_eq (a b : json) {struct a} : bool :=
  match a, b with
  | JNull, JNull => true
  | JBool x, JBool y => bool_decide (x = y)
  | JBool x, JNum z | JNum z, JBool x => (z =? (if x then 1 else 0))%Z
  | JNum x, JNum y => (x =? y)%Z
  | JStr x, JStr y => String.eqb x y
  | JList xs, JList ys =>
      (fix go (xs ys : list json) {struct xs} : bool :=
         match xs, ys with
         | [], [] => true
         | x :: xs', y :: ys' => py_eq x y && go xs' ys'
         | _, _ => false
         end) xs ys
  | JDict xs, JDict ys =>
      (length (dict_keys xs) =? length (dict_keys ys))%nat &&
      (fix go (rest : list (string * json)) (done : list string) {struct rest} : bool :=
         match rest with
         | [] => true
         | (k, v) :: rest' =>
             if bool_decide (k ∈ done) then go rest' done
             else match dict_get ys k with
                  | Some w => py_eq v w && go rest' (k :: done)
                  | None => false
                  end
         end) xs []
  | _, _ => false
  end.

(** ** Strings *)

Fixpoint str_map (f : ascii → ascii) (s : string) : string :=
  match s with
  | EmptyString => EmptyString
  | String c s' => String (f c) (str_map f s')
  end.

Definition ascii_upper (c : ascii) : ascii :=
  let n := N_of_ascii c in
  if (97 <=? n)%N && (n <=? 122)%N then ascii_of_N (n - 32) else c.

Definition ascii_lower (c : ascii) : ascii :=
  let n := N_of_ascii c in
  if (65 <=? n)%N && (n <=? 90)%N then ascii_of_N (n + 32) else c.

(** [s.upper()], [s.lower()]: the case mapping of the letters A-Z, a-z. *)
Definition upper (s : string) : string := str_map ascii_upper s.
Definition lower (s : string) : string := str_map ascii_lower s.

(** [s.replace(a, b)] for one-character [a] and [b] *)
Definition replace_char (a b : ascii) (s : string) : string :=
  str_map (λ c, if Ascii.eqb c a then b else c) s.

(** [a <= b] on strings: lexicographic in the character codes. *)
Definition str_le (a b : string) : Prop := String.leb a b = true.
Global Instance str_le_dec : RelDecision str_le.
Proof. intros a b. unfold str_le. apply _. Defined.

(** ** What the embedding takes from the Python runtime *)

(** [py_format v] is the text an f-string produces for a list or a mapping
    [v]. [set_order X] is the order in which a set with the elements [X]
    is iterated, which the language leaves unspecified. *)
Class Runtime : Type := {
  py_format : json → string;
  set_order : gset key → list key;
  set_order_perm : ∀ X, set_order X ≡ₚ elements X;
}.

(** [f"{v}"] *)
Definition fstr `{Runtime} (v : json) : string :=
  match v with
  | JStr s => s
  | JNull => "None"
  | JBool true => "True"
  | JBool false => "False"
  | JNum z => pretty z
  | JList _ | JDict _ => py_format v
  end.

(** ** The graph *)

Record SBOM : Type := mkSBOM {
  nodes : gmap key json;          (* node_id -> label *)
  edges : gmap key (gset key);    (* node_id -> children *)
  roots : gset key;
}.

(** [SBOM()] *)
Definition new_SBOM : SBOM := mkSBOM ∅ ∅ ∅.

Definition with_nodes (f : gmap key json → gmap key json) (s : SBOM) : SBOM :=
  mkSBOM (f (nodes s)) (edges s) (roots s).
Definition with_edges (f : gmap key (gset key) → gmap key (gset key)) (s : SBOM) : SBOM :=
  mkSBOM (nodes s) (f (edges s)) (roots s).
Definition with_roots (f : gset key → gset key) (s : SBOM) : SBOM :=
  mkSBOM (nodes s) (edges s) (f (roots s)).

(** [s.nodes[i] = lbl] *)
Definition nodes_setitem (i lbl : json) (s : SBOM) : res SBOM :=
  k ← key_of i; Ok (with_nodes (insert k lbl) s).

(** [s.nodes.setdefault(i, lbl)] *)
Definition nodes_setdefault (i lbl : json) (s : SBOM) : res SBOM :=
  k ← key_of i;
  Ok (if nodes s !! k is Some _ then s else with_nodes (insert k lbl) s).

(** [s.edges[src].add(child)] on the [defaultdict(set)] *)
Definition edges_add (src child : json) (s : SBOM) : res SBOM :=
  ks ← key_of src;
  kc ← key_of child;
  Ok (with_edges (λ e, <[ks := default ∅ (e !! ks) ∪ {[kc]}]> e) s).

(** [s.roots.add(i)] *)
Definition roots_add (i : json) (s : SBOM) : res SBOM :=
  k ← key_of i; Ok (with_roots (λ r, r ∪ {[k]}) s).

(** [{k for kids in s.edges.values() for k in kids}] *)
Definition all_children (s : SBOM) : gset key :=
  ⋃ ((map_to_list (edges s)).*2).

(** [sorted(l)] on ids: integers order among themselves and strings among
    themselves; any other comparison raises. *)
Definition key_num (k : key) : option Z := if k is KNum z then Some z else None.
Definition key_str (k : key) : option string := if k is KStr s then Some s else None.

Definition py_sorted (l : list key) : res (list key) :=
  match l with
  | [] | [_] => Ok l
  | _ =>
      match mapM key_num l, mapM key_str l with
      | Some zs, _ => Ok (KNum <$> merge_sort Z.le zs)
      | None, Some ss => Ok (KStr <$> merge_sort str_le ss)
      | None, None => Raise TypeError
      end
  end.

(** ** Parse SBOM *)

Section Normalizer.
Context `{Runtime}.

(** [c.get("bom-ref") or c.get("bomRef") or c.get("purl") or c.get("name")] *)
Definition cx_id (c : json) : res json :=
  a ← get c "bom-ref";
  b ← get c "bomRef";
  p ← get c "purl";
  n ← get c "name";
  Ok (py_or (py_or (py_or a b) p) n).

Definition _cx_label (comp : json) : res json :=
  n ← get comp "name";
  g ← get comp "group";
  t ← get comp "type";
  let name := py_or (py_or (py_or n g) t) (JStr "component") in
  version ← get comp "version";
  group ← get comp "group";
  let label :=
    if truthy group && negb (py_eq group name)
    then JStr (fstr group ++ "/" ++ fstr name) else name in
  Ok (if truthy version then JStr (fstr label ++ "@" ++ fstr version) else label).

(** Body of [for c in comps] (lines 46-49) *)
Definition cx_component_step (s : SBOM) (c : json) : res SBOM :=
  cid ← cx_id c;
  if truthy cid then lbl ← _cx_label c; nodes_setitem cid lbl s else Ok s.

(** Lines 51-58: the graph and [root_id] *)
Definition cx_metadata (obj : json) (s : SBOM) : res (SBOM * json) :=
  m ← get_default obj "metadata" (JDict []);
  let meta := py_or m (JDict []) in
  meta_comp ← get meta "component";
  if truthy meta_comp then
    root_id ← cx_id meta_comp;
    if truthy root_id then
      lbl ← _cx_label meta_comp;
      s1 ← nodes_setdefault root_id lbl s;
      s2 ← roots_add root_id s1;
      Ok (s2, root_id)
    else Ok (s, root_id)
  else Ok (s, JNull).

(** The id that [metadata.component] yields (lines 51-55), [None] when
    there is no such component. *)
Definition declared_root (obj : json) : res json :=
  m ← get_default obj "metadata" (JDict []);
  meta_comp ← get (py_or m (JDict [])) "component";
  if truthy meta_comp then cx_id meta_comp else Ok JNull.

(** Body of [for child in (dep.get("dependsOn") or [])] (lines 66-68) *)
Definition cx_child_step (ref : json) (s : SBOM) (child : json) : res SBOM :=
  if truthy child then
    s1 ← nodes_setdefault child child s;
    edges_add ref child s1
  else Ok s.

(** Body of [for dep in obj.get("dependencies", []) or []] (lines 61-68) *)
Definition cx_dep_step (s : SBOM) (dep : json) : res SBOM :=
  ref ← get dep "ref";
  if truthy ref then
    s1 ← nodes_setdefault ref ref s;
    d ← get dep "dependsOn";
    kids ← py_iter (py_or d (JList []));
    foldM (cx_child_step ref) s1 kids
  else Ok s.

(** Body of [for child in deps_field] (lines 76-78) *)
Definition cx_inline_child_step (src : json) (s : SBOM) (child : json) : res SBOM :=
  s1 ← nodes_setdefault src src s;
  s2 ← nodes_setdefault child child s1;
  edges_add src child s2.

(** Body of the fallback's [for c in comps] (lines 72-78) *)
Definition cx_inline_step (s : SBOM) (c : json) : res SBOM :=
  src ← cx_id c;
  d ← get c "dependencies";
  let deps_field := py_or d (JList []) in
  if deps_field is JList kids then foldM (cx_inline_child_step src) s kids else Ok s.

(** Lines 70-78 *)
Definition cx_fallback (comps : json) (s : SBOM) : res SBOM :=
  if bool_decide (edges s = ∅) && truthy comps then
    cs ← py_iter comps; foldM cx_inline_step s cs
  else Ok s.

(** Lines 80-85 *)
Definition cx_roots (root_id : json) (s : SBOM) : res SBOM :=
  let candidates := dom (nodes s) ∖ all_children s in
  let s1 := if bool_decide (candidates ≠ ∅) then with_roots (λ r, r ∪ candidates) s else s in
  if truthy root_id then
    k ← key_of root_id; Ok (with_roots (λ _, {[k]}) s1)
  else Ok s1.

(** Lines 87-91 *)
Definition cx_attach (root_id : json) (s : SBOM) : res SBOM :=
  if truthy root_id then
    k ← key_of root_id;
    if bool_decide (k ∈ dom (nodes s)) && bool_decide (k ∉ dom (edges s)) then
      let in_deps := all_children s in
      top_level ← py_sorted (filter (λ r, r ∉ in_deps) (elements (dom (edges s))));
      if bool_decide (top_level ≠ []) then
        Ok (with_edges (insert k (list_to_set top_level)) s)
      else Ok s
    else Ok s
  else Ok s.

(** Lines 44-58: the declared nodes, with [comps] and [root_id]. *)
Definition cx_declare (obj : json) : res (SBOM * json * json) :=
  cs ← get_default obj "components" (JList []);
  let comps := py_or cs (JList []) in
  cl ← py_iter comps;
  s1 ← foldM cx_component_step new_SBOM cl;
  '(s2, root_id) ← cx_metadata obj s1;
  Ok (s2, comps, root_id).

(** Lines 44-68: the graph after the top-level [dependencies] section. *)
Definition cx_primary (obj : json) : res (SBOM * json * json) :=
  '(s2, comps, root_id) ← cx_declare obj;
  ds ← get_default obj "dependencies" (JList []);
  dl ← py_iter (py_or ds (JList []));
  s3 ← foldM cx_dep_step s2 dl;
  Ok (s3, comps, root_id).

(** Lines 44-78: the graph before root inference, with [root_id]. *)
Definition cx_build (obj : json) : res (SBOM * json) :=
  '(s3, comps, root_id) ← cx_primary obj;
  s4 ← cx_fallback comps s3;
  Ok (s4, root_id).

Definition _from_cyclonedx (obj : json) : res SBOM :=
  '(s4, root_id) ← cx_build obj;
  s5 ← cx_roots root_id s4;
  cx_attach root_id s5.

Definition _spdx_pkg_label (pkg : json) : res json :=
  n ← get pkg "name";
  let name := py_or n (JStr "package") in
  vi ← get pkg "versionInfo";
  v ← get pkg "version";
  let version := py_or vi v in
  Ok (if negb (truthy version) then name else JStr (fstr name ++ "@" ++ fstr version)).

Definition reverse_types : list string :=
  [ "RUNTIME_DEPENDENCY_OF"; "BUILD_DEPENDENCY_OF"; "DEV_DEPENDENCY_OF";
    "TEST_DEPENDENCY_OF"; "OPTIONAL_DEPENDENCY_OF";
    "STATIC_LINK"; "DYNAMIC_LINK";
    "DATA_FILE_OF"; "EXAMPLE_OF"; "GENERATED_FROM"; "PATCH_FOR";
    "PREREQUISITE_FOR"; "AMENDS"; "DEPENDENCY_MANIFEST_OF" ].

Definition forward_types : list string := [ "DEPENDS_ON"; "PREREQUISITE" ].

(** Body of [for pkg in obj.get("packages", []) or []] (lines 105-107) *)
Definition spdx_package_step (s : SBOM) (pkg : json) : res SBOM :=
  a ← get pkg "SPDXID";
  b ← get pkg "spdxid";
  let sid := py_or a b in
  if truthy sid then lbl ← _spdx_pkg_label pkg; nodes_setitem sid lbl s else Ok s.

(** [(rel.get("relationshipType") or "").upper().replace("-", "_")] *)
Definition spdx_rel_type (rel : json) : res string :=
  t ← get rel "relationshipType";
  match py_or t (JStr "") with
  | JStr x => Ok (replace_char "-" "_" (upper x))
  | _ => Raise AttributeError
  end.

(** [rel.get("spdxElementId") or rel.get("sourceElement")] *)
Definition spdx_rel_source (rel : json) : res json :=
  a ← get rel "spdxElementId";
  b ← get rel "sourceElement";
  Ok (py_or a b).

(** [rel.get("relatedSpdxElement") or rel.get("targetElement")] *)
Definition spdx_rel_target (rel : json) : res json :=
  c ← get rel "relatedSpdxElement";
  d ← get rel "targetElement";
  Ok (py_or c d).

(** Body of [for rel in obj.get("relationships", []) or []] (lines 119-128) *)
Definition spdx_rel_step (s : SBOM) (rel : json) : res SBOM :=
  rt ← spdx_rel_type rel;
  src ← spdx_rel_source rel;
  dst ← spdx_rel_target rel;
  if negb (truthy src) || negb (truthy dst) then Ok s
  else
    s1 ← nodes_setdefault src src s;
    s2 ← nodes_setdefault dst dst s1;
    if bool_decide (rt ∈ forward_types) then edges_add src dst s2
    else if bool_decide (rt ∈ reverse_types) then edges_add dst src s2
    else Ok s2.

(** Body of [for rid in desc] (lines 133-134) *)
Definition spdx_describes_step (s : SBOM) (rid : json) : res SBOM :=
  k ← key_of rid;
  if bool_decide (k ∈ dom (nodes s)) then roots_add rid s else Ok s.

(** Lines 130-137 *)
Definition spdx_roots (obj : json) (s : SBOM) : res SBOM :=
  d ← get obj "documentDescribes";
  let desc := py_or d (JList []) in
  let desc := if is_str desc then JList [desc] else desc in
  dl ← py_iter desc;
  s1 ← foldM spdx_describes_step s dl;
  if bool_decide (roots s1 = ∅) then
    let in_edges := all_children s1 in
    Ok (with_roots (λ _, dom (nodes s1) ∖ in_edges) s1)
  else Ok s1.

(** Lines 103-107: the declared packages. *)
Definition spdx_declare (obj : json) : res SBOM :=
  ps ← get_default obj "packages" (JList []);
  pl ← py_iter (py_or ps (JList []));
  foldM spdx_package_step new_SBOM pl.

(** Lines 103-128: the graph before root selection. *)
Definition spdx_build (obj : json) : res SBOM :=
  s1 ← spdx_declare obj;
  rs ← get_default obj "relationships" (JList []);
  rl ← py_iter (py_or rs (JList []));
  foldM spdx_rel_step s1 rl.

Definition _from_spdx (obj : json) : res SBOM :=
  s2 ← spdx_build obj;
  spdx_roots obj s2.

Definition from_json (obj : json) : res SBOM :=
  if is_dict obj &&
     (match get obj "bomFormat" with Ok v => py_eq v (JStr "CycloneDX") | _ => false end
      || has_key obj "components" || has_key obj "dependencies")
  then _from_cyclonedx obj
  else if is_dict obj && (has_key obj "packages" || has_key obj "relationships")
  then _from_spdx obj
  else Raise ValueError.

End Normalizer.

(** ** After normalisation: a state-and-error monad *)

(** The objects the renderers can reach: the graph, the ASCII renderer's
    [visited_global] and the lines printed so far. *)
Record world : Type := mkWorld {
  w_sbom : SBOM;
  w_visited : gset key;
  w_out : list string;
}.

(** A computation returns its outcome together with the world it leaves,
    also when it raises. *)
Definition M (A : Type) : Type := world → res A * world.

Global Instance M_ret : MRet M := λ A a w, (Ok a, w).
Global Instance M_bind : MBind M := λ A B f m w,
  match m w with
  | (Ok a, w') => f a w'
  | (Raise e, w') => (Raise e, w')
  | (OutOfFuel, w') => (OutOfFuel, w')
  end.

Definition lift {A : Type} (r : res A) : M A := λ w, (r, w).
Definition out_of_fuel {A : Type} : M A := λ w, (OutOfFuel, w).

(** [sbom.nodes.get(k, k)] *)
Definition nodes_get (k : key) : M json :=
  λ w, (Ok (default (val_of k) (nodes (w_sbom w) !! k)), w).

(** [k in sbom.nodes] *)
Definition nodes_mem (k : key) : M bool :=
  λ w, (Ok (bool_decide (k ∈ dom (nodes (w_sbom w)))), w).

(** [sbom.edges.get(k, [])]: a read that leaves the [defaultdict] alone. *)
Definition edges_get (k : key) : M (gset key) :=
  λ w, (Ok (default ∅ (edges (w_sbom w) !! k)), w).

(** [sbom.edges[k]]: indexing a [defaultdict(set)] stores an empty set
    under a missing key. *)
Definition edges_getitem (k : key) : M (gset key) :=
  λ w, match edges (w_sbom w) !! k with
       | Some kids => (Ok kids, w)
       | None => (Ok ∅, mkWorld (with_edges (insert k ∅) (w_sbom w)) (w_visited w) (w_out w))
       end.

(** [sbom.roots] *)
Definition roots_get : M (gset key) := λ w, (Ok (roots (w_sbom w)), w).

(** [len(sbom.edges)] *)
Definition edges_len : M nat := λ w, (Ok (size (edges (w_sbom w))), w).

(** [print(line)] *)
Definition print (line : string) : M unit :=
  λ w, (Ok tt, mkWorld (w_sbom w) (w_visited w) (w_out w ++ [line])).

(** [visited_global = set()], [k in visited_global], [visited_global.add(k)] *)
Definition visited_new : M unit :=
  λ w, (Ok tt, mkWorld (w_sbom w) ∅ (w_out w)).
Definition visited_mem (k : key) : M bool :=
  λ w, (Ok (bool_decide (k ∈ w_visited w)), w).
Definition visited_add (k : key) : M unit :=
  λ w, (Ok tt, mkWorld (w_sbom w) (w_visited w ∪ {[k]}) (w_out w)).

Fixpoint for_each {A : Type} (l : list A) (body : A → M unit) : M unit :=
  match l with
  | [] => mret tt
  | x :: l' => body x ;; for_each l' body
  end.

Fixpoint mapM_M {A B : Type} (f : A → M B) (l : list A) : M (list B) :=
  match l with
  | [] => mret []
  | x :: l' => y ← f x; ys ← mapM_M f l'; mret (y :: ys)
  end.

(** [[x for x in l if p(x)]] *)
Fixpoint filter_M {A : Type} (p : A → M bool) (l : list A) : M (list A) :=
  match l with
  | [] => mret []
  | x :: l' => b ← p x; ys ← filter_M p l'; mret (if (b : bool) then x :: ys else ys)
  end.

(** [for x in l: acc = body(acc, x)] *)
Fixpoint fold_M {A B : Type} (body : B → A → M B) (acc : B) (l : list A) : M B :=
  match l with
  | [] => mret acc
  | x :: l' => acc' ← body acc x; fold_M body acc' l'
  end.

(** [enumerate(l)] *)
Definition enumerate {A : Type} (l : list A) : list (nat * A) := imap (λ i x, (i, x)) l.

(** [a + v] for a string [a] *)
Definition str_add (a : string) (v : json) : res string :=
  match v with
  | JStr s => Ok (a ++ s)
  | _ => Raise TypeError
  end.

(** [v + b] for a string [b] *)
Definition add_str (v : json) (b : string) : res string :=
  match v with
  | JStr s => Ok (s ++ b)
  | _ => Raise TypeError
  end.

(** [v.lower()] *)
Definition py_lower (v : json) : res string :=
  match v with
  | JStr s => Ok (lower s)
  | _ => Raise AttributeError
  end.

(** ** Sorting by label *)

(** [sorted(xs, key=...)] is stable and compares keys with [<] only; on
    strings every stable sort returns the list that insertion returns. *)
Fixpoint insert_by_key {A : Type} (kx : string) (x : A) (l : list (string * A)) : list (string * A) :=
  match l with
  | [] => [(kx, x)]
  | (ky, y) :: l' =>
      if String.ltb ky kx then (ky, y) :: insert_by_key kx x l'
      else (kx, x) :: (ky, y) :: l'
  end.

Definition stable_sort {A : Type} (l : list (string * A)) : list (string * A) :=
  foldr (λ p acc, insert_by_key p.1 p.2 acc) [] l.

(** [lambda rid: sbom.nodes.get(rid, rid).lower()] *)
Definition label_key (rid : key) : M string :=
  label ← nodes_get rid; lift (py_lower label).

(** [sorted(xs, key=lambda rid: sbom.nodes.get(rid, rid).lower())] *)
Definition sorted_by_label (xs : list key) : M (list key) :=
  keyed ← mapM_M (λ rid, k ← label_key rid; mret (k, rid)) xs;
  mret ((stable_sort keyed).*2).

Section Traversal.
Context `{Runtime}.

(** [sorted(sbom.edges.get(node, []), key=...)] (lines 164 and 417) *)
Definition children_of (node : key) : M (list key) :=
  kids ← edges_get node; sorted_by_label (set_order kids).

(** ** Build forest *)

Definition build_forest (start_ids : option (list key)) : M (list key) :=
  let by_label := rs ← roots_get; sorted_by_label (set_order rs) in
  match start_ids with
  | Some ((_ :: _) as ids) =>
      roots ← filter_M nodes_mem ids;
      if bool_decide (roots ≠ []) then mret roots else by_label
  | _ => by_label
  end.

(** ** ASCII *)

Definition at_limit (max_depth : option Z) (depth : nat) : bool :=
  match max_depth with
  | Some d => bool_decide (d ≤ Z.of_nat depth)%Z
  | None => false
  end.

Definition indent (last : bool) : string := if last then "    " else "|   ".

(** [f"{label} <{node}>" if show_ids else label] *)
Definition node_text (show_ids : bool) (label : json) (node : key) : json :=
  if show_ids then JStr (fstr label ++ " <" ++ fstr (val_of node) ++ ">") else label.

(** ["+-- " if depth>0 else ""] *)
Definition tee (depth : nat) : string := if bool_decide (0 < depth) then "+-- " else "".

Definition cycle_line (prefix : string) (last : bool) : string :=
  prefix ++ indent last ++ "+-- (cycle)".

(** The generator [render]; a [yield] reaches [print] in [ascii_trees], so
    it is a [print] here. The recursion is on [fuel]. *)
Fixpoint render (fuel : nat) (show_ids : bool) (max_depth : option Z) (include_dupes : bool)
    (node : key) (prefix : string) (seen : gset key) (last : bool) (depth : nat) : M unit :=
  match fuel with
  | 0 => out_of_fuel
  | S fuel' =>
      label ← nodes_get node;
      line ← lift (str_add (prefix ++ tee depth) (node_text show_ids label node));
      print line ;;
      if at_limit max_depth depth then mret tt
      else if bool_decide (node ∈ seen) then print (cycle_line prefix last)
      else
        let seen := seen ∪ {[node]} in
        children ← children_of node;
        for_each (enumerate children) (λ '(i, child),
          let last_child := bool_decide (i = length children - 1) in
          let next_prefix := prefix ++ indent last in
          dup ← visited_mem child;
          if negb include_dupes && dup then
            lbl ← nodes_get child;
            ref_line ← lift (str_add (next_prefix ++ "+-- ") lbl);
            print (ref_line ++ "  (seen)")
          else
            visited_add child ;;
            render fuel' show_ids max_depth include_dupes child next_prefix seen last_child (S depth))
  end.

(** Body of [for i, child in enumerate(children)] in [render] (lines
    165-173), with the fuel that is left for the recursive call;
    [render_enters] shows that it is the body [render] runs. *)
Definition render_child (fuel : nat) (show_ids : bool) (max_depth : option Z)
    (include_dupes : bool) (prefix : string) (seen : gset key) (last : bool) (depth : nat)
    (children : list key) : nat * key → M unit :=
  λ '(i, child),
    let last_child := bool_decide (i = length children - 1) in
    let next_prefix := prefix ++ indent last in
    dup ← visited_mem child;
    if negb include_dupes && dup then
      lbl ← nodes_get child;
      ref_line ← lift (str_add (next_prefix ++ "+-- ") lbl);
      print (ref_line ++ "  (seen)")
    else
      visited_add child ;;
      render fuel show_ids max_depth include_dupes child next_prefix seen last_child (S depth).

(** A path of distinct nodes that have children is no longer than
    [len(sbom.edges)], which bounds the depth of the recursion. *)
Definition ascii_trees (roots : list key) (show_ids : bool) (max_depth : option Z)
    (include_dupes : bool) : M unit :=
  visited_new ;;
  n ← edges_len;
  for_each roots (λ r,
    render (S n) show_ids max_depth include_dupes r "" ∅ true 0 ;;
    print "").

(** ** HTML *)

Inductive d3 : Type := D3 (name : json) (children : list d3).

Definition cycle_mark : string := " ↺".

Fixpoint make_node (fuel : nat) (node : key) (seen : gset key) : M d3 :=
  match fuel with
  | 0 => out_of_fuel
  | S fuel' =>
      label ← nodes_get node;
      if bool_decide (node ∈ seen) then
        nm ← lift (add_str label cycle_mark); mret (D3 (JStr nm) [])
      else
        let seen := seen ∪ {[node]} in
        kids ← children_of node;
        cs ← mapM_M (λ k, make_node fuel' k seen) kids;
        mret (D3 label cs)
  end.

Definition to_d3_tree (roots : list key) : M d3 :=
  n ← edges_len;
  match roots with
  | [r] => make_node (S n) r ∅
  | _ => cs ← mapM_M (λ r, make_node (S n) r ∅) roots; mret (D3 (JStr "SBOM Roots") cs)
  end.

(** ** DOT *)

Definition dquote : string := String "034" "".
Definition newline : string := String "010" "".

(** [v.replace('"', '\\"')] *)
Fixpoint escape_quotes (s : string) : string :=
  match s with
  | EmptyString => EmptyString
  | String c s' =>
      if Ascii.eqb c "034" then String "\" (String "034" (escape_quotes s'))
      else String c (escape_quotes s')
  end.

Definition py_escape (v : json) : res string :=
  match v with
  | JStr s => Ok (escape_quotes s)
  | _ => Raise AttributeError
  end.

(** [sep.join(lines)] *)
Fixpoint join (sep : string) (lines : list string) : string :=
  match lines with
  | [] => ""
  | [l] => l
  | l :: rest => l ++ sep ++ join sep rest
  end.

(** The [while dq] loop (lines 185-189); the recursion is on [fuel]. *)
Fixpoint bfs (fuel : nat) (dq : list key) (reachable : gset key) : M (gset key) :=
  match dq with
  | [] => mret reachable
  | n :: dq' =>
      match fuel with
      | 0 => out_of_fuel
      | S fuel' =>
          if bool_decide (n ∈ reachable) then bfs fuel' dq' reachable
          else
            kids ← edges_get n;
            bfs fuel' (dq' ++ set_order kids) (reachable ∪ {[n]})
      end
  end.

(** The number of edges, plus one: every turn of the loop either drops a
    queued id or consumes the edges of a newly reached node. *)
Definition bfs_fuel : M nat :=
  λ w, (Ok (S (sum_list (size <$> (map_to_list (edges (w_sbom w))).*2))), w).

Definition dot_node_line (n : key) : M string :=
  v ← nodes_get n;
  label ← lift (py_escape v);
  mret ("  " ++ dquote ++ fstr (val_of n) ++ dquote ++ " [label=" ++ dquote ++ label ++ dquote ++ "];").

(** [f'  "{src}" -> "{dst}";'] *)
Definition dot_edge_line (src dst : key) : string :=
  "  " ++ dquote ++ fstr (val_of src) ++ dquote ++ " -> "
       ++ dquote ++ fstr (val_of dst) ++ dquote ++ ";".

(** Lines 195-196: the edge lines of one reachable source. *)
Definition dot_edge_lines (reachable : gset key) (src : key) : M (list string) :=
  kids ← edges_get src;
  dsts ← lift (py_sorted (elements kids));
  mret (dot_edge_line src <$> filter (λ dst, dst ∈ reachable) dsts).

Definition to_dot (roots : list key) : M string :=
  fuel ← bfs_fuel;
  reachable ← fold_M (λ acc root, bfs fuel [root] acc) ∅ roots;
  ns ← lift (py_sorted (elements reachable));
  node_lines ← mapM_M dot_node_line ns;
  srcs ← lift (py_sorted (elements reachable));
  edge_lines ← mapM_M (dot_edge_lines reachable) srcs;
  mret (join newline
          (["digraph SBOM {"; "  rankdir=LR;"; "  node [shape=box, fontsize=10];"]
           ++ node_lines ++ concat edge_lines ++ ["}"])).

End Traversal.

(** ** Specification vocabulary *)

(** [a -> b] is an edge of the graph. *)
Definition has_edge (s : SBOM) (a b : key) : Prop :=
  ∃ kids, edges s !! a = Some kids ∧ b ∈ kids.

(** The two invariants of a graph: the edge map mentions nodes only, and
    so does the root set. *)
Definition edges_closed (s : SBOM) : Prop :=
  ∀ a kids, edges s !! a = Some kids → a ∈ dom (nodes s) ∧ kids ⊆ dom (nodes s).

Definition roots_closed (s : SBOM) : Prop := roots s ⊆ dom (nodes s).

Definition graph_ok (s : SBOM) : Prop := edges_closed s ∧ roots_closed s.

(** Relative to the declared nodes [s0], every other node of [s] is a
    placeholder: its label is the value that names it. *)
Definition placeholders (s0 s : SBOM) : Prop :=
  ∀ k, nodes s !! k = nodes s0 !! k
       ∨ (nodes s0 !! k = None ∧ ∃ v, nodes s !! k = Some v ∧ key_of v = Ok k).

(** What holds from the declaration phase on, [s0] being the graph that
    holds the declared nodes. *)
Definition inv (s0 s : SBOM) : Prop := graph_ok s ∧ placeholders s0 s.

(** [s'] keeps every node, label and edge of [s]. *)
Definition grows (s s' : SBOM) : Prop :=
  (∀ k v, nodes s !! k = Some v → nodes s' !! k = Some v) ∧
  (∀ a b, has_edge s a b → has_edge s' a b).

(** The declaration phase: no edge yet, no node named by a false value,
    and the declared root, when there is one, is a node and the only root. *)
Definition declared (s : SBOM) (root_id : json) : Prop :=
  edges s = ∅ ∧ (KNone ∉ dom (nodes s)) ∧
  (if truthy root_id
   then ∃ k, key_of root_id = Ok k ∧ k ∈ dom (nodes s) ∧ roots s = {[k]}
   else roots s = ∅).

(** No primitive of the normalisers raises [ValueError], nor runs out of
    fuel: they have none. *)
Definition plain {A : Type} (m : res A) : Prop :=
  m ≠ Raise ValueError ∧ m ≠ OutOfFuel.

(** Every key of the edge map has a child: the map gets a key only when
    an edge is added. *)
Definition edges_nonempty (s : SBOM) : Prop :=
  ∀ a kids, edges s !! a = Some kids → kids ≠ ∅.

(** In the fallback a node named by [None] can only be labelled [None]. *)
Definition None_label (s : SBOM) : Prop :=
  nodes s !! KNone = None ∨ nodes s !! KNone = Some JNull.

(** A computation that leaves the graph as it found it, whatever its
    outcome. *)
Definition frame {A : Type} (m : M A) : Prop :=
  ∀ w, w_sbom (m w).2 = w_sbom w.

(** The label shown for an id, and the key [lambda rid: ...lower()] gives
    it, as functions of the graph. *)
Definition label_of (s : SBOM) (k : key) : json := default (val_of k) (nodes s !! k).
Definition sort_key (s : SBOM) (k : key) : res string := py_lower (label_of s k).

(** [sorted(xs, key=...)] as a function of the graph *)
Definition sorted_pure (s : SBOM) (xs : list key) : res (list key) :=
  keyed ← mapM_res (λ rid, k ← sort_key s rid; Ok (k, rid)) xs;
  Ok ((stable_sort keyed).*2).

(** Order on decorated items: by key alone. *)
Definition keyed_le {A : Type} (p q : string * A) : Prop := str_le p.1 q.1.

(** Order on ids in a graph: by lowercased label. *)
Definition label_le (s : SBOM) (a b : key) : Prop :=
  ∃ ka kb, sort_key s a = Ok ka ∧ sort_key s b = Ok kb ∧ str_le ka kb.

(** The order the specification asks for: by lowercased label, then by id. *)
Definition id_le (a b : key) : Prop :=
  match a, b with
  | KNum x, KNum y => (x ≤ y)%Z
  | KStr x, KStr y => str_le x y
  | _, _ => False
  end.



(** A computation that comes back, with a value or an exception: its fuel
    was enough. *)
Definition returns {A : Type} (m : M A) (w : world) : Prop :=
  (m w).1 ≠ OutOfFuel.

(** The edges of a graph as a set of pairs, to count them. *)
Definition edge_set (s : SBOM) : gset (key * key) :=
  ⋃ ((λ p : key * gset key, set_map (λ b, (p.1, b)) p.2) <$> map_to_list (edges s)).

(** What a CycloneDX document lists. [component_id c k]: the component [c]
    has the id [k]. [dep_ref dep a]: the dependency entry [dep] has the
    reference [a]. [dep_child dep b]: [b] is among its [dependsOn].
    [listed dl a b]: some entry of [dl] lists the edge [a -> b].
    [referenced dl k]: some entry of [dl] mentions [k], as its reference or
    under it. *)
Definition component_id (c : json) (k : key) : Prop :=
  ∃ v, cx_id c = Ok v ∧ truthy v = true ∧ key_of v = Ok k.

Definition dep_ref (dep : json) (a : key) : Prop :=
  ∃ ref, get dep "ref" = Ok ref ∧ truthy ref = true ∧ key_of ref = Ok a.

Definition dep_child (dep : json) (b : key) : Prop :=
  ∃ d kids child, get dep "dependsOn" = Ok d ∧ py_iter (py_or d (JList [])) = Ok kids ∧
    child ∈ kids ∧ truthy child = true ∧ key_of child = Ok b.

Definition listed (dl : list json) (a b : key) : Prop :=
  ∃ dep, dep ∈ dl ∧ dep_ref dep a ∧ dep_child dep b.

Definition referenced (dl : list json) (k : key) : Prop :=
  ∃ dep, dep ∈ dl ∧ (dep_ref dep k ∨ ((∃ a, dep_ref dep a) ∧ dep_child dep k)).

(** The edges that the breadth-first walk has still to consume: those of
    the sources not yet reached. *)
Definition pending (s : SBOM) (reachable : gset key) : nat :=
  sum_list (size <$> (map_to_list (filter (λ p, p.1 ∉ reachable) (edges s))).*2).




(** The edge that an SPDX relationship entry stands for: source -> target
    for a forward type, target -> source for a reverse type. *)
Definition rel_edge (rel : json) (a b : key) : Prop :=
  ∃ rt src dst,
    spdx_rel_type rel = Ok rt ∧ spdx_rel_source rel = Ok src ∧
    spdx_rel_target rel = Ok dst ∧ truthy src = true ∧ truthy dst = true ∧
    ((rt ∈ forward_types ∧ key_of src = Ok a ∧ key_of dst = Ok b)
     ∨ (rt ∈ reverse_types ∧ key_of dst = Ok a ∧ key_of src = Ok b)).

(** Documents of the CycloneDX shape: ids and references are strings when
    present, components carry no inline dependency list, [dependsOn] is a
    list of strings. *)
Definition null_or_str (v : json) : Prop := v = JNull ∨ ∃ i, v = JStr i.

Definition wf_component (c : json) : Prop :=
  ∃ a b p n,
    get c "bom-ref" = Ok a ∧ get c "bomRef" = Ok b ∧ get c "purl" = Ok p ∧
    get c "name" = Ok n ∧
    null_or_str a ∧ null_or_str b ∧ null_or_str p ∧ null_or_str n ∧
    get c "dependencies" = Ok JNull.

Definition wf_dependency (dep : json) : Prop :=
  ∃ ref d,
    get dep "ref" = Ok ref ∧ null_or_str ref ∧
    get dep "dependsOn" = Ok d ∧
    (d = JNull ∨ ∃ l, d = JList l ∧ Forall null_or_str l).

Definition wf_cyclonedx (obj : json) : Prop :=
  ∃ cs m ds,
    get_default obj "components" (JList []) = Ok cs ∧
    (cs = JNull ∨ ∃ cl, cs = JList cl ∧ Forall wf_component cl) ∧
    get_default obj "metadata" (JDict []) = Ok m ∧
    (m = JNull ∨ ∃ mc, is_dict m = true ∧ get m "component" = Ok mc ∧
                       (mc = JNull ∨ wf_component mc)) ∧
    get_default obj "dependencies" (JList []) = Ok ds ∧
    (ds = JNull ∨ ∃ dl, ds = JList dl ∧ Forall wf_dependency dl).

(** Documents of the SPDX shape: ids, element references and relationship
    types are strings when present. *)
Definition wf_package (pkg : json) : Prop :=
  ∃ a b, get pkg "SPDXID" = Ok a ∧ get pkg "spdxid" = Ok b ∧
         null_or_str a ∧ null_or_str b.

Definition wf_relationship (rel : json) : Prop :=
  ∃ t a b c d,
    get rel "relationshipType" = Ok t ∧
    get rel "spdxElementId" = Ok a ∧ get rel "sourceElement" = Ok b ∧
    get rel "relatedSpdxElement" = Ok c ∧ get rel "targetElement" = Ok d ∧
    null_or_str t ∧ null_or_str a ∧ null_or_str b ∧ null_or_str c ∧ null_or_str d.

Definition wf_spdx (obj : json) : Prop :=
  ∃ ps rs d,
    get_default obj "packages" (JList []) = Ok ps ∧
    (ps = JNull ∨ ∃ pl, ps = JList pl ∧ Forall wf_package pl) ∧
    get_default obj "relationships" (JList []) = Ok rs ∧
    (rs = JNull ∨ ∃ rl, rs = JList rl ∧ Forall wf_relationship rl) ∧
    get obj "documentDescribes" = Ok d ∧
    (null_or_str d ∨ ∃ dl, d = JList dl ∧ Forall null_or_str dl).

(** Every key of the edge map is a string. *)
Definition str_sources (s : SBOM) : Prop :=
  ∀ k, k ∈ dom (edges s) → ∃ i, k = KStr i.

(** The detection markers of the two schemas. *)
Definition cyclonedx_markers (obj : json) : Prop :=
  ∃ kvs, obj = JDict kvs ∧
    (dict_get kvs "bomFormat" = Some (JStr "CycloneDX")
     ∨ is_Some (dict_get kvs "components")
     ∨ is_Some (dict_get kvs "dependencies")).

Definition spdx_markers (obj : json) : Prop :=
  ∃ kvs, obj = JDict kvs ∧
    (is_Some (dict_get kvs "packages") ∨ is_Some (dict_get kvs "relationships")).

(** A runtime for the examples: sets are iterated in the order of
    [elements]; no example formats a list or a mapping. *)
Definition example_runtime : Runtime :=
  {| py_format := λ _, ""; set_order := elements; set_order_perm := λ X, Permutation_refl _ |}.

(** ** Example graphs and documents *)

(** A graph given by its labels, its edges and its roots, all ids being
    strings. *)
Definition graph_of (ns : list (string * string)) (es : list (string * list string))
    (rs : list string) : SBOM :=
  mkSBOM (list_to_map ((λ p, (KStr p.1, JStr p.2)) <$> ns))
         (list_to_map ((λ p, (KStr p.1, list_to_set (KStr <$> p.2))) <$> es))
         (list_to_set (KStr <$> rs)).

(** The world in which a renderer starts. *)
Definition start (s : SBOM) : world := mkWorld s ∅ [].

(** Scenario E: a -> b -> a. *)
Definition two_cycle : SBOM :=
  graph_of [("a", "a"); ("b", "b")] [("a", ["b"]); ("b", ["a"])] ["a"].

(** A cycle that does not pass through the root: r -> a -> b -> a. *)
Definition inner_cycle : SBOM :=
  graph_of [("r", "r"); ("a", "a"); ("b", "b")]
           [("r", ["a"]); ("a", ["b"]); ("b", ["a"])] ["r"].

(** Two requested roots, the second depending on the first:
    q -> r -> x. *)
Definition shared_root : SBOM :=
  graph_of [("r", "r"); ("q", "q"); ("x", "x")] [("q", ["r"]); ("r", ["x"])] ["q"].

(** Scenario B: components a and b, a depends on b (listed twice), and a
    declared root that no dependency entry mentions. *)
Definition scenario_B_components : list json :=
  [JDict [("bom-ref", JStr "a")]; JDict [("bom-ref", JStr "b")]].

Definition scenario_B_dependency : json :=
  JDict [("ref", JStr "a"); ("dependsOn", JList [JStr "b"; JStr "b"])].

Definition scenario_B : json :=
  JDict [("components", JList scenario_B_components);
         ("metadata", JDict [("component", JDict [("bom-ref", JStr "root")])]);
         ("dependencies", JList [scenario_B_dependency])].

Definition scenario_B_graph : SBOM :=
  mkSBOM (list_to_map [(KStr "a", JStr "component"); (KStr "b", JStr "component");
                       (KStr "root", JStr "component")])
         (list_to_map [(KStr "a", {[KStr "b"]}); (KStr "root", {[KStr "a"]})])
         {[KStr "root"]}.

(** Scenario B after the top-level [dependencies] section (line 69). *)
Definition scenario_B_primary : SBOM :=
  mkSBOM (list_to_map [(KStr "a", JStr "component"); (KStr "b", JStr "component");
                       (KStr "root", JStr "component")])
         (list_to_map [(KStr "a", {[KStr "b"]})])
         {[KStr "root"]}.

(** The document that normalises to [shared_root]. *)
Definition shared_root_doc : json :=
  JDict [("components",
          JList [JDict [("bom-ref", JStr "r"); ("name", JStr "r")];
                 JDict [("bom-ref", JStr "q"); ("name", JStr "q")];
                 JDict [("bom-ref", JStr "x"); ("name", JStr "x")]]);
         ("dependencies",
          JList [JDict [("ref", JStr "q"); ("dependsOn", JList [JStr "r"])];
                 JDict [("ref", JStr "r"); ("dependsOn", JList [JStr "x"])]])].

(** A relationship of a reverse type: X is a build dependency of P. *)
Definition reverse_rel : json :=
  JDict [("relationshipType", JStr "build-dependency-of");
         ("spdxElementId", JStr "X"); ("relatedSpdxElement", JStr "P")].

(** Scenario C: one package P that depends on the undeclared Q. *)
Definition scenario_C : json :=
  JDict [("packages", JList [JDict [("SPDXID", JStr "P")]]);
         ("relationships",
          JList [JDict [("relationshipType", JStr "DEPENDS_ON");
                        ("spdxElementId", JStr "P");
                        ("relatedSpdxElement", JStr "Q")]])].

Definition scenario_C_graph : SBOM :=
  mkSBOM (list_to_map [(KStr "P", JStr "package"); (KStr "Q", JStr "Q")])
         (list_to_map [(KStr "P", {[KStr "Q"]})])
         {[KStr "P"]}.

(** A component without any id field that lists its dependencies inline. *)
Definition idless_component : json := JDict [("dependencies", JList [JStr "x"])].
Definition idless_doc : json := JDict [("components", JList [idless_component])].

Definition idless_graph : SBOM :=
  mkSBOM (list_to_map [(KNone, JNull); (KStr "x", JStr "x")])
         (list_to_map [(KNone, {[KStr "x"]})])
         {[KNone]}.




(** The ids that [documentDescribes] names (lines 130-132): the field
    itself when it is a string, its members when it is a list. *)
Definition described (obj : json) (k : key) : Prop :=
  ∃ d dl rid,
    get obj "documentDescribes" = Ok d ∧
    py_iter (let desc := py_or d (JList []) in
             if is_str desc then JList [desc] else desc) = Ok dl ∧
    rid ∈ dl ∧ key_of rid = Ok k.

(** A document without a declared root, and one that describes its root. *)
Definition scenario_A : json :=
  JDict [("components", JList scenario_B_components);
         ("dependencies", JList [scenario_B_dependency])].

Definition scenario_A_graph : SBOM :=
  mkSBOM (list_to_map [(KStr "a", JStr "component"); (KStr "b", JStr "component")])
         (list_to_map [(KStr "a", {[KStr "b"]})])
         {[KStr "a"]}.

Definition described_doc : json :=
  JDict [("packages", JList [JDict [("SPDXID", JStr "P")]; JDict [("SPDXID", JStr "Q")]]);
         ("documentDescribes", JStr "Q")].

Definition described_graph : SBOM :=
  mkSBOM (list_to_map [(KStr "P", JStr "package"); (KStr "Q", JStr "package")])
         ∅ {[KStr "Q"]}.

(** Two components with the same id, which a dependency entry mentions
    too. *)
Definition relabelled_doc : json :=
  JDict [("components",
          JList [JDict [("bom-ref", JStr "a"); ("name", JStr "first")];
                 JDict [("bom-ref", JStr "a"); ("name", JStr "second")]]);
         ("metadata", JDict [("component", JDict [("bom-ref", JStr "a"); ("name", JStr "app")])]);
         ("dependencies", JList [JDict [("ref", JStr "a"); ("dependsOn", JList [JStr "b"])]])].

Definition relabelled_graph : SBOM :=
  mkSBOM (list_to_map [(KStr "a", JStr "second"); (KStr "b", JStr "b")])
         (list_to_map [(KStr "a", {[KStr "b"]})])
         {[KStr "a"]}.

(** Scenario A with its dependency entry repeated. *)
Definition scenario_A_repeated : json :=
  JDict [("components", JList scenario_B_components);
         ("dependencies", JList [scenario_B_dependency; scenario_B_dependency])].

(** A component list with a string where an object is expected. *)
Definition stray_component_doc : json :=
  JDict [("components", JList [JDict [("bom-ref", JStr "a")]; JStr "b"])].

(** [k] is one of [roots] or can be reached from one along edges. *)
Definition reachable_from (s : SBOM) (roots : list key) (k : key) : Prop :=
  ∃ r, r ∈ roots ∧ rtc (has_edge s) r k.

(** A computation that reads the world and leaves all of it as it was. *)
Definition reads_only {A : Type} (m : M A) : Prop := ∀ w, (m w).2 = w.

(** The DOT text of the part of q -> r -> x that r reaches. *)
Definition shared_root_dot : string :=
  join newline
    ["digraph SBOM {"; "  rankdir=LR;"; "  node [shape=box, fontsize=10];";
     "  " ++ dquote ++ "r" ++ dquote ++ " [label=" ++ dquote ++ "r" ++ dquote ++ "];";
     "  " ++ dquote ++ "x" ++ dquote ++ " [label=" ++ dquote ++ "x" ++ dquote ++ "];";
     "  " ++ dquote ++ "r" ++ dquote ++ " -> " ++ dquote ++ "x" ++ dquote ++ ";";
     "}"].

(** A graph all of whose ids and labels are strings. *)
Definition str_key (k : key) : Prop := ∃ i, k = KStr i.

Definition str_graph (s : SBOM) : Prop :=
  (∀ k v, nodes s !! k = Some v → str_key k ∧ is_str v = true) ∧
  (∀ a kids, edges s !! a = Some kids → str_key a ∧ ∀ b, b ∈ kids → str_key b) ∧
  (∀ k, k ∈ roots s → str_key k).

(** A computation that raises no exception. *)
Definition never_raises {A : Type} (m : M A) (w : world) : Prop :=
  ∀ e, (m w).1 ≠ Raise e.

(** Documents whose naming fields are strings too: a component's [group]
    and [type], a package's [name]. The version fields may hold any
    value. *)
Definition labelled_component (c : json) : Prop :=
  wf_component c ∧
  ∃ g t, get c "group" = Ok g ∧ get c "type" = Ok t ∧ null_or_str g ∧ null_or_str t.

Definition typed_cyclonedx (obj : json) : Prop :=
  ∃ cs m ds,
    get_default obj "components" (JList []) = Ok cs ∧
    (cs = JNull ∨ ∃ cl, cs = JList cl ∧ Forall labelled_component cl) ∧
    get_default obj "metadata" (JDict []) = Ok m ∧
    (m = JNull ∨ ∃ mc, is_dict m = true ∧ get m "component" = Ok mc ∧
                       (mc = JNull ∨ labelled_component mc)) ∧
    get_default obj "dependencies" (JList []) = Ok ds ∧
    (ds = JNull ∨ ∃ dl, ds = JList dl ∧ Forall wf_dependency dl).

Definition labelled_package (pkg : json) : Prop :=
  wf_package pkg ∧ ∃ n, get pkg "name" = Ok n ∧ null_or_str n.

Definition typed_spdx (obj : json) : Prop :=
  ∃ ps rs d,
    get_default obj "packages" (JList []) = Ok ps ∧
    (ps = JNull ∨ ∃ pl, ps = JList pl ∧ Forall labelled_package pl) ∧
    get_default obj "relationships" (JList []) = Ok rs ∧
    (rs = JNull ∨ ∃ rl, rs = JList rl ∧ Forall wf_relationship rl) ∧
    get obj "documentDescribes" = Ok d ∧
    (null_or_str d ∨ ∃ dl, d = JList dl ∧ Forall null_or_str dl).

(** ** CLI *)

(** [--format] *)
Inductive format : Type := fmt_ascii | fmt_html | fmt_dot.

(** What [parse_args] returns. [--root] is repeatable: [args.root] is
    [None] or the list of the ids given. *)
Record args : Type := mkArgs {
  a_format : format;
  a_output : option string;
  a_root : option (list string);
  a_show_ids : bool;
  a_max_depth : option Z;
  a_include_dupes : bool;
}.

(** What [main] takes from its surroundings: the HTML template, the text
    [json.dumps(data, ensure_ascii=False)] of a tree, and whether
    [open(path, "w")] succeeds. *)
Class Host : Type := {
  html_template : string;
  json_dumps : d3 → string;
  can_write : string → bool;
}.

(** The lines [main] writes to standard error: "Failed to read SBOM JSON:
    ...", "Failed to parse SBOM: ..." (the text after the colon is that of
    the exception), "No roots found to render." and "Please provide --output
    path ending with .html". *)
Inductive diagnostic : Type :=
| Failed_to_read
| Failed_to_parse (e : pyexn)
| No_roots
| No_output_path.

(** How [main] ends: [Exit code] for [sys.exit(code)], and [Exit 0] for a
    return; [Uncaught e] for an exception that leaves [main], after which
    the interpreter prints a traceback and the process reports status 1;
    [Write_failed] for a failure of [open(args.output, "w")], which leaves
    [main] in the same way. [Unfinished] stands for a traversal that needs
    more nested calls, or more steps, than the fuel it is given. *)
Inductive status : Type :=
| Exit (code : Z)
| Uncaught (e : pyexn)
| Write_failed
| Unfinished.

Record outcome : Type := mkOutcome {
  o_status : status;
  o_stdout : list string;               (* the arguments of [print], in order *)
  o_stderr : list diagnostic;
  o_files : list (string * string);     (* path and text written *)
}.

(** [s.replace(old, new)] for a non-empty [old]: the occurrences are found
    from the left and do not overlap. *)
Fixpoint replace_from (old new : string) (skip : nat) (s : string) : string :=
  match s with
  | EmptyString => EmptyString
  | String c s' =>
      match skip with
      | S k => replace_from old new k s'
      | 0 =>
          if String.prefix old s
          then new ++ replace_from old new (String.length old - 1) s'
          else String c (replace_from old new 0 s')
      end
  end.

Definition py_replace (old new s : string) : string := replace_from old new 0 s.

Definition heads_up : string :=
  newline ++ "(Heads up: no dependency edges were found under the root. "
          ++ "For CycloneDX, ensure top-level 'dependencies' or per-component 'dependencies' are present.)".

(** [args.root] as ids of the graph *)
Definition requested (a : args) : option (list key) :=
  match a_root a with
  | Some ids => Some (KStr <$> ids)
  | None => None
  end.

(** [args.output] when it is true: a path that is not the empty string. *)
Definition output_path (a : args) : option string :=
  match a_output a with
  | Some p => if String.eqb p "" then None else Some p
  | None => None
  end.

(** An exception or the end of the fuel leaves [main] with what was
    printed so far. *)
Definition stopped {A : Type} (r : res A) (w : world) : outcome :=
  match r with
  | Raise e => mkOutcome (Uncaught e) (w_out w) [] []
  | _ => mkOutcome Unfinished (w_out w) [] []
  end.

(** [with open(args.output, "w") as f: f.write(text)], then [print(note)] *)
Definition write_out `{Host} (path text note : string) (w : world) : outcome :=
  if can_write path
  then mkOutcome (Exit 0) (w_out w ++ [note]) [] [(path, text)]
  else mkOutcome Write_failed (w_out w) [] [].

Section CLI.
Context `{Runtime} `{Host}.

(** [main], from the point where the file has been read: [loaded] is the
    value [json.load] gave, or [None] when reading or decoding failed. *)
Definition main (a : args) (loaded : option json) : outcome :=
  match loaded with
  | None => mkOutcome (Exit 2) [] [Failed_to_read] []
  | Some obj =>
      match from_json obj with
      | Raise e => mkOutcome (Exit 3) [] [Failed_to_parse e] []
      | OutOfFuel => mkOutcome Unfinished [] [] []
      | Ok s =>
          match build_forest (requested a) (mkWorld s ∅ []) with
          | (Ok roots, w) =>
              if bool_decide (roots = []) then mkOutcome (Exit 4) (w_out w) [No_roots] []
              else
                match a_format a with
                | fmt_ascii =>
                    match ascii_trees roots (a_show_ids a) (a_max_depth a)
                            (a_include_dupes a) w with
                    | (Ok _, w') =>
                        if forallb (λ r, bool_decide (default ∅ (edges s !! r) = ∅)) roots
                        then mkOutcome (Exit 0) (w_out w' ++ [heads_up]) [] []
                        else mkOutcome (Exit 0) (w_out w') [] []
                    | (r, w') => stopped r w'
                    end
                | fmt_dot =>
                    match to_dot roots w with
                    | (Ok text, w') =>
                        match output_path a with
                        | Some path => write_out path text ("Wrote DOT to " ++ path) w'
                        | None => mkOutcome (Exit 0) (w_out w' ++ [text]) [] []
                        end
                    | (r, w') => stopped r w'
                    end
                | fmt_html =>
                    match output_path a with
                    | Some path =>
                        match to_d3_tree roots w with
                        | (Ok data, w') =>
                            write_out path
                              (py_replace "__DATA__" (json_dumps data) html_template)
                              ("Wrote interactive HTML to " ++ path) w'
                        | (r, w') => stopped r w'
                        end
                    | None => mkOutcome (Exit 5) (w_out w) [No_output_path] []
                    end
                end
          | (r, w) => stopped r w
          end
      end
  end.

End CLI.

(** A host for the examples. *)
Definition example_host : Host :=
  {| html_template := "<script>const data = __DATA__;</script>";
     json_dumps := λ _, "{}";
     can_write := λ _, true |}.

Definition dot_args : args := mkArgs fmt_dot None None false None false.

(** ** The tree both renderers walk *)





(* PROPERTIES *)
(** * Properties *)

(** ** The result monad *)

Lemma bind_Ok {A B : Type} (m : res A) (f : A → res B) (b : B) :
  m ≫= f = Ok b ↔ ∃ a, m = Ok a ∧ f a = Ok b.
Proof.
  destruct m as [a|e|]; simpl.
  - split; [intros Hf; by exists a | by intros (a' & [= <-] & Hf)].
  - split; [done | by intros (a' & [=] & _)].
  - split; [done | by intros (a' & [=] & _)].
Qed.

Lemma foldM_app {A S : Type} (body : S → A → res S) (s : S) (l1 l2 : list A) :
  foldM body s (l1 ++ l2) = foldM body s l1 ≫= λ s', foldM body s' l2.
Proof.
  revert s. induction l1 as [|x l1 IH]; intros s; simpl; [done|].
  destruct (body s x); simpl; auto.
Qed.

(** A loop preserves what each turn preserves. *)
Lemma foldM_inv {A S : Type} (P : S → Prop) (body : S → A → res S) (l : list A) :
  (∀ s x s', x ∈ l → P s → body s x = Ok s' → P s') →
  ∀ s s', P s → foldM body s l = Ok s' → P s'.
Proof.
  induction l as [|x l IH]; intros Hstep s s' Hs Hrun; simpl in Hrun.
  - by inversion Hrun; subst.
  - apply bind_Ok in Hrun as (s1 & H1 & H2).
    eapply IH; [| |exact H2].
    + intros t y t' Hy. apply Hstep. by right.
    + eapply Hstep; [by left|exact Hs|exact H1].
Qed.

Lemma plain_Ok {A : Type} (a : A) : plain (Ok a).
Proof. by split. Qed.

Lemma plain_bind {A B : Type} (m : res A) (f : A → res B) :
  plain m → (∀ a, m = Ok a → plain (f a)) → plain (m ≫= f).
Proof.
  intros [Hm1 Hm2] Hf. destruct m as [a|e|]; simpl; [by apply Hf| split; congruence | done].
Qed.

Lemma plain_foldM {A S : Type} (body : S → A → res S) (l : list A) (s : S) :
  (∀ s x, plain (body s x)) → plain (foldM body s l).
Proof.
  intros Hb. revert s. induction l as [|x l IH]; intros s; simpl.
  - apply plain_Ok.
  - apply plain_bind; auto.
Qed.

Lemma plain_get_default v k d : plain (get_default v k d).
Proof. by destruct v. Qed.

Lemma plain_get v k : plain (get v k).
Proof. apply plain_get_default. Qed.

Lemma plain_key_of v : plain (key_of v).
Proof. by destruct v. Qed.

Lemma plain_py_iter v : plain (py_iter v).
Proof. by destruct v. Qed.

Lemma plain_py_sorted l : plain (py_sorted l).
Proof.
  unfold py_sorted. destruct l as [|x [|y l]]; try apply plain_Ok.
  repeat case_match; by split.
Qed.

Create HintDb plain discriminated.
#[export] Hint Resolve plain_Ok plain_get_default plain_get plain_key_of plain_py_iter
  plain_py_sorted : plain.

Ltac plain_step :=
  match goal with
  | |- plain (_ ≫= _) => apply plain_bind; [|intros ? ?]
  | |- plain (foldM _ _ _) => apply plain_foldM; intros ? ?
  | |- plain (if ?b then _ else _) => destruct b
  | |- plain (match ?x with _ => _ end) => destruct x
  | |- plain (let _ := _ in _) => cbv zeta
  | |- plain _ => solve [eauto with plain | by split]
  end.

Ltac solve_plain := repeat plain_step.

(** ** Format detection *)

Section Dispatch.
Context `{Runtime}.

Lemma plain_cx_id c : plain (cx_id c).
Proof. unfold cx_id. solve_plain. Qed.

Lemma plain_cx_label c : plain (_cx_label c).
Proof. unfold _cx_label. solve_plain. Qed.

Lemma plain_nodes_setitem i l s : plain (nodes_setitem i l s).
Proof. unfold nodes_setitem. solve_plain. Qed.

Lemma plain_nodes_setdefault i l s : plain (nodes_setdefault i l s).
Proof. unfold nodes_setdefault. solve_plain. Qed.

Lemma plain_edges_add a b s : plain (edges_add a b s).
Proof. unfold edges_add. solve_plain. Qed.

Lemma plain_roots_add i s : plain (roots_add i s).
Proof. unfold roots_add. solve_plain. Qed.

Hint Resolve plain_cx_id plain_cx_label plain_nodes_setitem plain_nodes_setdefault
  plain_edges_add plain_roots_add : plain.

Lemma plain_from_cyclonedx obj : plain (_from_cyclonedx obj).
Proof.
  unfold _from_cyclonedx, cx_build, cx_primary, cx_declare, cx_metadata, cx_fallback,
    cx_roots, cx_attach.
  solve_plain; unfold cx_component_step, cx_dep_step, cx_inline_step, cx_child_step,
    cx_inline_child_step; solve_plain.
Qed.

Lemma plain_spdx_pkg_label p : plain (_spdx_pkg_label p).
Proof. unfold _spdx_pkg_label. solve_plain. Qed.

Lemma plain_spdx_rel_type r : plain (spdx_rel_type r).
Proof. unfold spdx_rel_type. solve_plain. Qed.

Hint Resolve plain_spdx_pkg_label plain_spdx_rel_type : plain.

Lemma plain_from_spdx obj : plain (_from_spdx obj).
Proof.
  unfold _from_spdx, spdx_build, spdx_declare, spdx_roots.
  solve_plain; unfold spdx_package_step, spdx_rel_step, spdx_describes_step,
    spdx_rel_source, spdx_rel_target; solve_plain.
Qed.

Lemma cyclonedx_markers_test obj :
  cyclonedx_markers obj ↔
  is_dict obj &&
    (match get obj "bomFormat" with Ok v => py_eq v (JStr "CycloneDX") | _ => false end
     || has_key obj "components" || has_key obj "dependencies") = true.
Proof.
  unfold cyclonedx_markers, has_key, get, get_default. split.
  - intros (kvs & -> & Hm). simpl.
    destruct Hm as [Hb|[Hc|Hd]].
    + rewrite Hb. simpl. done.
    + rewrite (bool_decide_eq_true_2 _ Hc). by rewrite orb_true_r.
    + rewrite (bool_decide_eq_true_2 _ Hd). by rewrite orb_true_r.
  - destruct obj as [| | | | |kvs]; simpl; try done.
    intros Ht. exists kvs. split; [done|].
    apply orb_true_iff in Ht as [Ht|Ht]; [apply orb_true_iff in Ht as [Ht|Ht]|].
    + left. destruct (dict_get kvs "bomFormat") as [v|]; simpl in Ht; [|done].
      destruct v; simpl in Ht; try done.
      apply String.eqb_eq in Ht. by subst.
    + right; left. by apply bool_decide_eq_true in Ht.
    + right; right. by apply bool_decide_eq_true in Ht.
Qed.

Lemma spdx_markers_test obj :
  spdx_markers obj ↔
  is_dict obj && (has_key obj "packages" || has_key obj "relationships") = true.
Proof.
  unfold spdx_markers, has_key. split.
  - intros (kvs & -> & [Hp|Hr]); simpl.
    + by rewrite (bool_decide_eq_true_2 _ Hp).
    + rewrite (bool_decide_eq_true_2 _ Hr). by rewrite orb_true_r.
  - destruct obj as [| | | | |kvs]; simpl; try done.
    intros Ht. exists kvs. split; [done|].
    apply orb_true_iff in Ht as [Ht|Ht]; [left|right]; by apply bool_decide_eq_true in Ht.
Qed.

(** C7. [SBOM.from_json] applies the detection rule in order: a mapping with
    the CycloneDX markers goes to the CycloneDX normaliser; otherwise a
    mapping with the SPDX markers goes to the SPDX normaliser; it raises the
    format error ([ValueError]) exactly when neither rule matches, and a
    call that raises produces no graph. *)
Theorem from_json_dispatch (obj : json) :
  (cyclonedx_markers obj → from_json obj = _from_cyclonedx obj) ∧
  (¬ cyclonedx_markers obj → spdx_markers obj → from_json obj = _from_spdx obj) ∧
  (from_json obj = Raise ValueError ↔ ¬ cyclonedx_markers obj ∧ ¬ spdx_markers obj) ∧
  (∀ e, from_json obj = Raise e → ∀ g, from_json obj ≠ Ok g).
Proof.
  rewrite cyclonedx_markers_test, spdx_markers_test. unfold from_json.
  destruct (is_dict obj && (_ || has_key obj "dependencies")) eqn:Hc;
    [|destruct (is_dict obj && (has_key obj "packages" || _)) eqn:Hs].
  - split_and!; try done.
    + split; [|by intros [? _]].
      intros Hv. by destruct (plain_from_cyclonedx obj).
    + intros e He g. by rewrite He.
  - split_and!; try done.
    + split; [|by intros [_ ?]].
      intros Hv. by destruct (plain_from_spdx obj).
    + intros e He g. by rewrite He.
  - split_and!; try done.
Qed.

End Dispatch.

(** ** The graph primitives *)

Lemma nodes_setitem_Ok i lbl s s' :
  nodes_setitem i lbl s = Ok s' ↔ ∃ k, key_of i = Ok k ∧ s' = with_nodes (insert k lbl) s.
Proof.
  unfold nodes_setitem. rewrite bind_Ok. split.
  - intros (k & Hk & [= <-]). eauto.
  - intros (k & Hk & ->). eauto.
Qed.

Lemma nodes_setdefault_Ok i lbl s s' :
  nodes_setdefault i lbl s = Ok s' ↔
  ∃ k, key_of i = Ok k ∧
    s' = if nodes s !! k is Some _ then s else with_nodes (insert k lbl) s.
Proof.
  unfold nodes_setdefault. rewrite bind_Ok. split.
  - intros (k & Hk & [= <-]). eauto.
  - intros (k & Hk & ->). eauto.
Qed.

Lemma edges_add_Ok src child s s' :
  edges_add src child s = Ok s' ↔
  ∃ ks kc, key_of src = Ok ks ∧ key_of child = Ok kc ∧
    s' = with_edges (λ e, <[ks := default ∅ (e !! ks) ∪ {[kc]}]> e) s.
Proof.
  unfold edges_add. rewrite bind_Ok. split.
  - intros (ks & Hs & Hr). apply bind_Ok in Hr as (kc & Hc & [= <-]). eauto.
  - intros (ks & kc & Hs & Hc & ->). exists ks. split; [done|]. by rewrite Hc.
Qed.

Lemma roots_add_Ok i s s' :
  roots_add i s = Ok s' ↔ ∃ k, key_of i = Ok k ∧ s' = with_roots (λ r, r ∪ {[k]}) s.
Proof.
  unfold roots_add. rewrite bind_Ok. split.
  - intros (k & Hk & [= <-]). eauto.
  - intros (k & Hk & ->). eauto.
Qed.

(** [s.edges[a].add(b)] adds the edge [a -> b] and no other. *)
Lemma has_edge_insert_union (s : SBOM) (ks kc a b : key) :
  has_edge (with_edges (λ e, <[ks := default ∅ (e !! ks) ∪ {[kc]}]> e) s) a b ↔
  has_edge s a b ∨ (a = ks ∧ b = kc).
Proof.
  unfold has_edge, with_edges; simpl. destruct (decide (a = ks)) as [->|Hne].
  - rewrite lookup_insert_eq. split.
    + intros (kids & [= <-] & Hb). apply elem_of_union in Hb as [Hb|Hb].
      * left. destruct (edges s !! ks) as [kids|] eqn:Hk; simpl in Hb; [eauto|set_solver].
      * right. set_solver.
    + intros [(kids & Hk & Hb)|[_ ->]]; eexists; (split; [done|]).
      * rewrite Hk. simpl. set_solver.
      * set_solver.
  - rewrite lookup_insert_ne by done.
    split; [by left | by intros [?|[? _]]].
Qed.

Lemma all_children_spec (s : SBOM) (b : key) :
  b ∈ all_children s ↔ ∃ a, has_edge s a b.
Proof.
  unfold all_children, has_edge. rewrite elem_of_union_list. split.
  - intros (kids & Hk & Hb). apply list_elem_of_fmap in Hk as ([a kids'] & -> & Hin).
    apply elem_of_map_to_list in Hin. eauto.
  - intros (a & kids & Hk & Hb). exists kids. split; [|done].
    apply list_elem_of_fmap. exists (a, kids). split; [done|].
    by apply elem_of_map_to_list.
Qed.

(** ** SPDX relationships *)

Lemma forward_reverse_disjoint (rt : string) :
  rt ∈ forward_types → rt ∉ reverse_types.
Proof.
  unfold forward_types, reverse_types. intros Hf Hr.
  repeat (apply elem_of_cons in Hf as [->|Hf];
          [revert Hr; apply (bool_decide_unpack _); by vm_compute|]).
  by apply elem_of_nil in Hf.
Qed.





(** ** Invariants of the normalisers *)

Lemma nodes_setdefault_facts i lbl s s' :
  nodes_setdefault i lbl s = Ok s' →
  ∃ k, key_of i = Ok k ∧ edges s' = edges s ∧ roots s' = roots s ∧
    k ∈ dom (nodes s') ∧ dom (nodes s') = dom (nodes s) ∪ {[k]} ∧
    (∀ j, nodes s' !! j = nodes s !! j
          ∨ (nodes s !! j = None ∧ j = k ∧ nodes s' !! j = Some lbl)).
Proof.
  intros (k & Hk & ->)%nodes_setdefault_Ok. exists k. split; [done|].
  destruct (nodes s !! k) as [v|] eqn:Hv.
  - split_and!; try done.
    + apply elem_of_dom. eauto.
    + assert (k ∈ dom (nodes s)) by (apply elem_of_dom; eauto). set_solver.
    + by left.
  - simpl. split_and!; try done.
    + rewrite dom_insert_L. set_solver.
    + rewrite dom_insert_L. set_solver.
    + intros j. destruct (decide (j = k)) as [->|Hne].
      * right. by rewrite lookup_insert_eq.
      * left. by rewrite lookup_insert_ne.
Qed.

Lemma nodes_setitem_facts i lbl s s' :
  nodes_setitem i lbl s = Ok s' →
  ∃ k, key_of i = Ok k ∧ edges s' = edges s ∧ roots s' = roots s ∧
    nodes s' = <[k := lbl]> (nodes s).
Proof. intros (k & Hk & ->)%nodes_setitem_Ok. by exists k. Qed.

Lemma edges_add_facts src child s s' :
  edges_add src child s = Ok s' →
  ∃ ks kc, key_of src = Ok ks ∧ key_of child = Ok kc ∧
    nodes s' = nodes s ∧ roots s' = roots s ∧
    edges s' = <[ks := default ∅ (edges s !! ks) ∪ {[kc]}]> (edges s).
Proof. intros (ks & kc & Hs & Hc & ->)%edges_add_Ok. by exists ks, kc. Qed.

Lemma edges_closed_add (s s' : SBOM) (ks kc : key) :
  edges_closed s → ks ∈ dom (nodes s) → kc ∈ dom (nodes s) →
  nodes s' = nodes s →
  edges s' = <[ks := default ∅ (edges s !! ks) ∪ {[kc]}]> (edges s) →
  edges_closed s'.
Proof.
  intros Hc Hs Hk Hn He a kids. rewrite Hn, He.
  destruct (decide (a = ks)) as [->|Hne].
  - rewrite lookup_insert_eq. intros [= <-]. split; [done|].
    destruct (edges s !! ks) as [old|] eqn:Hold; simpl; [|set_solver].
    destruct (Hc _ _ Hold). set_solver.
  - rewrite lookup_insert_ne by done. apply Hc.
Qed.

Lemma edges_closed_grow (s s' : SBOM) :
  edges_closed s → edges s' = edges s → dom (nodes s) ⊆ dom (nodes s') → edges_closed s'.
Proof.
  intros Hc He Hd a kids. rewrite He. intros Ha. destruct (Hc _ _ Ha). set_solver.
Qed.

Lemma placeholders_refl s : placeholders s s.
Proof. intros k. by left. Qed.

Lemma placeholders_setdefault (s0 s s' : SBOM) (v : json) :
  placeholders s0 s → nodes_setdefault v v s = Ok s' → placeholders s0 s'.
Proof.
  intros Hp (k & Hk & _ & _ & _ & _ & Hj)%nodes_setdefault_facts j.
  destruct (Hj j) as [Hsame|(Hnone & -> & Hnew)].
  - rewrite Hsame. apply Hp.
  - destruct (Hp k) as [Heq|(H0 & w & Hw & _)].
    + right. split; [by rewrite <- Heq|]. eauto.
    + by rewrite Hw in Hnone.
Qed.

Lemma placeholders_same_nodes (s0 s s' : SBOM) :
  placeholders s0 s → nodes s' = nodes s → placeholders s0 s'.
Proof. intros Hp Hn k. rewrite Hn. apply Hp. Qed.

Lemma py_sorted_perm (l l' : list key) : py_sorted l = Ok l' → l' ≡ₚ l.
Proof.
  unfold py_sorted. destruct l as [|x [|y l]]; try (by intros [= <-]).
  remember (x :: y :: l) as xs eqn:Hxs. clear Hxs.
  destruct (mapM key_num xs) as [zs|] eqn:Hz.
  - intros [= <-]. rewrite merge_sort_Permutation.
    apply mapM_Some in Hz. clear -Hz. induction Hz as [|k z ks zs Hk _ IH]; [done|].
    simpl. destruct k; simplify_eq/=. by f_equiv.
  - destruct (mapM key_str xs) as [ss|] eqn:Hs; [|done].
    intros [= <-]. rewrite merge_sort_Permutation.
    apply mapM_Some in Hs. clear -Hs. induction Hs as [|k z ks zs Hk _ IH]; [done|].
    simpl. destruct k; simplify_eq/=. by f_equiv.
Qed.

Lemma str_le_total : Total str_le.
Proof. intros a b. apply String.leb_total. Qed.

Lemma py_sorted_sorted (l l' : list key) : py_sorted l = Ok l' → Sorted id_le l'.
Proof.
  unfold py_sorted. destruct l as [|x [|y l]].
  - intros [= <-]. constructor.
  - intros [= <-]. by repeat constructor.
  - remember (x :: y :: l) as xs eqn:Hxs. clear Hxs.
    destruct (mapM key_num xs) as [zs|].
    + intros [= <-]. apply (Sorted_fmap _ Z.le id_le); [done|]. apply (Sorted_merge_sort Z.le).
    + destruct (mapM key_str xs) as [ss|]; [|done].
      intros [= <-]. apply (Sorted_fmap _ str_le id_le); [done|]. apply (@Sorted_merge_sort _ str_le _ str_le_total).
Qed.

Ltac same_keys :=
  repeat match goal with
  | H1 : key_of ?v = Ok ?a, H2 : key_of ?v = Ok ?b |- _ =>
      assert (b = a) by congruence; subst b; clear H2
  end.

Lemma grows_refl s : grows s s.
Proof. by split. Qed.

Lemma grows_trans s1 s2 s3 : grows s1 s2 → grows s2 s3 → grows s1 s3.
Proof. intros [Hn1 He1] [Hn2 He2]. split; eauto. Qed.

Lemma grows_dom s s' : grows s s' → dom (nodes s) ⊆ dom (nodes s').
Proof.
  intros [Hn _] k [v Hv]%elem_of_dom. apply elem_of_dom. eauto.
Qed.

Lemma grows_setdefault i lbl s s' : nodes_setdefault i lbl s = Ok s' → grows s s'.
Proof.
  intros (k & Hk & He & _ & _ & _ & Hj)%nodes_setdefault_facts. split.
  - intros j v Hv. destruct (Hj j) as [->|(Hnone & _)]; [done|congruence].
  - intros a b. unfold has_edge. by rewrite He.
Qed.

Lemma grows_edges_add src child s s' : edges_add src child s = Ok s' → grows s s'.
Proof.
  intros (ks & kc & Hs & Hc & ->)%edges_add_Ok. split; [done|].
  intros a b Hab. apply has_edge_insert_union. by left.
Qed.

Lemma truthy_key_not_None (v : json) (k : key) :
  truthy v = true → key_of v = Ok k → k ≠ KNone.
Proof. destruct v; simpl; intros; simplify_eq; done. Qed.

Section CycloneDXInvariants.
Context `{Runtime}.

Lemma cx_child_step_inv (s0 s s' : SBOM) (ref child : json) (kref : key) :
  key_of ref = Ok kref →
  inv s0 s ∧ kref ∈ dom (nodes s) →
  cx_child_step ref s child = Ok s' →
  inv s0 s' ∧ kref ∈ dom (nodes s').
Proof.
  intros Hk [[[Hec Hrc] Hp] Hin]. unfold cx_child_step.
  destruct (truthy child); [|by intros [= <-]].
  intros (s1 & H1 & H2)%bind_Ok.
  pose proof (placeholders_setdefault _ _ _ _ Hp H1) as Hp1.
  apply nodes_setdefault_facts in H1 as (kc & Hkc & He1 & Hr1 & Hin1 & Hd1 & _).
  apply edges_add_facts in H2 as (ks & kc' & Hks & Hkc' & Hn2 & Hr2 & He2).
  same_keys.
  assert (kref ∈ dom (nodes s1)) by set_solver.
  split; [split; [split|]|].
  - eapply edges_closed_add; [|exact H0|exact Hin1|exact Hn2|exact He2].
    eapply edges_closed_grow; [exact Hec|done|set_solver].
  - unfold roots_closed in *. rewrite Hr2, Hr1, Hn2. set_solver.
  - by eapply placeholders_same_nodes.
  - by rewrite Hn2.
Qed.

Lemma cx_dep_step_inv (s0 s s' : SBOM) (dep : json) :
  inv s0 s → cx_dep_step s dep = Ok s' → inv s0 s'.
Proof.
  intros Hi. unfold cx_dep_step.
  intros (ref & Href & Hrun)%bind_Ok.
  destruct (truthy ref); [|by injection Hrun as <-].
  apply bind_Ok in Hrun as (s1 & H1 & Hrun).
  apply bind_Ok in Hrun as (d & Hd & Hrun).
  apply bind_Ok in Hrun as (kids & Hkids & Hrun).
  destruct Hi as [[Hec Hrc] Hp].
  pose proof (placeholders_setdefault _ _ _ _ Hp H1) as Hp1.
  apply nodes_setdefault_facts in H1 as (kr & Hkr & He1 & Hr1 & Hin1 & Hd1 & _).
  assert (Hi1 : inv s0 s1 ∧ kr ∈ dom (nodes s1)).
  { split; [split; [split|]|]; try done.
    - eapply edges_closed_grow; [exact Hec|done|set_solver].
    - unfold roots_closed in *. rewrite Hr1. set_solver. }
  apply (foldM_inv (λ t, inv s0 t ∧ kr ∈ dom (nodes t)) _ kids) in Hrun; [by destruct Hrun| |done].
  intros t x t' _ Ht Hstep. by eapply cx_child_step_inv.
Qed.

Lemma cx_inline_child_step_inv (s0 s s' : SBOM) (src child : json) :
  inv s0 s → cx_inline_child_step src s child = Ok s' → inv s0 s'.
Proof.
  intros [[Hec Hrc] Hp]. unfold cx_inline_child_step.
  intros (s1 & H1 & Hrun)%bind_Ok.
  apply bind_Ok in Hrun as (s2 & H2 & H3).
  pose proof (placeholders_setdefault _ _ _ _ Hp H1) as Hp1.
  pose proof (placeholders_setdefault _ _ _ _ Hp1 H2) as Hp2.
  apply nodes_setdefault_facts in H1 as (ks & Hks & He1 & Hr1 & Hin1 & Hd1 & _).
  apply nodes_setdefault_facts in H2 as (kc & Hkc & He2 & Hr2 & Hin2 & Hd2 & _).
  apply edges_add_facts in H3 as (ks' & kc' & Hks' & Hkc' & Hn3 & Hr3 & He3).
  same_keys.
  split; [split|].
  - eapply edges_closed_add; [|shelve|exact Hin2|exact Hn3|exact He3].
    eapply edges_closed_grow; [exact Hec|congruence|set_solver].
    Unshelve. set_solver.
  - unfold roots_closed in *. rewrite Hr3, Hr2, Hr1, Hn3. set_solver.
  - by eapply placeholders_same_nodes.
Qed.

Lemma cx_inline_step_inv (s0 s s' : SBOM) (c : json) :
  inv s0 s → cx_inline_step s c = Ok s' → inv s0 s'.
Proof.
  intros Hi. unfold cx_inline_step.
  intros (src & Hsrc & Hrun)%bind_Ok.
  apply bind_Ok in Hrun as (d & Hd & Hrun).
  destruct (py_or d (JList [])) as [| | | |kids|]; try (by injection Hrun as <-).
  eapply (foldM_inv (inv s0)); [|exact Hi|exact Hrun].
  intros t x t' _ Ht Hstep. by eapply cx_inline_child_step_inv.
Qed.

Lemma cx_fallback_inv (s0 s s' : SBOM) (comps : json) :
  inv s0 s → cx_fallback comps s = Ok s' → inv s0 s'.
Proof.
  intros Hi. unfold cx_fallback.
  destruct (_ && _); [|by intros [= <-]].
  intros (cs & Hcs & Hrun)%bind_Ok.
  eapply (foldM_inv (inv s0)); [|exact Hi|exact Hrun].
  intros t x t' _ Ht Hstep. by eapply cx_inline_step_inv.
Qed.

Lemma cx_child_step_grows ref s child s' :
  cx_child_step ref s child = Ok s' → grows s s'.
Proof.
  unfold cx_child_step. destruct (truthy child); [|intros [= <-]; apply grows_refl].
  intros (s1 & H1 & H2)%bind_Ok.
  eapply grows_trans; [by eapply grows_setdefault|by eapply grows_edges_add].
Qed.

Lemma foldM_grows {A : Type} (body : SBOM → A → res SBOM) (l : list A) (s s' : SBOM) :
  (∀ t x t', body t x = Ok t' → grows t t') →
  foldM body s l = Ok s' → grows s s'.
Proof.
  intros Hb. apply (foldM_inv (grows s)); [|apply grows_refl].
  intros t x t' _ Ht Hstep. eapply grows_trans; eauto.
Qed.

Lemma cx_dep_step_grows s dep s' : cx_dep_step s dep = Ok s' → grows s s'.
Proof.
  unfold cx_dep_step. intros (ref & Href & Hrun)%bind_Ok.
  destruct (truthy ref); [|injection Hrun as <-; apply grows_refl].
  apply bind_Ok in Hrun as (s1 & H1 & Hrun).
  apply bind_Ok in Hrun as (d & Hd & Hrun).
  apply bind_Ok in Hrun as (kids & Hkids & Hrun).
  eapply grows_trans; [by eapply grows_setdefault|].
  eapply foldM_grows; [|exact Hrun]. intros ???. apply cx_child_step_grows.
Qed.

Lemma cx_inline_child_step_grows src s child s' :
  cx_inline_child_step src s child = Ok s' → grows s s'.
Proof.
  unfold cx_inline_child_step. intros (s1 & H1 & Hrun)%bind_Ok.
  apply bind_Ok in Hrun as (s2 & H2 & H3).
  eapply grows_trans; [by eapply grows_setdefault|].
  eapply grows_trans; [by eapply grows_setdefault|by eapply grows_edges_add].
Qed.

Lemma cx_inline_step_grows s c s' : cx_inline_step s c = Ok s' → grows s s'.
Proof.
  unfold cx_inline_step. intros (src & Hsrc & Hrun)%bind_Ok.
  apply bind_Ok in Hrun as (d & Hd & Hrun).
  destruct (py_or d (JList [])) as [| | | |kids|];
    try (injection Hrun as <-; apply grows_refl).
  eapply foldM_grows; [|exact Hrun]. intros ???. apply cx_inline_child_step_grows.
Qed.

Lemma cx_fallback_grows comps s s' : cx_fallback comps s = Ok s' → grows s s'.
Proof.
  unfold cx_fallback. destruct (_ && _); [|intros [= <-]; apply grows_refl].
  intros (cs & Hcs & Hrun)%bind_Ok.
  eapply foldM_grows; [|exact Hrun]. intros ???. apply cx_inline_step_grows.
Qed.

Lemma cx_component_step_declared s c s' :
  declared s JNull → cx_component_step s c = Ok s' → declared s' JNull.
Proof.
  intros (He & Hn & Hr). unfold cx_component_step.
  intros (cid & Hcid & Hrun)%bind_Ok.
  destruct (truthy cid) eqn:Ht; [|by injection Hrun as <-].
  apply bind_Ok in Hrun as (lbl & Hlbl & Hrun).
  apply nodes_setitem_facts in Hrun as (k & Hk & He' & Hr' & Hn').
  split_and!; simpl in *; [congruence| |congruence].
  rewrite Hn', dom_insert_L.
  pose proof (truthy_key_not_None _ _ Ht Hk). set_solver.
Qed.

Lemma cx_metadata_declared obj s s' root_id :
  declared s JNull → cx_metadata obj s = Ok (s', root_id) → declared s' root_id.
Proof.
  intros (He & Hn & Hr). unfold cx_metadata. simpl in Hr.
  intros (m & Hm & Hrun)%bind_Ok.
  apply bind_Ok in Hrun as (mc & Hmc & Hrun).
  destruct (truthy mc); [|by injection Hrun as <- <-].
  apply bind_Ok in Hrun as (rid & Hrid & Hrun).
  destruct (truthy rid) eqn:Ht.
  - apply bind_Ok in Hrun as (lbl & Hlbl & Hrun).
    apply bind_Ok in Hrun as (s1 & H1 & Hrun).
    apply bind_Ok in Hrun as (s2 & H2 & [= <- <-]).
    apply nodes_setdefault_facts in H1 as (k & Hk & He1 & Hr1 & Hin1 & Hd1 & _).
    apply roots_add_Ok in H2 as (k' & Hk' & ->). same_keys.
    unfold declared. rewrite Ht. simpl. split_and!.
    + congruence.
    + rewrite Hd1. pose proof (truthy_key_not_None _ _ Ht Hk). set_solver.
    + exists k. split_and!; [done|done|]. rewrite Hr1, Hr. set_solver.
  - injection Hrun as <- <-. unfold declared. by rewrite Ht.
Qed.

Lemma cx_declare_declared obj s comps root_id :
  cx_declare obj = Ok (s, comps, root_id) → declared s root_id.
Proof.
  unfold cx_declare. intros (cs & Hcs & Hrun)%bind_Ok.
  apply bind_Ok in Hrun as (cl & Hcl & Hrun).
  apply bind_Ok in Hrun as (s1 & H1 & Hrun).
  apply bind_Ok in Hrun as ([s2 rid] & H2 & [= <- <- <-]).
  eapply cx_metadata_declared; [|exact H2].
  eapply (foldM_inv (λ t, declared t JNull)); [| |exact H1].
  - intros t x t' _. apply cx_component_step_declared.
  - split_and!; simpl; set_solver.
Qed.

Lemma declared_inv s root_id : declared s root_id → inv s s.
Proof.
  intros (He & Hn & Hr). split; [split|apply placeholders_refl].
  - intros a kids. by rewrite He, lookup_empty.
  - unfold roots_closed. destruct (truthy root_id).
    + destruct Hr as (k & _ & Hin & ->). set_solver.
    + rewrite Hr. set_solver.
Qed.

Lemma cx_roots_facts root_id s s' :
  cx_roots root_id s = Ok s' →
  nodes s' = nodes s ∧ edges s' = edges s ∧
  (if truthy root_id then ∃ k, key_of root_id = Ok k ∧ roots s' = {[k]}
   else roots s' = roots s ∪ (dom (nodes s) ∖ all_children s)).
Proof.
  unfold cx_roots. destruct (truthy root_id).
  - intros (k & Hk & [= <-])%bind_Ok. split_and!; [by case_bool_decide..|].
    by exists k.
  - intros [= <-]. case_bool_decide as Hc; simpl; split_and!; try done.
    rewrite Hc. set_solver.
Qed.

Lemma cx_attach_facts root_id s s' :
  cx_attach root_id s = Ok s' →
  nodes s' = nodes s ∧ roots s' = roots s ∧
  ((edges s' = edges s ∧
    ∀ k, truthy root_id = true → key_of root_id = Ok k →
         k ∈ dom (nodes s) → k ∉ dom (edges s) →
         filter (λ r, r ∉ all_children s) (elements (dom (edges s))) = [])
   ∨
   ∃ k top_level, truthy root_id = true ∧ key_of root_id = Ok k ∧
     k ∈ dom (nodes s) ∧ (k ∉ dom (edges s)) ∧
     top_level ≡ₚ filter (λ r, r ∉ all_children s) (elements (dom (edges s))) ∧
     top_level ≠ [] ∧
     edges s' = <[k := list_to_set top_level]> (edges s)).
Proof.
  unfold cx_attach. destruct (truthy root_id);
    [|intros [= <-]; split_and!; [done..|left; by split]].
  intros (k & Hk & Hrun)%bind_Ok.
  destruct (bool_decide (k ∈ dom (nodes s))) eqn:Hin; simpl in Hrun.
  2:{ injection Hrun as <-. split_and!; [done..|left; split; [done|]].
      intros k' _ Hk' Hin'. same_keys. by apply bool_decide_eq_false in Hin. }
  destruct (bool_decide (k ∉ dom (edges s))) eqn:Hout; simpl in Hrun.
  2:{ injection Hrun as <-. split_and!; [done..|left; split; [done|]].
      intros k' _ Hk' _ Hout'. same_keys. by apply bool_decide_eq_false in Hout. }
  apply bind_Ok in Hrun as (top_level & Htop & Hrun).
  apply py_sorted_perm in Htop.
  case_bool_decide as Hne; injection Hrun as <-.
  - split_and!; [done..|right].
    exists k, top_level. apply bool_decide_eq_true in Hin, Hout. by split_and!.
  - split_and!; [done..|left; split; [done|]].
    intros _ _ _ _ _. subst top_level.
    by apply Permutation_nil_l in Htop.
Qed.

End CycloneDXInvariants.

Section CycloneDXWhole.
Context `{Runtime}.

Lemma cx_primary_Ok obj s3 comps rid :
  cx_primary obj = Ok (s3, comps, rid) ↔
  ∃ s2 ds dl, cx_declare obj = Ok (s2, comps, rid) ∧
    get_default obj "dependencies" (JList []) = Ok ds ∧
    py_iter (py_or ds (JList [])) = Ok dl ∧
    foldM cx_dep_step s2 dl = Ok s3.
Proof.
  unfold cx_primary. rewrite bind_Ok. split.
  - intros ([[s2 comps'] rid'] & Hd & Hrun).
    apply bind_Ok in Hrun as (ds & Hds & Hrun).
    apply bind_Ok in Hrun as (dl & Hdl & Hrun).
    apply bind_Ok in Hrun as (s3' & Hs3 & [= <- <- <-]).
    by exists s2, ds, dl.
  - intros (s2 & ds & dl & Hd & Hds & Hdl & Hs3).
    exists (s2, comps, rid). split; [done|].
    rewrite Hds. simpl. rewrite Hdl. simpl. by rewrite Hs3.
Qed.

Lemma cx_build_Ok obj s4 rid :
  cx_build obj = Ok (s4, rid) ↔
  ∃ s3 comps, cx_primary obj = Ok (s3, comps, rid) ∧ cx_fallback comps s3 = Ok s4.
Proof.
  unfold cx_build. rewrite bind_Ok. split.
  - intros ([[s3 comps] rid'] & Hp & Hrun).
    apply bind_Ok in Hrun as (s4' & Hf & [= <- <-]). by exists s3, comps.
  - intros (s3 & comps & Hp & Hf). exists (s3, comps, rid). split; [done|].
    by rewrite Hf.
Qed.

Lemma from_cyclonedx_Ok obj s :
  _from_cyclonedx obj = Ok s ↔
  ∃ s4 rid s5, cx_build obj = Ok (s4, rid) ∧ cx_roots rid s4 = Ok s5 ∧
    cx_attach rid s5 = Ok s.
Proof.
  unfold _from_cyclonedx. rewrite bind_Ok. split.
  - intros ([s4 rid] & Hb & Hrun).
    apply bind_Ok in Hrun as (s5 & Hr & Ha). by exists s4, rid, s5.
  - intros (s4 & rid & s5 & Hb & Hr & Ha). exists (s4, rid). split; [done|].
    by rewrite Hr.
Qed.

Lemma cx_primary_inv obj s3 comps rid :
  cx_primary obj = Ok (s3, comps, rid) →
  ∃ s2, cx_declare obj = Ok (s2, comps, rid) ∧ declared s2 rid ∧
    inv s2 s3 ∧ grows s2 s3.
Proof.
  intros (s2 & ds & dl & Hd & Hds & Hdl & Hs3)%cx_primary_Ok.
  pose proof (cx_declare_declared _ _ _ _ Hd) as Hdecl.
  exists s2. split_and!; [done..| |].
  - eapply (foldM_inv (inv s2)); [|by eapply declared_inv|exact Hs3].
    intros t x t' _. apply cx_dep_step_inv.
  - eapply foldM_grows; [|exact Hs3]. intros ???. apply cx_dep_step_grows.
Qed.

Lemma cx_build_inv obj s4 rid :
  cx_build obj = Ok (s4, rid) →
  ∃ s2 comps, cx_declare obj = Ok (s2, comps, rid) ∧ declared s2 rid ∧
    inv s2 s4 ∧ grows s2 s4.
Proof.
  intros (s3 & comps & Hp & Hf)%cx_build_Ok.
  apply cx_primary_inv in Hp as (s2 & Hd & Hdecl & Hi & Hg).
  exists s2, comps. split_and!; [done..| |].
  - by eapply cx_fallback_inv.
  - eapply grows_trans; [exact Hg|by eapply cx_fallback_grows].
Qed.

Lemma from_cyclonedx_inv obj s :
  _from_cyclonedx obj = Ok s →
  ∃ s2 comps rid, cx_declare obj = Ok (s2, comps, rid) ∧ inv s2 s.
Proof.
  intros (s4 & rid & s5 & Hb & Hr & Ha)%from_cyclonedx_Ok.
  apply cx_build_inv in Hb as (s2 & comps & Hd & Hdecl & [[Hec Hrc] Hp] & Hg).
  exists s2, comps, rid. split; [done|].
  apply cx_roots_facts in Hr as (Hn5 & He5 & Hr5).
  apply cx_attach_facts in Ha as (Hn & Hro & He).
  assert (Hec5 : edges_closed s5).
  { eapply edges_closed_grow; [exact Hec|done|by rewrite Hn5]. }
  split; [split|].
  - destruct He as [[He _]|(k & top & Ht & Hk & Hin & Hout & Hperm & Hne & He)].
    + eapply edges_closed_grow; [exact Hec5|done|by rewrite Hn].
    + intros a kids. rewrite He, Hn. destruct (decide (a = k)) as [->|Hak].
      * rewrite lookup_insert_eq. intros [= <-]. split; [done|].
        intros x Hx. apply elem_of_list_to_set in Hx. rewrite Hperm in Hx.
        apply list_elem_of_filter in Hx as [_ Hx]. apply elem_of_elements in Hx.
        apply elem_of_dom in Hx as [kx Hkx]. by destruct (Hec5 _ _ Hkx).
      * rewrite lookup_insert_ne by done. apply Hec5.
  - unfold roots_closed in *. rewrite Hro, Hn, Hn5.
    destruct Hdecl as (_ & _ & Hroot). destruct (truthy rid).
    + destruct Hr5 as (k & Hk & ->). destruct Hroot as (k' & Hk' & Hin & _).
      same_keys. apply grows_dom in Hg. set_solver.
    + rewrite Hr5. set_solver.
  - intros k. rewrite Hn, Hn5. apply Hp.
Qed.

End CycloneDXWhole.

Section SPDXInvariants.
Context `{Runtime}.

Lemma spdx_package_step_empty s pkg s' :
  edges s = ∅ ∧ roots s = ∅ → spdx_package_step s pkg = Ok s' →
  edges s' = ∅ ∧ roots s' = ∅.
Proof.
  intros [He Hr]. unfold spdx_package_step.
  intros (a & Ha & Hrun)%bind_Ok.
  apply bind_Ok in Hrun as (b & Hb & Hrun).
  destruct (truthy (py_or a b)); [|by injection Hrun as <-].
  apply bind_Ok in Hrun as (lbl & Hlbl & Hrun).
  apply nodes_setitem_facts in Hrun as (k & Hk & He' & Hr' & Hn').
  split; congruence.
Qed.

Lemma spdx_declare_inv obj s1 : spdx_declare obj = Ok s1 → inv s1 s1.
Proof.
  unfold spdx_declare. intros (ps & Hps & Hrun)%bind_Ok.
  apply bind_Ok in Hrun as (pl & Hpl & Hrun).
  apply (foldM_inv (λ t, edges t = ∅ ∧ roots t = ∅)) in Hrun as [He Hr]; [| |done].
  - split; [split|apply placeholders_refl].
    + intros a kids. by rewrite He, lookup_empty.
    + unfold roots_closed. rewrite Hr. set_solver.
  - intros t x t' _. apply spdx_package_step_empty.
Qed.

Lemma spdx_rel_step_inv (s0 s s' : SBOM) (rel : json) :
  inv s0 s → spdx_rel_step s rel = Ok s' → inv s0 s'.
Proof.
  intros [[Hec Hrc] Hp]. unfold spdx_rel_step.
  intros (rt & Hrt & Hrun)%bind_Ok.
  apply bind_Ok in Hrun as (src & Hsrc & Hrun).
  apply bind_Ok in Hrun as (dst & Hdst & Hrun).
  destruct (_ || _); [by injection Hrun as <-|].
  apply bind_Ok in Hrun as (s1 & H1 & Hrun).
  apply bind_Ok in Hrun as (s2 & H2 & Hrun).
  pose proof (placeholders_setdefault _ _ _ _ Hp H1) as Hp1.
  pose proof (placeholders_setdefault _ _ _ _ Hp1 H2) as Hp2.
  apply nodes_setdefault_facts in H1 as (ks & Hks & He1 & Hr1 & Hin1 & Hd1 & _).
  apply nodes_setdefault_facts in H2 as (kd & Hkd & He2 & Hr2 & Hin2 & Hd2 & _).
  assert (Hec2 : edges_closed s2).
  { eapply edges_closed_grow; [exact Hec|congruence|set_solver]. }
  assert (Hrc2 : roots_closed s2).
  { unfold roots_closed in *. rewrite Hr2, Hr1. set_solver. }
  assert (Hks2 : ks ∈ dom (nodes s2)) by set_solver.
  repeat case_bool_decide.
  - apply edges_add_facts in Hrun as (a & b & Ha & Hb & Hn3 & Hr3 & He3). same_keys.
    split; [split|].
    + eapply edges_closed_add; [exact Hec2| | |exact Hn3|exact He3]; done.
    + unfold roots_closed in *. by rewrite Hr3, Hn3.
    + by eapply placeholders_same_nodes.
  - apply edges_add_facts in Hrun as (a & b & Ha & Hb & Hn3 & Hr3 & He3). same_keys.
    split; [split|].
    + eapply edges_closed_add; [exact Hec2| | |exact Hn3|exact He3]; done.
    + unfold roots_closed in *. by rewrite Hr3, Hn3.
    + by eapply placeholders_same_nodes.
  - by injection Hrun as <-.
Qed.

Lemma spdx_describes_step_facts s rid s' :
  spdx_describes_step s rid = Ok s' →
  nodes s' = nodes s ∧ edges s' = edges s ∧
  (roots_closed s → roots_closed s').
Proof.
  unfold spdx_describes_step. intros (k & Hk & Hrun)%bind_Ok.
  case_bool_decide as Hin; [|by injection Hrun as <-].
  apply roots_add_Ok in Hrun as (k' & Hk' & ->). same_keys.
  split_and!; [done..|]. unfold roots_closed. simpl. set_solver.
Qed.

Lemma spdx_roots_facts obj s s' :
  spdx_roots obj s = Ok s' →
  nodes s' = nodes s ∧ edges s' = edges s ∧ (roots_closed s → roots_closed s').
Proof.
  unfold spdx_roots. intros (d & Hd & Hrun)%bind_Ok.
  apply bind_Ok in Hrun as (dl & Hdl & Hrun).
  apply bind_Ok in Hrun as (s1 & H1 & Hrun).
  apply (foldM_inv (λ t, nodes t = nodes s ∧ edges t = edges s ∧
                         (roots_closed s → roots_closed t))) in H1
    as (Hn1 & He1 & Hr1); [| |done].
  - case_bool_decide; injection Hrun as <-; [|done].
    split_and!; [done..|]. intros _. unfold roots_closed. simpl. set_solver.
  - intros t x t' _ (Hn & He & Hr) (Hn' & He' & Hr')%spdx_describes_step_facts.
    split_and!; [congruence..|]. auto.
Qed.

Lemma from_spdx_Ok obj s :
  _from_spdx obj = Ok s ↔ ∃ s2, spdx_build obj = Ok s2 ∧ spdx_roots obj s2 = Ok s.
Proof. unfold _from_spdx. by rewrite bind_Ok. Qed.

Lemma spdx_build_Ok obj s2 :
  spdx_build obj = Ok s2 ↔
  ∃ s1 rs rl, spdx_declare obj = Ok s1 ∧
    get_default obj "relationships" (JList []) = Ok rs ∧
    py_iter (py_or rs (JList [])) = Ok rl ∧
    foldM spdx_rel_step s1 rl = Ok s2.
Proof.
  unfold spdx_build. rewrite bind_Ok. split.
  - intros (s1 & Hd & Hrun).
    apply bind_Ok in Hrun as (rs & Hrs & Hrun).
    apply bind_Ok in Hrun as (rl & Hrl & Hrun).
    by exists s1, rs, rl.
  - intros (s1 & rs & rl & Hd & Hrs & Hrl & Hrun). exists s1. split; [done|].
    rewrite Hrs. simpl. by rewrite Hrl.
Qed.

Lemma from_spdx_inv obj s :
  _from_spdx obj = Ok s → ∃ s1, spdx_declare obj = Ok s1 ∧ inv s1 s.
Proof.
  intros (s2 & Hb & Hr)%from_spdx_Ok.
  apply spdx_build_Ok in Hb as (s1 & rs & rl & Hd & Hrs & Hrl & Hrun).
  exists s1. split; [done|].
  apply (foldM_inv (inv s1)) in Hrun as [[Hec Hrc] Hp];
    [|intros t x t' _; apply spdx_rel_step_inv|by apply (spdx_declare_inv obj)].
  apply spdx_roots_facts in Hr as (Hn & He & Hro).
  split; [split|].
  - eapply edges_closed_grow; [exact Hec|done|by rewrite Hn].
  - auto.
  - by eapply placeholders_same_nodes.
Qed.

(** C6. A graph produced by either normaliser satisfies both invariants:
    every key of the edge map and every member of its sets is a node, and
    every root is a node. Relative to the nodes declared by the components
    and [metadata.component] (resp. the packages), every other node is a
    placeholder whose label is the id value itself. *)
Theorem normalised_graph_invariants (obj : json) (s : SBOM) :
  _from_cyclonedx obj = Ok s ∨ _from_spdx obj = Ok s →
  edges_closed s ∧ roots_closed s ∧
  ∃ s0, ((∃ comps root_id, cx_declare obj = Ok (s0, comps, root_id))
         ∨ spdx_declare obj = Ok s0)
        ∧ placeholders s0 s.
Proof.
  intros [Hc|Hs].
  - apply from_cyclonedx_inv in Hc as (s2 & comps & rid & Hd & [[Hec Hrc] Hp]).
    split_and!; [done..|]. exists s2. split; [left; eauto|done].
  - apply from_spdx_inv in Hs as (s1 & Hd & [[Hec Hrc] Hp]).
    split_and!; [done..|]. exists s1. split; [by right|done].
Qed.

End SPDXInvariants.

(** ** The declared root *)

Lemma edges_nonempty_dom (s : SBOM) (a : key) :
  edges_nonempty s → a ∈ dom (edges s) ↔ ∃ b, has_edge s a b.
Proof.
  intros Hne. rewrite elem_of_dom. unfold has_edge. split.
  - intros [kids Hk]. pose proof (Hne _ _ Hk) as Hx.
    apply set_choose_L in Hx as [b Hb]. eauto.
  - intros (b & kids & Hk & _). eauto.
Qed.

Lemma edges_nonempty_same s s' : edges_nonempty s → edges s' = edges s → edges_nonempty s'.
Proof. intros Hne He a kids. rewrite He. apply Hne. Qed.

Lemma edges_nonempty_setdefault i lbl s s' :
  edges_nonempty s → nodes_setdefault i lbl s = Ok s' → edges_nonempty s'.
Proof.
  intros Hne (k & _ & He & _)%nodes_setdefault_facts. by eapply edges_nonempty_same.
Qed.

Lemma edges_nonempty_add src child s s' :
  edges_nonempty s → edges_add src child s = Ok s' → edges_nonempty s'.
Proof.
  intros Hne (ks & kc & _ & _ & _ & _ & He)%edges_add_facts a kids. rewrite He.
  destruct (decide (a = ks)) as [->|Hak].
  - rewrite lookup_insert_eq. intros [= <-]. set_solver.
  - rewrite lookup_insert_ne by done. apply Hne.
Qed.

Section DeclaredRoot.
Context `{Runtime}.

Lemma cx_child_step_nonempty ref s child s' :
  edges_nonempty s → cx_child_step ref s child = Ok s' → edges_nonempty s'.
Proof.
  intros Hne. unfold cx_child_step. destruct (truthy child); [|by intros [= <-]].
  intros (s1 & H1 & H2)%bind_Ok.
  eapply edges_nonempty_add; [|exact H2]. by eapply edges_nonempty_setdefault.
Qed.

Lemma cx_dep_step_nonempty s dep s' :
  edges_nonempty s → cx_dep_step s dep = Ok s' → edges_nonempty s'.
Proof.
  intros Hne. unfold cx_dep_step. intros (ref & Href & Hrun)%bind_Ok.
  destruct (truthy ref); [|by injection Hrun as <-].
  apply bind_Ok in Hrun as (s1 & H1 & Hrun).
  apply bind_Ok in Hrun as (d & Hd & Hrun).
  apply bind_Ok in Hrun as (kids & Hkids & Hrun).
  eapply (foldM_inv edges_nonempty); [| |exact Hrun].
  - intros t x t' _. apply cx_child_step_nonempty.
  - by eapply edges_nonempty_setdefault.
Qed.

Lemma cx_inline_step_nonempty s c s' :
  edges_nonempty s → cx_inline_step s c = Ok s' → edges_nonempty s'.
Proof.
  intros Hne. unfold cx_inline_step. intros (src & Hsrc & Hrun)%bind_Ok.
  apply bind_Ok in Hrun as (d & Hd & Hrun).
  destruct (py_or d (JList [])) as [| | | |kids|]; try (by injection Hrun as <-).
  eapply (foldM_inv edges_nonempty); [|exact Hne|exact Hrun].
  intros t x t' _ Ht. unfold cx_inline_child_step.
  intros (s1 & H1 & Hr)%bind_Ok. apply bind_Ok in Hr as (s2 & H2 & H3).
  eapply edges_nonempty_add; [|exact H3].
  eapply edges_nonempty_setdefault; [|exact H2]. by eapply edges_nonempty_setdefault.
Qed.

Lemma cx_build_nonempty obj s4 rid : cx_build obj = Ok (s4, rid) → edges_nonempty s4.
Proof.
  intros (s3 & comps & Hp & Hf)%cx_build_Ok.
  apply cx_primary_Ok in Hp as (s2 & ds & dl & Hd & Hds & Hdl & Hs3).
  apply cx_declare_declared in Hd as (He & _).
  assert (edges_nonempty s3).
  { eapply (foldM_inv edges_nonempty); [| |exact Hs3].
    - intros t x t' _. apply cx_dep_step_nonempty.
    - intros a kids. by rewrite He, lookup_empty. }
  unfold cx_fallback in Hf. destruct (_ && _); [|by injection Hf as <-].
  apply bind_Ok in Hf as (cs & Hcs & Hrun).
  eapply (foldM_inv edges_nonempty); [| |exact Hrun]; [|done].
  intros t x t' _. apply cx_inline_step_nonempty.
Qed.

Lemma cx_metadata_root obj s s' rid :
  cx_metadata obj s = Ok (s', rid) → declared_root obj = Ok rid.
Proof.
  unfold cx_metadata, declared_root.
  intros (m & Hm & Hrun)%bind_Ok. rewrite Hm. simpl.
  apply bind_Ok in Hrun as (mc & Hmc & Hrun). rewrite Hmc. simpl.
  destruct (truthy mc); [|by injection Hrun as _ <-].
  apply bind_Ok in Hrun as (r & Hr & Hrun). rewrite Hr.
  destruct (truthy r).
  - apply bind_Ok in Hrun as (lbl & _ & Hrun).
    apply bind_Ok in Hrun as (s1 & _ & Hrun).
    apply bind_Ok in Hrun as (s2 & _ & Hrun). by injection Hrun as _ <-.
  - by injection Hrun as _ <-.
Qed.

Lemma cx_build_root obj s4 rid :
  cx_build obj = Ok (s4, rid) → declared_root obj = Ok rid.
Proof.
  intros (s3 & comps & Hp & _)%cx_build_Ok.
  apply cx_primary_Ok in Hp as (s2 & _ & _ & Hd & _).
  unfold cx_declare in Hd. apply bind_Ok in Hd as (cs & _ & Hd).
  apply bind_Ok in Hd as (cl & _ & Hd). apply bind_Ok in Hd as (s1 & _ & Hd).
  apply bind_Ok in Hd as ([s2' rid'] & Hm & [= _ _ <-]).
  by eapply cx_metadata_root.
Qed.

(** C1. When [metadata.component] yields an id, the root set of the
    normalised graph is exactly that id, whatever the topology suggests; the
    nodes and the edges of every other source are those built from the
    document; and when the declared root has no edge of its own it receives
    an edge to every node that is an edge source and no edge's target. *)
Theorem declared_root_overrides (obj : json) (root_id : json) (s : SBOM) :
  declared_root obj = Ok root_id →
  truthy root_id = true →
  _from_cyclonedx obj = Ok s →
  ∃ r s4, key_of root_id = Ok r ∧ cx_build obj = Ok (s4, root_id) ∧
    roots s = {[r]} ∧
    nodes s = nodes s4 ∧
    (∀ a b, a ≠ r → has_edge s a b ↔ has_edge s4 a b) ∧
    ((∃ b, has_edge s4 r b) → edges s = edges s4) ∧
    (¬ (∃ b, has_edge s4 r b) →
       ∀ b, has_edge s r b ↔ (∃ c, has_edge s4 b c) ∧ ¬ (∃ a, has_edge s4 a b)).
Proof.
  intros Hroot Ht (s4 & rid & s5 & Hb & Hr & Ha)%from_cyclonedx_Ok.
  pose proof (cx_build_root _ _ _ Hb) as Hroot'.
  assert (rid = root_id) as -> by congruence.
  pose proof (cx_build_nonempty _ _ _ Hb) as Hne.
  pose proof (cx_build_inv _ _ _ Hb) as (s2 & comps & _ & (_ & _ & Hdecl) & _ & Hg).
  rewrite Ht in Hdecl. destruct Hdecl as (r0 & Hk0 & Hin0 & _).
  apply grows_dom in Hg.
  apply cx_roots_facts in Hr as (Hn5 & He5 & Hr5). rewrite Ht in Hr5.
  destruct Hr5 as (r & Hk & Hr5). assert (r = r0) as -> by congruence. clear Hk.
  apply cx_attach_facts in Ha as (Hn & Hro & He).
  assert (Hall : all_children s5 = all_children s4)
    by (unfold all_children; by rewrite He5).
  exists r0, s4. split_and!; [done|done|congruence|congruence|..].
  - intros a b Har. unfold has_edge.
    destruct He as [[-> _]|(k & top & _ & Hk' & _ & _ & _ & _ & ->)]; [by rewrite He5|].
    assert (k = r0) as -> by congruence. by rewrite lookup_insert_ne, He5.
  - intros Hout. destruct He as [[-> _]|(k & top & _ & Hk' & _ & Hnot & _)]; [done|].
    assert (k = r0) as -> by congruence. exfalso. apply Hnot. rewrite He5. by apply edges_nonempty_dom.
  - intros Hout b.
    assert (Hnot : r0 ∉ dom (edges s4)) by by rewrite edges_nonempty_dom.
    assert (Htop : ∀ top, top ≡ₚ filter (λ r, r ∉ all_children s5) (elements (dom (edges s5))) →
              b ∈ top ↔ (∃ c, has_edge s4 b c) ∧ ¬ (∃ a, has_edge s4 a b)).
    { intros top ->. rewrite list_elem_of_filter, elem_of_elements, He5, Hall.
      rewrite all_children_spec, edges_nonempty_dom by done. tauto. }
    destruct He as [[He Hnil]|(k & top & _ & Hk' & _ & _ & Hperm & _ & He)].
    + rewrite <- (Htop _ (reflexivity _)).
      rewrite (Hnil r0) by (rewrite ?Hn5, ?He5; set_solver).
      unfold has_edge. rewrite He, He5. split.
      * intros (kids & Hkids & _). exfalso. apply Hnot. apply elem_of_dom. eauto.
      * by intros ?%elem_of_nil.
    + assert (k = r0) as -> by congruence. rewrite <- (Htop _ Hperm). unfold has_edge.
      rewrite He, lookup_insert_eq. split.
      * intros (kids & [= <-] & Hb'). by apply elem_of_list_to_set in Hb'.
      * intros Hb'. eexists. split; [done|]. by apply elem_of_list_to_set.
Qed.

End DeclaredRoot.

(** ** The inline-dependency fallback *)

Lemma foldM_grows_elem {A : Type} (body : SBOM → A → res SBOM) (l : list A)
    (s s' : SBOM) (x : A) :
  (∀ t y t', body t y = Ok t' → grows t t') →
  foldM body s l = Ok s' → x ∈ l →
  ∃ t t', grows s t ∧ body t x = Ok t' ∧ grows t' s'.
Proof.
  intros Hb Hrun (l1 & l2 & ->)%list_elem_of_split.
  rewrite foldM_app in Hrun. apply bind_Ok in Hrun as (t & H1 & H2).
  simpl in H2. apply bind_Ok in H2 as (t' & Hx & H2).
  exists t, t'. split_and!; [|done|]; by eapply foldM_grows.
Qed.

Section Fallback.
Context `{Runtime}.

Lemma cx_attach_grows rid s s' : cx_attach rid s = Ok s' → grows s s'.
Proof.
  intros (Hn & _ & He)%cx_attach_facts. split; [by rewrite Hn|].
  intros a b. unfold has_edge.
  destruct He as [[-> _]|(k & top & _ & _ & _ & Hout & _ & _ & ->)]; [done|].
  intros (kids & Hk & Hb). exists kids. split; [|done].
  rewrite lookup_insert_ne; [done|]. intros ->. apply Hout. apply elem_of_dom. eauto.
Qed.

Lemma cx_roots_grows rid s s' : cx_roots rid s = Ok s' → grows s s'.
Proof.
  intros (Hn & He & _)%cx_roots_facts. split; [by rewrite Hn|].
  intros a b. unfold has_edge. by rewrite He.
Qed.

(** No node is named by [None] before the fallback: ids and references
    that are false are skipped. *)
Lemma cx_dep_step_no_None s dep s' :
  KNone ∉ dom (nodes s) → cx_dep_step s dep = Ok s' → KNone ∉ dom (nodes s').
Proof.
  intros Hn. unfold cx_dep_step. intros (ref & Href & Hrun)%bind_Ok.
  destruct (truthy ref) eqn:Ht; [|by injection Hrun as <-].
  apply bind_Ok in Hrun as (s1 & H1 & Hrun).
  apply bind_Ok in Hrun as (d & Hd & Hrun).
  apply bind_Ok in Hrun as (kids & Hkids & Hrun).
  apply nodes_setdefault_facts in H1 as (kr & Hkr & _ & _ & _ & Hd1 & _).
  pose proof (truthy_key_not_None _ _ Ht Hkr).
  eapply (foldM_inv (λ t, KNone ∉ dom (nodes t))); [| |exact Hrun]; [|set_solver].
  intros t x t' _ Hnt. unfold cx_child_step.
  destruct (truthy x) eqn:Hx; [|by intros [= <-]].
  intros (t1 & Ht1 & Ht2)%bind_Ok.
  apply nodes_setdefault_facts in Ht1 as (kx & Hkx & _ & _ & _ & Hdx & _).
  apply edges_add_facts in Ht2 as (? & ? & _ & _ & Hn2 & _).
  pose proof (truthy_key_not_None _ _ Hx Hkx). rewrite Hn2, Hdx. set_solver.
Qed.

Lemma cx_primary_no_None obj s3 comps rid :
  cx_primary obj = Ok (s3, comps, rid) → KNone ∉ dom (nodes s3).
Proof.
  intros (s2 & ds & dl & Hd & Hds & Hdl & Hs3)%cx_primary_Ok.
  apply cx_declare_declared in Hd as (_ & Hn & _).
  eapply (foldM_inv (λ t, KNone ∉ dom (nodes t))); [|exact Hn|exact Hs3].
  intros t x t' _. apply cx_dep_step_no_None.
Qed.

Lemma None_label_setdefault v s s' :
  None_label s → nodes_setdefault v v s = Ok s' → None_label s'.
Proof.
  intros Hl (k & Hk & _ & _ & _ & _ & Hj)%nodes_setdefault_facts.
  unfold None_label in *.
  destruct (Hj KNone) as [->|(_ & <- & Hnew)]; [done|].
  right. destruct v; simplify_eq/=. done.
Qed.

Lemma cx_inline_child_step_None_label src s child s' :
  None_label s → cx_inline_child_step src s child = Ok s' → None_label s'.
Proof.
  intros Hl. unfold cx_inline_child_step. intros (s1 & H1 & Hrun)%bind_Ok.
  apply bind_Ok in Hrun as (s2 & H2 & H3).
  apply edges_add_facts in H3 as (? & ? & _ & _ & Hn3 & _).
  unfold None_label. rewrite Hn3.
  eapply None_label_setdefault; [|exact H2]. by eapply None_label_setdefault.
Qed.

Lemma cx_inline_step_None_label s c s' :
  None_label s → cx_inline_step s c = Ok s' → None_label s'.
Proof.
  intros Hl. unfold cx_inline_step. intros (src & Hsrc & Hrun)%bind_Ok.
  apply bind_Ok in Hrun as (d & Hd & Hrun).
  destruct (py_or d (JList [])) as [| | | |kids|]; try (by injection Hrun as <-).
  eapply (foldM_inv None_label); [|exact Hl|exact Hrun].
  intros t x t' _. apply cx_inline_child_step_None_label.
Qed.

End Fallback.

Lemma py_iter_truthy (v : json) (l : list json) :
  py_iter v = Ok l → l ≠ [] → truthy v = true.
Proof.
  destruct v as [| | |s|l'|kvs]; simpl; try done.
  - intros [= <-]. by destruct s.
  - intros [= <-] Hl. by destruct l'.
  - intros [= <-]. by destruct kvs.
Qed.

Section FallbackClaim.
Context `{Runtime}.

(** What one turn of the inner fallback loop leaves behind. *)
Lemma cx_inline_child_step_edge (src child : json) (s s' : SBOM) (ks : key) :
  key_of src = Ok ks →
  cx_inline_child_step src s child = Ok s' →
  is_Some (nodes s' !! ks) ∧ ∃ k, key_of child = Ok k ∧ has_edge s' ks k.
Proof.
  intros Hks. unfold cx_inline_child_step. intros (s1 & H1 & Hrun)%bind_Ok.
  apply bind_Ok in Hrun as (s2 & H2 & H3).
  pose proof (grows_setdefault _ _ _ _ H2) as [Hg2 _].
  apply nodes_setdefault_facts in H1 as (k1 & Hk1 & _ & _ & Hin1 & _).
  apply edges_add_Ok in H3 as (a & b & Ha & Hb & ->).
  assert (a = ks) as -> by congruence. assert (k1 = ks) as -> by congruence.
  split.
  - apply elem_of_dom in Hin1 as [v Hv]. simpl. eauto.
  - exists b. split; [done|]. apply has_edge_insert_union. by right.
Qed.

(** C10. In the inline-dependency fallback, entered because the top-level
    [dependencies] section left the edge map empty, a component that yields
    [None] for [bom-ref], [bomRef], [purl] and [name] and carries a non-empty
    list under [dependencies] is processed, although the first pass over the
    components skips it: the graph gets a node whose id is [None], labelled
    [None], with an edge from it to every listed child. *)
Theorem fallback_keeps_idless_component (obj : json) (s3 : SBOM) (comps root_id : json)
    (cs : list json) (c : json) (kids : list json) (s : SBOM) :
  cx_primary obj = Ok (s3, comps, root_id) →
  edges s3 = ∅ →
  py_iter comps = Ok cs →
  c ∈ cs →
  get c "bom-ref" = Ok JNull →
  get c "bomRef" = Ok JNull →
  get c "purl" = Ok JNull →
  get c "name" = Ok JNull →
  get c "dependencies" = Ok (JList kids) →
  kids ≠ [] →
  _from_cyclonedx obj = Ok s →
  (∀ t, cx_component_step t c = Ok t) ∧
  nodes s !! KNone = Some JNull ∧
  ∀ child, child ∈ kids → ∃ k, key_of child = Ok k ∧ has_edge s KNone k.
Proof.
  intros Hp He3 Hcs Hc Hg1 Hg2 Hg3 Hg4 Hdeps Hkids
    (s4 & rid & s5 & Hb & Hr & Ha)%from_cyclonedx_Ok.
  apply cx_build_Ok in Hb as (s3' & comps' & Hp' & Hf).
  rewrite Hp in Hp'. injection Hp' as <- <-.
  pose proof (cx_primary_no_None _ _ _ _ Hp) as HnoNone.
  assert (Hid : cx_id c = Ok JNull).
  { unfold cx_id. rewrite Hg1, Hg2, Hg3, Hg4. done. }
  split; [intros t; unfold cx_component_step; by rewrite Hid|].
  (* the fallback runs *)
  unfold cx_fallback in Hf.
  rewrite (bool_decide_eq_true_2 _ He3) in Hf.
  rewrite (py_iter_truthy comps cs Hcs) in Hf by (intros ->; by apply elem_of_nil in Hc).
  simpl in Hf. rewrite Hcs in Hf. simpl in Hf.
  assert (Hlbl : None_label s4).
  { eapply (foldM_inv None_label); [| |exact Hf].
    - intros t x t' _. apply cx_inline_step_None_label.
    - left. by apply not_elem_of_dom. }
  destruct (foldM_grows_elem _ _ _ _ c (λ t y t', cx_inline_step_grows t y t') Hf Hc)
    as (t & t' & _ & Hstep & Hgt).
  unfold cx_inline_step in Hstep. rewrite Hid, Hdeps in Hstep. simpl in Hstep.
  assert (Htk : py_or (JList kids) (JList []) = JList kids).
  { unfold py_or. simpl. by rewrite bool_decide_eq_false_2. }
  rewrite Htk in Hstep.
  pose proof (cx_roots_grows _ _ _ Hr) as Hg5.
  pose proof (cx_attach_grows _ _ _ Ha) as Hg6.
  assert (Hchild : ∀ child, child ∈ kids →
            is_Some (nodes s !! KNone) ∧ ∃ k, key_of child = Ok k ∧ has_edge s KNone k).
  { intros child Hin.
    destruct (foldM_grows_elem _ _ _ _ child
                (λ u y u', cx_inline_child_step_grows JNull u y u') Hstep Hin)
      as (u & u' & _ & Hcs' & Hgu).
    apply (cx_inline_child_step_edge JNull _ _ _ KNone eq_refl) in Hcs'
      as ([v Hv] & k & Hk & Hedge).
    assert (Hall : grows u' s).
    { eapply grows_trans; [exact Hgu|]. eapply grows_trans; [exact Hgt|].
      eapply grows_trans; [exact Hg5|exact Hg6]. }
    destruct Hall as [Hn Hed]. split; [eauto|]. exists k. eauto. }
  split; [|intros child Hin; by destruct (Hchild child Hin)].
  destruct kids as [|child kids']; [done|].
  destruct (Hchild child) as [[v Hv] _]; [by left|].
  apply cx_roots_facts in Hr as (Hn5 & _). apply cx_attach_facts in Ha as (Hn6 & _).
  rewrite Hn6, Hn5 in Hv |- *. unfold None_label in Hlbl.
  destruct Hlbl as [Hl|Hl]; congruence.
Qed.

End FallbackClaim.

(** ** The graph is read-only after normalisation *)

Lemma frame_ret {A : Type} (a : A) : frame (mret a).
Proof. by intros w. Qed.

Lemma frame_lift {A : Type} (r : res A) : frame (lift r).
Proof. by intros w. Qed.

Lemma frame_out_of_fuel {A : Type} : frame (@out_of_fuel A).
Proof. by intros w. Qed.

Lemma frame_bind {A B : Type} (m : M A) (f : A → M B) :
  frame m → (∀ a, frame (f a)) → frame (m ≫= f).
Proof.
  intros Hm Hf w. unfold mbind, M_bind. specialize (Hm w).
  destruct (m w) as [[a|e|] w']; simpl in *; [|done..].
  by rewrite Hf.
Qed.

Lemma frame_nodes_get k : frame (nodes_get k).
Proof. by intros w. Qed.

Lemma frame_nodes_mem k : frame (nodes_mem k).
Proof. by intros w. Qed.

Lemma frame_edges_get k : frame (edges_get k).
Proof. by intros w. Qed.

Lemma frame_roots_get : frame roots_get.
Proof. by intros w. Qed.

Lemma frame_edges_len : frame edges_len.
Proof. by intros w. Qed.

Lemma frame_print l : frame (print l).
Proof. by intros w. Qed.

Lemma frame_visited_new : frame visited_new.
Proof. by intros w. Qed.

Lemma frame_visited_mem k : frame (visited_mem k).
Proof. by intros w. Qed.

Lemma frame_visited_add k : frame (visited_add k).
Proof. by intros w. Qed.

Lemma frame_for_each {A : Type} (l : list A) (body : A → M unit) :
  (∀ x, frame (body x)) → frame (for_each l body).
Proof.
  intros Hb. induction l as [|x l IH]; simpl; [apply frame_ret|].
  apply frame_bind; auto.
Qed.

Lemma frame_mapM_M {A B : Type} (f : A → M B) (l : list A) :
  (∀ x, frame (f x)) → frame (mapM_M f l).
Proof.
  intros Hf. induction l as [|x l IH]; simpl; [apply frame_ret|].
  apply frame_bind; [done|]. intros y. apply frame_bind; [done|].
  intros ys. apply frame_ret.
Qed.

Lemma frame_filter_M {A : Type} (p : A → M bool) (l : list A) :
  (∀ x, frame (p x)) → frame (filter_M p l).
Proof.
  intros Hp. induction l as [|x l IH]; simpl; [apply frame_ret|].
  apply frame_bind; [done|]. intros b. apply frame_bind; [done|].
  intros ys. apply frame_ret.
Qed.

Lemma frame_fold_M {A B : Type} (body : B → A → M B) (l : list A) (acc : B) :
  (∀ b x, frame (body b x)) → frame (fold_M body acc l).
Proof.
  intros Hb. revert acc. induction l as [|x l IH]; intros acc; simpl; [apply frame_ret|].
  apply frame_bind; auto.
Qed.

Create HintDb frame discriminated.
#[export] Hint Resolve frame_ret frame_lift frame_out_of_fuel frame_nodes_get
  frame_nodes_mem frame_edges_get frame_roots_get frame_edges_len frame_print
  frame_visited_new frame_visited_mem frame_visited_add : frame.

Ltac frame_step :=
  match goal with
  | |- frame (_ ≫= _) => apply frame_bind; [|intros ?]
  | |- frame (for_each _ _) => apply frame_for_each; intros ?
  | |- frame (mapM_M _ _) => apply frame_mapM_M; intros ?
  | |- frame (filter_M _ _) => apply frame_filter_M; intros ?
  | |- frame (fold_M _ _ _) => apply frame_fold_M; intros ? ?
  | |- frame (if ?b then _ else _) => destruct b
  | |- frame (match ?x with _ => _ end) => destruct x
  | |- frame (let _ := _ in _) => cbv zeta
  | |- frame _ => solve [eauto with frame]
  end.

Ltac solve_frame := repeat frame_step.

Lemma frame_sorted_by_label xs : frame (sorted_by_label xs).
Proof. unfold sorted_by_label, label_key. solve_frame. Qed.

#[export] Hint Resolve frame_sorted_by_label : frame.

Section Frame.
Context `{Runtime}.

Lemma frame_children_of node : frame (children_of node).
Proof. unfold children_of. solve_frame. Qed.

Hint Resolve frame_children_of : frame.

Lemma frame_build_forest start_ids : frame (build_forest start_ids).
Proof. unfold build_forest. solve_frame. Qed.

Lemma frame_render fuel show_ids max_depth include_dupes node prefix seen last depth :
  frame (render fuel show_ids max_depth include_dupes node prefix seen last depth).
Proof.
  revert node prefix seen last depth.
  induction fuel as [|fuel IH]; intros node prefix seen last depth; simpl.
  - apply frame_out_of_fuel.
  - solve_frame.
Qed.

Hint Resolve frame_render : frame.

Lemma frame_ascii_trees roots show_ids max_depth include_dupes :
  frame (ascii_trees roots show_ids max_depth include_dupes).
Proof. unfold ascii_trees. solve_frame. Qed.

Lemma frame_make_node fuel node seen : frame (make_node fuel node seen).
Proof.
  revert node seen. induction fuel as [|fuel IH]; intros node seen; simpl.
  - apply frame_out_of_fuel.
  - solve_frame.
Qed.

Hint Resolve frame_make_node : frame.

Lemma frame_to_d3_tree roots : frame (to_d3_tree roots).
Proof. unfold to_d3_tree. solve_frame. Qed.

Lemma frame_bfs fuel dq reachable : frame (bfs fuel dq reachable).
Proof.
  revert dq reachable. induction fuel as [|fuel IH]; intros dq reachable.
  - destruct dq; simpl; solve_frame.
  - destruct dq; simpl; solve_frame.
Qed.

Hint Resolve frame_bfs : frame.

Lemma frame_bfs_fuel : frame bfs_fuel.
Proof. by intros w. Qed.

Hint Resolve frame_bfs_fuel : frame.

Lemma frame_to_dot roots : frame (to_dot roots).
Proof. unfold to_dot, dot_node_line, dot_edge_lines. solve_frame. Qed.

(** Indexing the [defaultdict] would not be a read: it stores a key. *)
Lemma edges_getitem_stores (k : key) (w : world) :
  k ∉ dom (edges (w_sbom w)) →
  edges (w_sbom (edges_getitem k w).2) = <[k := ∅]> (edges (w_sbom w)).
Proof.
  intros Hk%not_elem_of_dom. unfold edges_getitem. by rewrite Hk.
Qed.

(** C9. Nothing that runs after normalisation changes the graph: whatever
    the roots and the options, and whether they return or raise,
    [build_forest], the ASCII renderer, the DOT emitter and the
    tree-structure builder leave the node map, the edge map and the root set
    as they found them; they read the edge map with [get], which stores
    nothing. *)
Theorem renderers_leave_graph_unchanged (w : world) :
  (∀ start_ids, w_sbom (build_forest start_ids w).2 = w_sbom w) ∧
  (∀ roots show_ids max_depth include_dupes,
     w_sbom (ascii_trees roots show_ids max_depth include_dupes w).2 = w_sbom w) ∧
  (∀ roots, w_sbom (to_dot roots w).2 = w_sbom w) ∧
  (∀ roots, w_sbom (to_d3_tree roots w).2 = w_sbom w).
Proof.
  split_and!; intros.
  - apply frame_build_forest.
  - apply frame_ascii_trees.
  - apply frame_to_dot.
  - apply frame_to_d3_tree.
Qed.

End Frame.

(** ** Sorting by label *)

Lemma str_compare_refl (a : string) : String.compare a a = Eq.
Proof.
  induction a as [|c a IH]; simpl; [done|].
  unfold Ascii.compare. by rewrite N.compare_refl.
Qed.

Lemma ltb_irrefl (a : string) : String.ltb a a = false.
Proof. unfold String.ltb. by rewrite str_compare_refl. Qed.

Lemma ltb_false_le (a b : string) : String.ltb a b = false → str_le b a.
Proof.
  unfold String.ltb, str_le, String.leb. rewrite (String.compare_antisym b a).
  by destruct (String.compare a b).
Qed.

Lemma ltb_true_le (a b : string) : String.ltb a b = true → str_le a b.
Proof.
  unfold String.ltb, str_le, String.leb. by destruct (String.compare a b).
Qed.

Section StableSort.
Context {A : Type}.
Implicit Types (l : list (string * A)) (x : A) (k : string).

Lemma insert_by_key_perm kx x l : insert_by_key kx x l ≡ₚ (kx, x) :: l.
Proof.
  induction l as [|[ky y] l IH]; simpl; [done|].
  destruct (String.ltb ky kx); [|done].
  rewrite IH. apply Permutation_swap.
Qed.

Lemma stable_sort_perm l : stable_sort l ≡ₚ l.
Proof.
  induction l as [|[k x] l IH]; simpl; [done|].
  by rewrite insert_by_key_perm, IH.
Qed.

Lemma insert_by_key_hd kx x l (p : string * A) :
  keyed_le p (kx, x) → HdRel keyed_le p l → HdRel keyed_le p (insert_by_key kx x l).
Proof.
  intros Hp Hl. destruct l as [|[ky y] l]; simpl; [by constructor|].
  destruct (String.ltb ky kx); constructor; [|done].
  by inversion Hl.
Qed.

Lemma insert_by_key_sorted kx x l :
  Sorted keyed_le l → Sorted keyed_le (insert_by_key kx x l).
Proof.
  induction 1 as [|[ky y] l Hs IH Hhd]; simpl.
  - by repeat constructor.
  - destruct (String.ltb ky kx) eqn:Hlt.
    + constructor; [done|]. apply insert_by_key_hd; [|done].
      by apply ltb_true_le.
    + constructor; [by constructor|]. constructor. by apply ltb_false_le.
Qed.

Lemma stable_sort_sorted l : Sorted keyed_le (stable_sort l).
Proof.
  induction l as [|[k x] l IH]; simpl; [constructor|].
  by apply insert_by_key_sorted.
Qed.

(** Stability: the items that share a key keep their relative order. *)
Lemma insert_by_key_filter kx x l k :
  filter (λ p, p.1 = k) (insert_by_key kx x l) = filter (λ p, p.1 = k) ((kx, x) :: l).
Proof.
  induction l as [|[ky y] l IH]; simpl; [done|].
  destruct (String.ltb ky kx) eqn:Hlt; [|done].
  rewrite !filter_cons in *. simpl in *. rewrite IH.
  destruct (decide (ky = k)) as [->|Hky]; [|done].
  destruct (decide (kx = k)) as [->|Hkx]; [|done].
  by rewrite ltb_irrefl in Hlt.
Qed.

Lemma stable_sort_filter l k :
  filter (λ p, p.1 = k) (stable_sort l) = filter (λ p, p.1 = k) l.
Proof.
  induction l as [|[kx x] l IH]; simpl; [done|].
  rewrite insert_by_key_filter, !filter_cons. simpl. by rewrite IH.
Qed.

End StableSort.

Lemma mapM_res_Ok {A B : Type} (f : A → res B) (l : list A) (k : list B) :
  mapM_res f l = Ok k ↔ Forall2 (λ x y, f x = Ok y) l k.
Proof.
  revert k. induction l as [|x l IH]; intros k; simpl.
  - split; [intros [= <-]; constructor|by inversion 1].
  - rewrite bind_Ok. split.
    + intros (y & Hy & Hrun). apply bind_Ok in Hrun as (ys & Hys & [= <-]).
      constructor; [done|by apply IH].
    + inversion 1 as [|? y ? ys Hy Hys]; subst. exists y. split; [done|].
      apply IH in Hys. by rewrite Hys.
Qed.

Lemma mapM_M_pure {A B : Type} (f : A → M B) (g : SBOM → A → res B) (l : list A) (w : world) :
  (∀ x w, f x w = (g (w_sbom w) x, w)) →
  mapM_M f l w = (mapM_res (g (w_sbom w)) l, w).
Proof.
  intros Hf. induction l as [|x l IH]; simpl; [done|].
  unfold mbind at 1, M_bind. rewrite Hf.
  destruct (g (w_sbom w) x) as [y|e|]; simpl; [|done..].
  unfold mbind at 1, M_bind. rewrite IH.
  by destruct (mapM_res (g (w_sbom w)) l).
Qed.

Lemma sorted_by_label_pure (xs : list key) (w : world) :
  sorted_by_label xs w = (sorted_pure (w_sbom w) xs, w).
Proof.
  unfold sorted_by_label, sorted_pure. unfold mbind at 1, M_bind.
  rewrite (mapM_M_pure _ (λ s rid, k ← sort_key s rid; Ok (k, rid))).
  - by destruct (mapM_res _ xs).
  - intros x w0. unfold label_key, nodes_get, lift, sort_key, label_of.
    unfold mbind, M_bind. simpl. by destruct (py_lower _).
Qed.

Lemma Sorted_fmap_Forall {A B : Type} (R1 : relation A) (R2 : relation B)
    (P : A → Prop) (f : A → B) (l : list A) :
  (∀ p q, P p → P q → R1 p q → R2 (f p) (f q)) →
  Forall P l → Sorted R1 l → Sorted R2 (f <$> l).
Proof.
  intros HR HP Hs. induction Hs as [|p l Hs IH Hhd]; simpl; [constructor|].
  apply Forall_cons in HP as [Hp HP]. constructor; [by apply IH|].
  destruct Hhd as [|q l' Hpq]; simpl; constructor.
  apply Forall_cons in HP as [Hq _]. by apply HR.
Qed.

Lemma sorted_pure_spec (s : SBOM) (xs l : list key) :
  sorted_pure s xs = Ok l →
  l ≡ₚ xs ∧ Sorted (label_le s) l ∧
  ∀ k, filter (λ a, sort_key s a = Ok k) l = filter (λ a, sort_key s a = Ok k) xs.
Proof.
  unfold sorted_pure. intros (keyed & Hk & [= <-])%bind_Ok.
  apply mapM_res_Ok in Hk.
  assert (Hsnd : keyed.*2 = xs).
  { clear -Hk. induction Hk as [|x [k y] xs keyed Hx _ IH]; simpl; [done|].
    apply bind_Ok in Hx as (k' & _ & [= _ <-]). by f_equal. }
  assert (Hall : Forall (λ p, sort_key s p.2 = Ok p.1) keyed).
  { clear -Hk. induction Hk as [|x [k y] xs keyed Hx _ IH]; constructor; [|done].
    apply bind_Ok in Hx as (k' & Hk' & [= <- <-]). done. }
  assert (Hall' : Forall (λ p, sort_key s p.2 = Ok p.1) (stable_sort keyed)).
  { by rewrite stable_sort_perm. }
  assert (Hfil : ∀ k (kl : list (string * key)), Forall (λ p, sort_key s p.2 = Ok p.1) kl →
            filter (λ a, sort_key s a = Ok k) kl.*2 = (filter (λ p, p.1 = k) kl).*2).
  { intros k kl. induction 1 as [|[kp a] kl Hp _ IH]; [done|].
    simpl in Hp. rewrite fmap_cons, !filter_cons. simpl. rewrite IH, Hp.
    destruct (decide (kp = k)) as [->|Hne].
    - by rewrite decide_True.
    - rewrite decide_False; [done|]. by intros [= ->]. }
  split_and!.
  - by rewrite stable_sort_perm, Hsnd.
  - eapply Sorted_fmap_Forall; [|exact Hall'|apply stable_sort_sorted].
    intros [kp a] [kq b] Hp Hq Hle. simpl in *. by exists kp, kq.
  - intros k. rewrite (Hfil k _ Hall'), stable_sort_filter, <- (Hfil k _ Hall).
    by rewrite Hsnd.
Qed.

Section ChildOrder.
Context `{Runtime}.

Lemma children_of_pure (node : key) (w : world) :
  children_of node w =
  (sorted_pure (w_sbom w) (set_order (default ∅ (edges (w_sbom w) !! node))), w).
Proof.
  unfold children_of, edges_get. unfold mbind, M_bind.
  by rewrite sorted_by_label_pure.
Qed.

Lemma build_forest_default (w : world) (start_ids : option (list key)) :
  start_ids = None ∨ start_ids = Some [] →
  build_forest start_ids w = (sorted_pure (w_sbom w) (set_order (roots (w_sbom w))), w).
Proof.
  intros [->| ->]; unfold build_forest, roots_get; unfold mbind, M_bind;
    by rewrite sorted_by_label_pure.
Qed.



End ChildOrder.

(** ** Termination of the traversals *)

Lemma returns_bind {A B : Type} (s : SBOM) (m : M A) (f : A → M B) (w : world) :
  frame m → w_sbom w = s → returns m w →
  (∀ a w', w_sbom w' = s → m w = (Ok a, w') → returns (f a) w') →
  returns (m ≫= f) w.
Proof.
  intros Hfr Hw Hm Hf. unfold returns, mbind, M_bind in *.
  specialize (Hfr w). destruct (m w) as [[a|e|] w'] eqn:Hmw; simpl in *; [|done..].
  apply Hf; [congruence|done].
Qed.

Lemma returns_ret {A : Type} (a : A) (w : world) : returns (mret a) w.
Proof. done. Qed.

Lemma returns_print (l : string) (w : world) : returns (print l) w.
Proof. done. Qed.

Lemma returns_lift {A : Type} (r : res A) (w : world) : r ≠ OutOfFuel → returns (lift r) w.
Proof. done. Qed.

Lemma returns_for_each {A : Type} (s : SBOM) (l : list A) (body : A → M unit) (w : world) :
  (∀ x, frame (body x)) → w_sbom w = s →
  (∀ x w', x ∈ l → w_sbom w' = s → returns (body x) w') →
  returns (for_each l body) w.
Proof.
  intros Hfr. revert w. induction l as [|x l IH]; intros w Hw Hb; simpl; [done|].
  eapply returns_bind; [apply Hfr|exact Hw|apply Hb; [by left|done]|].
  intros _ w' Hw' _. apply IH; [done|]. intros y w'' Hy. apply Hb. by right.
Qed.

Lemma returns_mapM_M {A B : Type} (s : SBOM) (l : list A) (f : A → M B) (w : world) :
  (∀ x, frame (f x)) → w_sbom w = s →
  (∀ x w', x ∈ l → w_sbom w' = s → returns (f x) w') →
  returns (mapM_M f l) w.
Proof.
  intros Hfr. revert w. induction l as [|x l IH]; intros w Hw Hb; simpl; [done|].
  eapply returns_bind; [apply Hfr|exact Hw|apply Hb; [by left|done]|].
  intros y w' Hw' _.
  eapply returns_bind; [by apply frame_mapM_M|exact Hw'| |done].
  apply IH; [done|]. intros z w'' Hz. apply Hb. by right.
Qed.

Lemma str_add_plain a v : str_add a v ≠ OutOfFuel.
Proof. by destruct v. Qed.

Lemma add_str_plain v b : add_str v b ≠ OutOfFuel.
Proof. by destruct v. Qed.

Lemma mapM_res_plain {A B : Type} (f : A → res B) (l : list A) :
  (∀ x, f x ≠ OutOfFuel) → mapM_res f l ≠ OutOfFuel.
Proof.
  intros Hf. induction l as [|x l IH]; simpl; [done|].
  specialize (Hf x). destruct (f x); simpl; [|done..].
  by destruct (mapM_res f l).
Qed.

Lemma sorted_pure_plain s xs : sorted_pure s xs ≠ OutOfFuel.
Proof.
  unfold sorted_pure.
  pose proof (mapM_res_plain (λ rid, k ← sort_key s rid; Ok (k, rid)) xs) as Hm.
  destruct (mapM_res _ xs); simpl; [done|done|]. exfalso. apply Hm; [|done].
  intros x. unfold sort_key. by destruct (label_of s x).
Qed.

Lemma enumerate_nonempty {A : Type} (l : list A) (p : nat * A) :
  p ∈ enumerate l → l ≠ [].
Proof. intros Hp ->. by apply elem_of_nil in Hp. Qed.

Section Termination.
Context `{Runtime}.

Lemma set_order_empty : set_order ∅ = [].
Proof.
  apply Permutation_nil_r. by rewrite set_order_perm, elements_empty.
Qed.

(** A node has children to visit only if it is a key of the edge map. *)
Lemma children_of_Ok (node : key) (w w' : world) (l : list key) :
  children_of node w = (Ok l, w') →
  w' = w ∧ (l ≠ [] → node ∈ dom (edges (w_sbom w))).
Proof.
  rewrite children_of_pure. intros [= Hs <-]. split; [done|].
  intros Hl. apply elem_of_dom. destruct (edges (w_sbom w) !! node); [eauto|].
  simpl in Hs. rewrite set_order_empty in Hs. by injection Hs as <-.
Qed.

Lemma returns_children_of (node : key) (w : world) : returns (children_of node) w.
Proof. unfold returns. rewrite children_of_pure. apply sorted_pure_plain. Qed.

Lemma descent_measure (D seen : gset key) (node : key) (fuel : nat) :
  node ∈ D → node ∉ seen → size (D ∖ seen) < S fuel →
  size (D ∖ (seen ∪ {[node]})) < fuel.
Proof.
  intros Hin Hout Hlt.
  assert (D ∖ (seen ∪ {[node]}) ⊂ D ∖ seen) as Hsub%subset_size by set_solver.
  lia.
Qed.

(** With fuel above the number of edge-map keys that are not yet on the
    path, [render] comes back. *)
Lemma render_returns (s : SBOM) (fuel : nat) show_ids max_depth include_dupes :
  ∀ node prefix seen last depth w,
    w_sbom w = s →
    size (dom (edges s) ∖ seen) < fuel →
    returns (render fuel show_ids max_depth include_dupes node prefix seen last depth) w.
Proof.
  induction fuel as [|fuel IH]; intros node prefix seen last depth w Hw Hfuel; [lia|].
  simpl.
  eapply returns_bind; [apply frame_nodes_get|exact Hw|done|].
  intros label w1 Hw1 _.
  eapply returns_bind; [apply frame_lift|exact Hw1|apply returns_lift, str_add_plain|].
  intros line w2 Hw2 _.
  eapply returns_bind; [apply frame_print|exact Hw2|done|].
  intros _ w3 Hw3 _.
  destruct (at_limit max_depth depth); [done|].
  case_bool_decide as Hseen; [done|].
  eapply returns_bind; [apply frame_children_of|exact Hw3|apply returns_children_of|].
  intros children w4 Hw4 Hch. apply children_of_Ok in Hch as [-> Hdom].
  eapply returns_for_each; [|exact Hw3|].
  { intros [i child]. solve_frame. apply frame_render. }
  intros [i child] w5 Hin Hw5.
  eapply returns_bind; [apply frame_visited_mem|exact Hw5|done|].
  intros dup w6 Hw6 _.
  destruct (negb include_dupes && dup).
  - eapply returns_bind; [apply frame_nodes_get|exact Hw6|done|].
    intros lbl w7 Hw7 _.
    eapply returns_bind; [apply frame_lift|exact Hw7|apply returns_lift, str_add_plain|].
    intros ref_line w8 Hw8 _. done.
  - eapply returns_bind; [apply frame_visited_add|exact Hw6|done|].
    intros _ w7 Hw7 _. apply IH; [done|].
    apply descent_measure; [|done..].
    rewrite <- Hw3. apply Hdom. by eapply enumerate_nonempty.
Qed.

Lemma make_node_returns (s : SBOM) (fuel : nat) :
  ∀ node seen w,
    w_sbom w = s →
    size (dom (edges s) ∖ seen) < fuel →
    returns (make_node fuel node seen) w.
Proof.
  induction fuel as [|fuel IH]; intros node seen w Hw Hfuel; [lia|].
  simpl.
  eapply returns_bind; [apply frame_nodes_get|exact Hw|done|].
  intros label w1 Hw1 _.
  case_bool_decide as Hseen.
  - eapply returns_bind; [apply frame_lift|exact Hw1|apply returns_lift, add_str_plain|].
    done.
  - eapply returns_bind; [apply frame_children_of|exact Hw1|apply returns_children_of|].
    intros kids w2 Hw2 Hch. apply children_of_Ok in Hch as [-> Hdom].
    eapply returns_bind; [|exact Hw1| |done].
    { apply frame_mapM_M. intros x. apply frame_make_node. }
    eapply returns_mapM_M; [intros x; apply frame_make_node|exact Hw1|].
    intros k w3 Hk Hw3. apply IH; [done|].
    apply descent_measure; [|done..].
    rewrite <- Hw1. apply Hdom. intros ->. by apply elem_of_nil in Hk.
Qed.

Lemma fuel_enough (s : SBOM) : size (dom (edges s) ∖ ∅) < S (size (edges s)).
Proof.
  rewrite difference_empty_L, size_dom. lia.
Qed.

Lemma ascii_trees_returns roots show_ids max_depth include_dupes (w : world) :
  returns (ascii_trees roots show_ids max_depth include_dupes) w.
Proof.
  unfold ascii_trees.
  eapply (returns_bind (w_sbom w)); [apply frame_visited_new|done|done|].
  intros _ w1 Hw1 _.
  eapply (returns_bind (w_sbom w)); [apply frame_edges_len|exact Hw1|done|].
  intros n w2 Hw2 Hn. unfold edges_len in Hn. injection Hn as <- _. rewrite Hw1.
  eapply (returns_for_each (w_sbom w)); [|exact Hw2|].
  { intros r. solve_frame. apply frame_render. }
  intros r w3 _ Hw3.
  eapply (returns_bind (w_sbom w));
    [apply frame_render|exact Hw3| |intros; apply returns_print].
  apply (render_returns (w_sbom w)); [done|]. apply fuel_enough.
Qed.

Lemma to_d3_tree_returns roots (w : world) : returns (to_d3_tree roots) w.
Proof.
  unfold to_d3_tree.
  eapply (returns_bind (w_sbom w)); [apply frame_edges_len|done|done|].
  intros n w1 Hw1 Hn. unfold edges_len in Hn. injection Hn as <- _.
  assert (Hone : ∀ r w', w_sbom w' = w_sbom w →
            returns (make_node (S (size (edges (w_sbom w)))) r ∅) w').
  { intros r w' Hw'. apply (make_node_returns (w_sbom w)); [done|apply fuel_enough]. }
  assert (Hall : ∀ rs,
            returns (cs ← mapM_M (λ r, make_node (S (size (edges (w_sbom w)))) r ∅) rs;
                     mret (D3 (JStr "SBOM Roots") cs)) w1).
  { intros rs. eapply (returns_bind (w_sbom w)); [|done| |done].
    - apply frame_mapM_M. intros x. apply frame_make_node.
    - eapply (returns_mapM_M (w_sbom w)); [intros x; apply frame_make_node|done|].
      intros r w' _ Hw'. by apply Hone. }
  destruct roots as [|r [|r' roots]]; [apply Hall|by apply Hone|apply Hall].
Qed.

End Termination.

Section TerminationClaim.
Context `{Runtime}.

(** Entered on a node that is not on the ancestor path, below the depth
    limit, [render] prints the node's line and runs [render_child] on the
    node's children in turn. *)
Lemma render_enters (fuel : nat) show_ids max_depth include_dupes node prefix seen last depth
    line (w : world) :
  node ∉ seen → at_limit max_depth depth = false →
  str_add (prefix ++ tee depth)
    (node_text show_ids (label_of (w_sbom w) node) node) = Ok line →
  render (S fuel) show_ids max_depth include_dupes node prefix seen last depth w =
  (children ← children_of node;
   for_each (enumerate children)
     (render_child fuel show_ids max_depth include_dupes prefix (seen ∪ {[node]}) last depth
        children))
    (mkWorld (w_sbom w) (w_visited w) (w_out w ++ [line])).
Proof.
  intros Hseen Hlim Hline. simpl.
  unfold mbind at 1, M_bind. unfold nodes_get at 1. fold (label_of (w_sbom w) node).
  unfold mbind at 1, M_bind. unfold lift at 1. rewrite Hline.
  unfold mbind at 1, M_bind. unfold print at 1.
  rewrite Hlim, (bool_decide_eq_false_2 _ Hseen). reflexivity.
Qed.

(** With duplicates collapsed, a child that is in the visited set gets its
    "(seen)" line and nothing else happens. *)
Lemma render_child_seen (fuel : nat) show_ids max_depth prefix seen last depth children
    (i : nat) (child : key) (ref_line : string) (w : world) :
  child ∈ w_visited w →
  str_add ((prefix ++ indent last) ++ "+-- ") (label_of (w_sbom w) child) = Ok ref_line →
  render_child fuel show_ids max_depth false prefix seen last depth children (i, child) w =
  (Ok tt, mkWorld (w_sbom w) (w_visited w) (w_out w ++ [ref_line ++ "  (seen)"])).
Proof.
  intros Hvis Hline. unfold render_child.
  unfold mbind at 1, M_bind. unfold visited_mem at 1.
  rewrite (bool_decide_eq_true_2 _ Hvis). simpl.
  unfold mbind at 1, M_bind. unfold nodes_get at 1. fold (label_of (w_sbom w) child).
  unfold mbind at 1, M_bind. unfold lift at 1. by rewrite Hline.
Qed.

(** C3, as the code has it. On every graph, cyclic or not, the ASCII
    renderer and the tree-structure builder come back, with the fuel the
    entry points give them. Below a node that is already on the ancestor
    path neither recurses: the tree builder returns a childless node whose
    name carries the cycle mark; [render] prints the node's line and then
    the "(cycle)" line, unless the depth limit is reached, in which case it
    prints the node's line alone. And [render] is not entered on every
    reference to an ancestor: entered on a node that is not on the path,
    below the limit, it prints the node's line and runs the loop body
    [render_child] on the children; with duplicates collapsed, that body
    prints for a child in the visited set, ancestor or not, the "(seen)"
    line and does nothing else, whatever fuel the recursive call would
    have had, none included. *)
Theorem traversals_terminate (w : world) :
  (∀ roots show_ids max_depth include_dupes,
     returns (ascii_trees roots show_ids max_depth include_dupes) w) ∧
  (∀ roots, returns (to_d3_tree roots) w) ∧
  (∀ fuel node seen lbl,
     node ∈ seen → label_of (w_sbom w) node = JStr lbl →
     make_node (S fuel) node seen w = (Ok (D3 (JStr (lbl ++ cycle_mark)) []), w)) ∧
  (∀ fuel show_ids max_depth include_dupes node prefix seen last depth line,
     node ∈ seen →
     str_add (prefix ++ tee depth)
       (node_text show_ids (label_of (w_sbom w) node) node) = Ok line →
     render (S fuel) show_ids max_depth include_dupes node prefix seen last depth w =
     (Ok tt, mkWorld (w_sbom w) (w_visited w)
               (w_out w ++ [line] ++
                if at_limit max_depth depth then [] else [cycle_line prefix last]))) ∧
  (∀ fuel show_ids max_depth include_dupes node prefix seen last depth line,
     node ∉ seen → at_limit max_depth depth = false →
     str_add (prefix ++ tee depth)
       (node_text show_ids (label_of (w_sbom w) node) node) = Ok line →
     render (S fuel) show_ids max_depth include_dupes node prefix seen last depth w =
     (children ← children_of node;
      for_each (enumerate children)
        (render_child fuel show_ids max_depth include_dupes prefix (seen ∪ {[node]}) last
           depth children))
       (mkWorld (w_sbom w) (w_visited w) (w_out w ++ [line]))) ∧
  (∀ fuel show_ids max_depth prefix seen last depth children i child ref_line,
     child ∈ w_visited w →
     str_add ((prefix ++ indent last) ++ "+-- ") (label_of (w_sbom w) child) = Ok ref_line →
     render_child fuel show_ids max_depth false prefix seen last depth children (i, child) w =
     (Ok tt, mkWorld (w_sbom w) (w_visited w) (w_out w ++ [ref_line ++ "  (seen)"]))).
Proof.
  split_and!; [| | | |intros; by apply render_enters|intros; by apply render_child_seen].
  - intros. apply ascii_trees_returns.
  - intros. apply to_d3_tree_returns.
  - intros fuel node seen lbl Hseen Hlbl. simpl.
    unfold mbind, M_bind, nodes_get. fold (label_of (w_sbom w) node). rewrite Hlbl.
    by rewrite (bool_decide_eq_true_2 _ Hseen).
  - intros fuel show_ids max_depth include_dupes node prefix seen last depth line Hseen Hline.
    simpl. unfold mbind, M_bind, nodes_get. fold (label_of (w_sbom w) node).
    unfold lift. rewrite Hline. simpl.
    destruct (at_limit max_depth depth); simpl; [done|].
    rewrite (bool_decide_eq_true_2 _ Hseen). unfold print. simpl.
    by rewrite <- app_assoc.
Qed.

End TerminationClaim.

(** ** The claims on concrete inputs *)

Lemma scenario_B_normalised : @_from_cyclonedx example_runtime scenario_B = Ok scenario_B_graph.
Proof. vm_compute. reflexivity. Qed.

Lemma declared_root_overrides_witness :
  declared_root scenario_B = Ok (JStr "root") ∧
  roots scenario_B_graph = {[KStr "root"]} ∧
  ∀ b, has_edge scenario_B_graph (KStr "root") b →
       ¬ (∃ a, has_edge scenario_B_graph a b) ∨ b = KStr "a".
Proof.
  assert (H1 : declared_root scenario_B = Ok (JStr "root")) by reflexivity.
  destruct (@declared_root_overrides example_runtime scenario_B (JStr "root")
              scenario_B_graph H1 eq_refl scenario_B_normalised)
    as (r & s4 & Hk & Hb & Hr & _).
  injection Hk as <-. split; [exact H1|]. split; [exact Hr|].
  intros b (kids & Hkids & Hin). right.
  assert (Hroot : edges scenario_B_graph !! KStr "root" = Some {[KStr "a"]})
    by (vm_compute; reflexivity).
  rewrite Hroot in Hkids. injection Hkids as <-.
  apply elem_of_singleton in Hin. exact Hin.
Defined.


Lemma normalised_graph_invariants_witness :
  edges_closed scenario_B_graph ∧ roots_closed scenario_B_graph.
Proof.
  destruct (@normalised_graph_invariants example_runtime scenario_B scenario_B_graph
              (or_introl scenario_B_normalised)) as (Hec & Hrc & _).
  split; [exact Hec|exact Hrc].
Defined.

Lemma idless_doc_normalised : @_from_cyclonedx example_runtime idless_doc = Ok idless_graph.
Proof. vm_compute. reflexivity. Qed.

Lemma fallback_keeps_idless_component_witness :
  nodes idless_graph !! KNone = Some JNull ∧ has_edge idless_graph KNone (KStr "x").
Proof.
  assert (Hin : idless_component ∈ [idless_component]) by (apply list_elem_of_here).
  assert (Hne : [JStr "x"] ≠ []) by discriminate.
  destruct (@fallback_keeps_idless_component example_runtime idless_doc new_SBOM
              (JList [idless_component]) JNull [idless_component] idless_component
              [JStr "x"] idless_graph
              eq_refl eq_refl eq_refl Hin eq_refl eq_refl eq_refl eq_refl eq_refl Hne
              idless_doc_normalised)
    as (_ & Hnode & Hedges).
  split; [exact Hnode|].
  destruct (Hedges (JStr "x")) as (k & Hk & He); [apply list_elem_of_here|].
  injection Hk as <-. exact He.
Defined.

(** C3, as stated, fails in the ASCII renderer. With a depth limit of 2 the
    walk of a -> b -> a from a enters a again, on its own path, and prints
    no "(cycle)" line; without the limit, in r -> a -> b -> a, the second
    reference to a, an ancestor, is printed as "(seen)", not as a cycle. *)
Lemma cycle_marker_not_emitted :
  (let r := @ascii_trees example_runtime [KStr "a"] false (Some 2%Z) false (start two_cycle) in
   r.1 = Ok tt ∧
   w_out r.2 = ["a"; "    +-- b"; "        +-- a"; ""] ∧
   cycle_line "        " true ∉ w_out r.2) ∧
  (let r := @ascii_trees example_runtime [KStr "r"] false None false (start inner_cycle) in
   r.1 = Ok tt ∧
   w_out r.2 = ["r"; "    +-- a"; "        +-- b"; "            +-- a  (seen)"; ""] ∧
   cycle_line "            " true ∉ w_out r.2).
Proof.
  split; cbv zeta; (split_and!; [vm_compute; reflexivity..|]);
    apply (bool_decide_unpack _); vm_compute; exact I.
Qed.


(** C5 at its failing input: the roots r and q are requested, q depends on
    r. r is rendered as the first root and is not marked in
    [visited_global]; reached again as a child of the second root q, off the
    ancestor path, it is expanded once more instead of being printed as a
    "(seen)" reference. *)
Lemma root_expanded_again :
  @from_json example_runtime shared_root_doc = Ok shared_root ∧
  (@build_forest example_runtime (Some [KStr "r"; KStr "q"]) (start shared_root)).1
    = Ok [KStr "r"; KStr "q"] ∧
  w_visited (@ascii_trees example_runtime [KStr "r"] false None false (start shared_root)).2
    = {[KStr "x"]} ∧
  (let r := @ascii_trees example_runtime [KStr "r"; KStr "q"] false None false
              (start shared_root) in
   r.1 = Ok tt ∧
   w_out r.2 = ["r"; "    +-- x"; ""; "q"; "    +-- r"; "        +-- x  (seen)"; ""]).
Proof.
  split_and!; [vm_compute; reflexivity..|]. cbv zeta. split; vm_compute; reflexivity.
Qed.

(** ** Counting nodes and edges of a CycloneDX graph *)

Lemma edge_set_spec (s : SBOM) (a b : key) : (a, b) ∈ edge_set s ↔ has_edge s a b.
Proof.
  unfold edge_set, has_edge. rewrite elem_of_union_list. split.
  - intros (X & HX & Hab). apply list_elem_of_fmap in HX as ([a' kids] & -> & Hin).
    apply elem_of_map_to_list in Hin. simpl in Hab.
    apply elem_of_map in Hab as (b' & [= <- <-] & Hb). eauto.
  - intros (kids & Hk & Hb). exists (set_map (λ b, (a, b)) kids). split.
    + apply list_elem_of_fmap. exists (a, kids). split; [done|].
      by apply elem_of_map_to_list.
    + apply elem_of_map. eauto.
Qed.

(** A loop whose turns each add what they contribute adds the
    contributions of all its items. *)
Lemma foldM_accum {A X : Type} (obs : SBOM → X → Prop) (c : A → X → Prop)
    (body : SBOM → A → res SBOM) (l : list A) :
  (∀ t x t', body t x = Ok t' → ∀ e, obs t' e ↔ obs t e ∨ c x e) →
  ∀ s s', foldM body s l = Ok s' → ∀ e, obs s' e ↔ obs s e ∨ ∃ x, x ∈ l ∧ c x e.
Proof.
  intros Hb. induction l as [|x l IH]; intros s s' Hrun e; simpl in Hrun.
  - injection Hrun as <-. split; [by left|]. intros [?|(x & Hx & _)]; [done|].
    by apply elem_of_nil in Hx.
  - apply bind_Ok in Hrun as (t & Hx & Hrun).
    rewrite (IH _ _ Hrun e), (Hb _ _ _ Hx e). split.
    + intros [[?|?]|(y & Hy & ?)]; [by left|right..].
      * exists x. split; [by left|done].
      * exists y. split; [by right|done].
    + intros [?|(y & Hy & Hc)]; [by left; left|].
      apply elem_of_cons in Hy as [->|Hy]; [by left; right|].
      right. eauto.
Qed.

Lemma get_unique (v : json) (k : string) (a b : json) :
  get v k = Ok a → get v k = Ok b → a = b.
Proof. congruence. Qed.

Section Counting.
Context `{Runtime}.

Lemma cx_child_step_adds (ref child : json) (a : key) (s s' : SBOM) :
  key_of ref = Ok a →
  cx_child_step ref s child = Ok s' →
  (∀ x y, has_edge s' x y ↔
          has_edge s x y ∨ (x = a ∧ truthy child = true ∧ key_of child = Ok y)) ∧
  (∀ k, k ∈ dom (nodes s') ↔
        k ∈ dom (nodes s) ∨ (truthy child = true ∧ key_of child = Ok k)).
Proof.
  intros Ha. unfold cx_child_step. destruct (truthy child) eqn:Ht.
  - intros (s1 & H1 & H2)%bind_Ok.
    apply nodes_setdefault_facts in H1 as (k & Hk & He1 & _ & _ & Hd1 & _).
    apply edges_add_Ok in H2 as (a' & k' & Ha' & Hk' & ->).
    assert (a' = a) as -> by congruence. assert (k' = k) as -> by congruence.
    split.
    + intros x y. rewrite has_edge_insert_union. unfold has_edge. rewrite He1.
      split; (intros [?|Hr]; [by left|right]).
      * destruct Hr as [-> ->]. done.
      * destruct Hr as (-> & _ & Hy). split; [done|congruence].
    + intros j. simpl. rewrite Hd1, elem_of_union, elem_of_singleton.
      split; (intros [?|Hr]; [by left|right]).
      * by subst.
      * destruct Hr as [_ Hr]. congruence.
  - intros [= <-]. split; intros; split; try (by left); by intros [?|(? & ? & ?)] || intros [?|[? ?]].
Qed.

Lemma cx_dep_step_adds (dep : json) (s s' : SBOM) :
  cx_dep_step s dep = Ok s' →
  (∀ x y, has_edge s' x y ↔ has_edge s x y ∨ (dep_ref dep x ∧ dep_child dep y)) ∧
  (∀ k, k ∈ dom (nodes s') ↔
        k ∈ dom (nodes s) ∨ dep_ref dep k ∨ ((∃ a, dep_ref dep a) ∧ dep_child dep k)).
Proof.
  unfold cx_dep_step. intros (ref & Href & Hrun)%bind_Ok.
  destruct (truthy ref) eqn:Ht.
  - apply bind_Ok in Hrun as (s1 & H1 & Hrun).
    apply bind_Ok in Hrun as (d & Hd & Hrun).
    apply bind_Ok in Hrun as (kids & Hkids & Hrun).
    apply nodes_setdefault_facts in H1 as (a & Ha & He1 & _ & _ & Hd1 & _).
    assert (Hrefa : ∀ x, dep_ref dep x ↔ x = a).
    { intros x. split.
      - intros (ref' & Hr' & _ & Hx). rewrite (get_unique _ _ _ _ Hr' Href) in Hx. congruence.
      - intros ->. by exists ref. }
    assert (Hch : ∀ y, dep_child dep y ↔
              ∃ child, child ∈ kids ∧ truthy child = true ∧ key_of child = Ok y).
    { intros y. split.
      - intros (d' & kids' & child & Hd' & Hk' & Hin & Htc & Hy).
        rewrite (get_unique _ _ _ _ Hd' Hd) in Hk'.
        assert (kids' = kids) as -> by congruence. eauto.
      - intros (child & Hin & Htc & Hy). by exists d, kids, child. }
    pose proof (foldM_accum (λ t (p : key * key), has_edge t p.1 p.2)
                  (λ child (p : key * key),
                     p.1 = a ∧ truthy child = true ∧ key_of child = Ok p.2)
                  (cx_child_step ref) kids
                  (λ t x t' Hx e, proj1 (cx_child_step_adds ref x a t t' Ha Hx) e.1 e.2)
                  _ _ Hrun) as Hedges.
    pose proof (foldM_accum (λ t k, k ∈ dom (nodes t))
                  (λ child k, truthy child = true ∧ key_of child = Ok k)
                  (cx_child_step ref) kids
                  (λ t x t' Hx, proj2 (cx_child_step_adds ref x a t t' Ha Hx))
                  _ _ Hrun) as Hnodes.
    split.
    + intros x y. rewrite (Hedges (x, y)). simpl.
      assert (has_edge s1 x y ↔ has_edge s x y) as -> by (unfold has_edge; by rewrite He1).
      rewrite Hrefa, Hch. split; (intros [?|Hr]; [by left|right]).
      * destruct Hr as (child & Hin & -> & ? & ?). eauto.
      * destruct Hr as (-> & child & ? & ? & ?). eauto.
    + intros k. rewrite (Hnodes k), Hd1, elem_of_union, elem_of_singleton, Hrefa, Hch.
      split.
      * intros [[?|?]|(child & ? & ? & ?)]; [by left|by right; left|].
        right; right. split; [exists a; by apply Hrefa|eauto].
      * intros [?|[?|[_ (child & ? & ? & ?)]]]; [by left; left|by left; right|].
        right. eauto.
  - injection Hrun as <-.
    assert (Hno : ∀ x, ¬ dep_ref dep x).
    { intros x (ref' & Hr' & Ht' & _). rewrite (get_unique _ _ _ _ Hr' Href) in Ht'.
      congruence. }
    split.
    + intros x y. split; [by left|]. intros [?|[Hr _]]; [done|]. by apply Hno in Hr.
    + intros k. split; [by left|].
      intros [?|[Hr|[[a Hr] _]]]; [done|by apply Hno in Hr..].
Qed.

Lemma cx_component_step_adds (c : json) (s s' : SBOM) :
  cx_component_step s c = Ok s' →
  ∀ k, k ∈ dom (nodes s') ↔ k ∈ dom (nodes s) ∨ component_id c k.
Proof.
  unfold cx_component_step, component_id. intros (cid & Hcid & Hrun)%bind_Ok k.
  destruct (truthy cid) eqn:Ht.
  - apply bind_Ok in Hrun as (lbl & _ & Hrun).
    apply nodes_setitem_facts in Hrun as (j & Hj & _ & _ & ->).
    rewrite dom_insert_L, elem_of_union, elem_of_singleton. split.
    + intros [->|?]; [right; eauto|by left].
    + intros [?|(v & Hv & _ & Hk)]; [by right|left]. congruence.
  - injection Hrun as <-. split; [by left|].
    intros [?|(v & Hv & Htv & _)]; [done|]. congruence.
Qed.

Lemma cx_metadata_adds (obj : json) (s s' : SBOM) (rid : json) :
  cx_metadata obj s = Ok (s', rid) →
  ∀ k, k ∈ dom (nodes s') ↔
       k ∈ dom (nodes s) ∨ (truthy rid = true ∧ key_of rid = Ok k).
Proof.
  unfold cx_metadata. intros (m & Hm & Hrun)%bind_Ok k.
  apply bind_Ok in Hrun as (mc & Hmc & Hrun).
  destruct (truthy mc).
  - apply bind_Ok in Hrun as (r & Hr & Hrun). destruct (truthy r) eqn:Ht.
    + apply bind_Ok in Hrun as (lbl & _ & Hrun).
      apply bind_Ok in Hrun as (s1 & H1 & Hrun).
      apply bind_Ok in Hrun as (s2 & H2 & [= <- <-]).
      apply nodes_setdefault_facts in H1 as (j & Hj & _ & _ & _ & Hd1 & _).
      apply roots_add_Ok in H2 as (j' & _ & ->). simpl.
      rewrite Hd1, elem_of_union, elem_of_singleton, Ht.
      split; (intros [?|Hk]; [by left|right]); [subst; done|].
      destruct Hk as [_ Hk]. congruence.
    + injection Hrun as <- <-. rewrite Ht. split; [by left|by intros [?|[? _]]].
  - injection Hrun as <- <-. simpl. split; [by left|by intros [?|[? _]]].
Qed.

End Counting.

Lemma size_set_map_pair (r : key) (T : gset key) :
  size (set_map (C:=gset key) (D:=gset (key * key)) (λ t, (r, t)) T) = size T.
Proof.
  induction T as [|t T Ht IH] using set_ind_L.
  - by rewrite set_map_empty, !size_empty.
  - rewrite set_map_union_L, set_map_singleton_L.
    rewrite !size_union, !size_singleton, IH; [done|set_solver|].
    intros p Hp Hq. apply elem_of_singleton in Hp as ->.
    apply elem_of_map in Hq as (t' & [= <-] & Ht'). done.
Qed.

Lemma component_ids_listed (cl : list json) (ids : list key) (k : key) :
  Forall2 component_id cl ids →
  (∃ c, c ∈ cl ∧ component_id c k) ↔ k ∈ ids.
Proof.
  induction 1 as [|c j cl ids Hc _ IH].
  - split; [intros (c & Hc & _); by apply elem_of_nil in Hc|by intros ?%elem_of_nil].
  - rewrite elem_of_cons, <- IH. split.
    + intros (c' & [->|Hin]%elem_of_cons & Hk); [left|right; eauto].
      destruct Hc as (v & Hv & _ & Hj), Hk as (v' & Hv' & _ & Hk). congruence.
    + intros [->|(c' & Hin & Hk)].
      * exists c. split; [by left|done].
      * exists c'. split; [by right|done].
Qed.

Section CountingWhole.
Context `{Runtime}.

(** Components without an inline [dependencies] list give the fallback
    nothing to add. *)
Lemma cx_fallback_nothing (comps : json) (cl : list json) (s s' : SBOM) :
  py_iter comps = Ok cl →
  Forall (λ c, get c "dependencies" = Ok JNull) cl →
  cx_fallback comps s = Ok s' → s' = s.
Proof.
  intros Hcl Hall. unfold cx_fallback. destruct (_ && _); [|by intros [= <-]].
  rewrite Hcl. simpl. intros Hrun.
  eapply (foldM_inv (λ t, t = s)); [| |exact Hrun]; [|done].
  intros t c t' Hc -> Hstep. rewrite Forall_forall in Hall. specialize (Hall c Hc).
  unfold cx_inline_step in Hstep. apply bind_Ok in Hstep as (src & _ & Hstep).
  rewrite Hall in Hstep. simpl in Hstep. by injection Hstep as <-.
Qed.

(** The edges of the normalised graph: those of the graph built from the
    document, and, for a declared root without an edge of its own, one edge
    to every edge source that is no edge's target. *)
Lemma from_cyclonedx_edges (obj : json) (s4 : SBOM) (rid : json) (s : SBOM) :
  cx_build obj = Ok (s4, rid) →
  _from_cyclonedx obj = Ok s →
  nodes s = nodes s4 ∧
  ∀ a b, has_edge s a b ↔
         has_edge s4 a b ∨
         (truthy rid = true ∧ key_of rid = Ok a ∧ ¬ (∃ c, has_edge s4 a c) ∧
          (∃ c, has_edge s4 b c) ∧ ¬ (∃ c, has_edge s4 c b)).
Proof.
  intros Hb (s4' & rid' & s5 & Hb' & Hr & Ha)%from_cyclonedx_Ok.
  rewrite Hb in Hb'. injection Hb' as <- <-.
  pose proof (cx_build_nonempty _ _ _ Hb) as Hne.
  pose proof (cx_build_inv _ _ _ Hb) as (s2 & comps & _ & (_ & _ & Hdecl) & _ & Hg).
  apply grows_dom in Hg.
  apply cx_roots_facts in Hr as (Hn5 & He5 & _).
  apply cx_attach_facts in Ha as (Hn & _ & He).
  split; [congruence|]. intros a b.
  assert (Hall : all_children s5 = all_children s4)
    by (unfold all_children; by rewrite He5).
  assert (Htop : ∀ top, top ≡ₚ filter (λ r, r ∉ all_children s5) (elements (dom (edges s5))) →
            b ∈ top ↔ (∃ c, has_edge s4 b c) ∧ ¬ (∃ c, has_edge s4 c b)).
  { intros top ->. rewrite list_elem_of_filter, elem_of_elements, He5, Hall.
    rewrite all_children_spec, edges_nonempty_dom by done. tauto. }
  destruct He as [[He Hnil]|(k & top & Ht & Hk & Hin & Hout & Hperm & _ & He)].
  - unfold has_edge at 1. rewrite He, He5. fold (has_edge s4 a b).
    split; [by left|]. intros [?|(Ht & Hk & Hno & Hb1 & Hb2)]; [done|exfalso].
    rewrite Ht in Hdecl. destruct Hdecl as (r & Hr & Hrin & _).
    assert (r = a) as -> by congruence.
    assert (Hempty : filter (λ r, r ∉ all_children s5) (elements (dom (edges s5))) = []).
    { apply (Hnil a Ht Hk); [rewrite Hn5; set_solver|].
      rewrite He5, edges_nonempty_dom by done. exact Hno. }
    assert (b ∈ @nil key) as Hbad%elem_of_nil; [|done].
    rewrite <- Hempty. apply (Htop _ (reflexivity _)). done.
  - rewrite He5 in Hout. unfold has_edge at 1. rewrite He, He5.
    destruct (decide (a = k)) as [->|Hak].
    + rewrite lookup_insert_eq. split.
      * intros (kids & [= <-] & Hb'). right. apply elem_of_list_to_set in Hb'.
        apply (Htop _ Hperm) in Hb' as [Hb1 Hb2]. split_and!; try done.
        by rewrite <- edges_nonempty_dom.
      * intros [(kids & Hkids & _)|(_ & _ & _ & Hb1 & Hb2)].
        -- exfalso. apply Hout. apply elem_of_dom. eauto.
        -- eexists. split; [done|]. apply elem_of_list_to_set. by apply (Htop _ Hperm).
    + rewrite lookup_insert_ne by done. fold (has_edge s4 a b).
      split; [by left|]. intros [?|(_ & Hk' & _)]; [done|congruence].
Qed.

End CountingWhole.

Section CountingClaim.
Context `{Runtime}.

(** C8, as the code has it. For a CycloneDX document whose N components
    have pairwise distinct ids and carry no inline dependency list, and whose
    top-level section lists the edge set E: the graph has at least N nodes,
    namely the component ids, the declared root if there is one, and the ids
    the dependency entries mention; it contains every listed edge, a
    repeated [dependsOn] entry counting once; its edges are exactly E when
    no root is declared or the declared root has a listed edge of its own;
    otherwise they are E together with one edge from the declared root to
    each top-level source, so their number is |E| plus the number of those
    sources. *)
Theorem cyclonedx_nodes_and_edges (obj : json) (s3 : SBOM) (comps root_id ds : json)
    (cl dl : list json) (ids : list key) (E : gset (key * key)) (s : SBOM) :
  cx_primary obj = Ok (s3, comps, root_id) →
  py_iter comps = Ok cl →
  Forall2 component_id cl ids →
  NoDup ids →
  Forall (λ c, get c "dependencies" = Ok JNull) cl →
  get_default obj "dependencies" (JList []) = Ok ds →
  py_iter (py_or ds (JList [])) = Ok dl →
  (∀ a b, (a, b) ∈ E ↔ listed dl a b) →
  _from_cyclonedx obj = Ok s →
  (length cl ≤ size (nodes s))%nat ∧
  (∀ k, k ∈ dom (nodes s) ↔
        k ∈ ids ∨ (truthy root_id = true ∧ key_of root_id = Ok k) ∨ referenced dl k) ∧
  E ⊆ edge_set s ∧
  ((truthy root_id = false ∨ ∃ r b, key_of root_id = Ok r ∧ (r, b) ∈ E) →
     edge_set s = E) ∧
  (∀ (r : key) (T : gset key), truthy root_id = true → key_of root_id = Ok r →
     ¬ (∃ b, (r, b) ∈ E) →
     (∀ t, t ∈ T ↔ (∃ c, (t, c) ∈ E) ∧ ¬ (∃ a, (a, t) ∈ E)) →
     edge_set s = E ∪ set_map (λ t, (r, t)) T ∧
     size (edge_set s) = size E + size T).
Proof.
  intros Hp Hcl Hids Hnodup Hinline Hds Hdl HE Hfrom.
  (* the graph before root inference is the one the primary pass built *)
  assert (Hb : cx_build obj = Ok (s3, root_id)).
  { pose proof Hfrom as (s4 & rid & s5 & Hb & _)%from_cyclonedx_Ok.
    pose proof Hb as (s3' & comps' & Hp' & Hf)%cx_build_Ok.
    rewrite Hp in Hp'. injection Hp' as <- <- <-.
    by rewrite (cx_fallback_nothing _ _ _ _ Hcl Hinline Hf) in Hb. }
  destruct (from_cyclonedx_edges _ _ _ _ Hb Hfrom) as [Hn Hedges].
  apply cx_primary_Ok in Hp as (s2 & ds' & dl' & Hd & Hds' & Hdl' & Hs3).
  assert (ds' = ds) as -> by congruence. assert (dl' = dl) as -> by congruence.
  pose proof (cx_declare_declared _ _ _ _ Hd) as (He2 & _).
  (* edges and nodes after the dependency entries *)
  assert (He3 : ∀ x y, has_edge s3 x y ↔ (x, y) ∈ E).
  { intros x y.
    rewrite (foldM_accum (λ t (p : key * key), has_edge t p.1 p.2)
               (λ dep (p : key * key), dep_ref dep p.1 ∧ dep_child dep p.2)
               cx_dep_step dl
               (λ t d t' Hx e, proj1 (cx_dep_step_adds d t t' Hx) e.1 e.2)
               _ _ Hs3 (x, y)).
    simpl. rewrite HE. unfold listed, has_edge. rewrite He2. split.
    - intros [(kids & Hk & _)|?]; [by rewrite lookup_empty in Hk|done].
    - by right. }
  assert (Hn3 : ∀ k, k ∈ dom (nodes s3) ↔ k ∈ dom (nodes s2) ∨ referenced dl k).
  { intros k.
    apply (foldM_accum (λ t k, k ∈ dom (nodes t))
             (λ dep k, dep_ref dep k ∨ ((∃ a, dep_ref dep a) ∧ dep_child dep k))
             cx_dep_step dl
             (λ t d t' Hx, proj2 (cx_dep_step_adds d t t' Hx))
             _ _ Hs3 k). }
  (* nodes after the declaration phase *)
  assert (Hn2 : ∀ k, k ∈ dom (nodes s2) ↔
            k ∈ ids ∨ (truthy root_id = true ∧ key_of root_id = Ok k)).
  { intros k. unfold cx_declare in Hd.
    apply bind_Ok in Hd as (cs & _ & Hd). apply bind_Ok in Hd as (cl' & Hcl' & Hd).
    apply bind_Ok in Hd as (s1 & H1 & Hd).
    apply bind_Ok in Hd as ([s2' rid'] & Hm & [= <- Hc <-]).
    rewrite Hc in Hcl'. assert (cl' = cl) as -> by congruence.
    rewrite (cx_metadata_adds _ _ _ _ Hm k).
    rewrite (foldM_accum (λ t k, k ∈ dom (nodes t)) component_id cx_component_step cl
               (λ t c t' Hx, cx_component_step_adds c t t' Hx) _ _ H1 k).
    rewrite (component_ids_listed _ _ k Hids). simpl. rewrite dom_empty_L. set_solver. }
  assert (Hdom : ∀ k, k ∈ dom (nodes s) ↔
            k ∈ ids ∨ (truthy root_id = true ∧ key_of root_id = Ok k) ∨ referenced dl k).
  { intros k. rewrite Hn, Hn3, Hn2. tauto. }
  assert (Hsub : E ⊆ edge_set s).
  { intros [a b] Hab. apply edge_set_spec, Hedges. left. by apply He3. }
  split_and!; [|done|done|..].
  - rewrite (Forall2_length _ _ _ Hids), <- size_dom.
    rewrite <- (size_list_to_set (C:=gset key) ids Hnodup).
    apply subseteq_size. intros k Hk%elem_of_list_to_set. apply Hdom. by left.
  - intros Hcase. apply set_eq. intros [a b]. rewrite edge_set_spec, Hedges, He3.
    split; [|by left]. intros [?|(Ht & Hk & Hno & _)]; [done|exfalso].
    destruct Hcase as [Hf|(r & c & Hr & Hrc)]; [congruence|].
    assert (r = a) as -> by congruence. apply Hno. exists c. by apply He3.
  - intros r T Ht Hr Hno HT.
    assert (Heq : edge_set s = E ∪ set_map (λ t, (r, t)) T).
    { apply set_eq. intros [a b].
      rewrite edge_set_spec, Hedges, He3, elem_of_union, elem_of_map.
      split; (intros [?|Hr']; [by left|right]).
      - destruct Hr' as (_ & Hk & _ & [c Hc] & Hnc).
        assert (a = r) as -> by congruence.
        exists b. split; [done|]. apply HT. split.
        + exists c. by apply He3.
        + intros [a Ha]. apply Hnc. exists a. by apply He3.
      - destruct Hr' as (t & [= -> ->] & [[c Hc] Hnc]%HT).
        split_and!; [done|done| | |].
        + intros [c' Hc']. apply Hno. exists c'. by apply He3.
        + exists c. by apply He3.
        + intros [a Ha]. apply Hnc. exists a. by apply He3. }
    split; [done|]. rewrite Heq, size_union, size_set_map_pair; [done|].
    intros [a b] Hab (t & [= -> ->] & _)%elem_of_map. apply Hno. eauto.
Qed.

End CountingClaim.

(** Scenario B lists one edge, a -> b, and mentions no id but a and b. *)
Lemma scenario_B_listed (a b : key) :
  listed [scenario_B_dependency] a b ↔ (a, b) = (KStr "a", KStr "b").
Proof.
  split.
  - intros (dep & ->%list_elem_of_singleton & (ref & Href & _ & Ha)
            & (d & kids & child & Hd & Hk & Hc & _ & Hb)).
    injection Href as <-. injection Ha as <-.
    injection Hd as <-. injection Hk as <-.
    apply elem_of_cons in Hc as [->|Hc]; [by injection Hb as <-|].
    apply list_elem_of_singleton in Hc as ->. by injection Hb as <-.
  - intros [= -> ->]. exists scenario_B_dependency. split; [by left|]. split.
    + by exists (JStr "a").
    + exists (JList [JStr "b"; JStr "b"]), [JStr "b"; JStr "b"], (JStr "b").
      split_and!; try done. by left.
Qed.

Lemma scenario_B_referenced (k : key) :
  referenced [scenario_B_dependency] k → k = KStr "a" ∨ k = KStr "b".
Proof.
  intros (dep & ->%list_elem_of_singleton & [(ref & Href & _ & Ha)|[_ Hch]]).
  - left. injection Href as <-. by injection Ha as <-.
  - right. destruct Hch as (d & kids & child & Hd & Hk & Hc & _ & Hb).
    injection Hd as <-. injection Hk as <-.
    apply elem_of_cons in Hc as [->|Hc]; [by injection Hb as <-|].
    apply list_elem_of_singleton in Hc as ->. by injection Hb as <-.
Qed.

(** C8, as stated, fails on Scenario B: two components with distinct ids,
    one listed edge and no reference to an undeclared id, yet the graph has
    three nodes and two edges: the declared root is a node of its own and
    receives an edge to the top-level source a. *)
Lemma scenario_B_has_extra_node_and_edge :
  @from_json example_runtime scenario_B = Ok scenario_B_graph ∧
  get_default scenario_B "components" (JList []) = Ok (JList scenario_B_components) ∧
  Forall2 component_id scenario_B_components [KStr "a"; KStr "b"] ∧
  get_default scenario_B "dependencies" (JList []) = Ok (JList [scenario_B_dependency]) ∧
  (∀ a b, listed [scenario_B_dependency] a b ↔ (a, b) = (KStr "a", KStr "b")) ∧
  (∀ k, referenced [scenario_B_dependency] k → k = KStr "a" ∨ k = KStr "b") ∧
  length scenario_B_components = 2%nat ∧
  size (nodes scenario_B_graph) = 3%nat ∧
  size (edge_set scenario_B_graph) = 2%nat.
Proof.
  split_and!; try (vm_compute; reflexivity).
  - repeat constructor; by eexists.
  - apply scenario_B_listed.
  - apply scenario_B_referenced.
Qed.

Lemma cyclonedx_nodes_and_edges_witness :
  (length scenario_B_components ≤ size (nodes scenario_B_graph))%nat ∧
  size (edge_set scenario_B_graph)
    = (size ({[(KStr "a", KStr "b")]} : gset (key * key)) + size ({[KStr "a"]} : gset key))%nat.
Proof.
  assert (Hids : Forall2 component_id scenario_B_components [KStr "a"; KStr "b"]).
  { repeat constructor; eexists; (split; [reflexivity|split; reflexivity]). }
  assert (Hnodup : NoDup [KStr "a"; KStr "b"]).
  { apply (bool_decide_unpack _). vm_compute. exact I. }
  assert (Hinline : Forall (λ c, get c "dependencies" = Ok JNull) scenario_B_components).
  { repeat constructor. }
  assert (HE : ∀ a b, (a, b) ∈ ({[(KStr "a", KStr "b")]} : gset (key * key))
                      ↔ listed [scenario_B_dependency] a b).
  { intros a b. rewrite scenario_B_listed. apply elem_of_singleton. }
  assert (Hp : @cx_primary example_runtime scenario_B
               = Ok (scenario_B_primary, JList scenario_B_components, JStr "root")).
  { vm_compute. reflexivity. }
  destruct (@cyclonedx_nodes_and_edges example_runtime scenario_B scenario_B_primary
              (JList scenario_B_components) (JStr "root") (JList [scenario_B_dependency])
              scenario_B_components [scenario_B_dependency] [KStr "a"; KStr "b"]
              {[(KStr "a", KStr "b")]} scenario_B_graph
              Hp eq_refl Hids Hnodup Hinline eq_refl eq_refl HE scenario_B_normalised)
    as (Hlen & _ & _ & _ & Hattach).
  split; [exact Hlen|].
  apply (Hattach (KStr "root") {[KStr "a"]} eq_refl eq_refl).
  - intros [b Hb]. apply elem_of_singleton in Hb. discriminate Hb.
  - intros t. rewrite elem_of_singleton. split.
    + intros ->. split.
      * exists (KStr "b"). apply elem_of_singleton. reflexivity.
      * intros [a Ha]. apply elem_of_singleton in Ha. discriminate Ha.
    + intros [[c Hc] _]. apply elem_of_singleton in Hc. injection Hc as -> _. reflexivity.
Defined.

(** ** Termination of the breadth-first walk *)

Lemma pending_step (s : SBOM) (reachable : gset key) (n : key) :
  n ∉ reachable →
  size (default ∅ (edges s !! n)) + pending s (reachable ∪ {[n]}) = pending s reachable.
Proof.
  intros Hn. unfold pending.
  destruct (edges s !! n) as [kids|] eqn:Hk; simpl.
  - assert (Hf : filter (λ p : key * gset key, p.1 ∉ reachable) (edges s) !! n = Some kids)
      by (by apply map_lookup_filter_Some).
    assert (Hdel : filter (λ p : key * gset key, p.1 ∉ reachable ∪ {[n]}) (edges s)
                   = delete n (filter (λ p : key * gset key, p.1 ∉ reachable) (edges s))).
    { apply map_eq. intros k. apply option_eq. intros v.
      rewrite lookup_delete_Some, !map_lookup_filter_Some. simpl. set_solver. }
    rewrite Hdel, <- (map_to_list_delete _ _ _ Hf). done.
  - assert (Hsame : filter (λ p : key * gset key, p.1 ∉ reachable ∪ {[n]}) (edges s)
                    = filter (λ p : key * gset key, p.1 ∉ reachable) (edges s)).
    { apply map_eq. intros k. apply option_eq. intros v.
      rewrite !map_lookup_filter_Some. simpl. split; [set_solver|].
      intros [Hkv Hnot]. split; [done|].
      intros [?| ->%elem_of_singleton]%elem_of_union; [done|congruence]. }
    by rewrite Hsame.
Qed.

Lemma pending_empty (s : SBOM) :
  pending s ∅ = sum_list (size <$> (map_to_list (edges s)).*2).
Proof.
  unfold pending. rewrite map_filter_id; [done|]. intros k v _. simpl. set_solver.
Qed.

Lemma pending_le (s : SBOM) (reachable : gset key) :
  (pending s reachable ≤ pending s ∅)%nat.
Proof.
  induction reachable as [|n R Hn IH] using set_ind_L; [done|].
  pose proof (pending_step s R n Hn) as Hstep.
  replace ({[n]} ∪ R) with (R ∪ {[n]}) by set_solver. lia.
Qed.

Lemma py_sorted_plain l : py_sorted l ≠ OutOfFuel.
Proof. apply plain_py_sorted. Qed.

Lemma returns_fold_M {A B : Type} (s : SBOM) (body : B → A → M B) (l : list A)
    (acc : B) (w : world) :
  (∀ b x, frame (body b x)) → w_sbom w = s →
  (∀ b x w', w_sbom w' = s → returns (body b x) w') →
  returns (fold_M body acc l) w.
Proof.
  intros Hfr. revert acc w. induction l as [|x l IH]; intros acc w Hw Hb; simpl; [done|].
  eapply (returns_bind s); [apply Hfr|exact Hw|by apply Hb|].
  intros acc' w' Hw' _. by apply IH.
Qed.

Section Walk.
Context `{Runtime}.

Lemma set_order_length (X : gset key) : length (set_order X) = size X.
Proof. by rewrite set_order_perm. Qed.

Lemma bfs_returns (s : SBOM) (fuel : nat) :
  ∀ dq reachable w,
    w_sbom w = s →
    (length dq + pending s reachable ≤ fuel)%nat →
    returns (bfs fuel dq reachable) w.
Proof.
  induction fuel as [|fuel IH]; intros dq reachable w Hw Hfuel.
  - destruct dq; simpl in *; [done|lia].
  - destruct dq as [|n dq]; simpl in *; [done|].
    case_bool_decide as Hn.
    + apply IH; [done|lia].
    + eapply (returns_bind s); [apply frame_edges_get|exact Hw|done|].
      intros kids w' Hw' Hk. unfold edges_get in Hk. injection Hk as <- _.
      apply IH; [done|]. rewrite length_app, set_order_length.
      pose proof (pending_step s reachable n Hn) as Hstep. rewrite Hw in *. lia.
Qed.

(** The DOT emitter comes back too. *)
Lemma to_dot_returns (roots : list key) (w : world) : returns (to_dot roots) w.
Proof.
  unfold to_dot.
  eapply (returns_bind (w_sbom w)); [apply frame_bfs_fuel|done|done|].
  intros fuel w1 Hw1 Hf. unfold bfs_fuel in Hf. injection Hf as <- _.
  eapply (returns_bind (w_sbom w)); [solve_frame; apply frame_bfs|exact Hw1| |].
  { eapply (returns_fold_M (w_sbom w)); [intros ? ?; apply frame_bfs|exact Hw1|].
    intros acc root w' Hw'. apply (bfs_returns (w_sbom w)); [done|].
    pose proof (pending_le (w_sbom w) acc). rewrite pending_empty in *. simpl. lia. }
  intros reachable w2 Hw2 _.
  eapply (returns_bind (w_sbom w)); [solve_frame|exact Hw2|apply returns_lift, py_sorted_plain|].
  intros ns w3 Hw3 _.
  eapply (returns_bind (w_sbom w)); [unfold dot_node_line; solve_frame|exact Hw3| |].
  { eapply (returns_mapM_M (w_sbom w)); [intros ?; unfold dot_node_line; solve_frame|exact Hw3|].
    intros n w' _ Hw'. unfold dot_node_line.
    eapply (returns_bind (w_sbom w)); [solve_frame|exact Hw'|done|].
    intros v w'' Hw'' _.
    eapply (returns_bind (w_sbom w)); [solve_frame|exact Hw''| |done].
    apply returns_lift. by destruct v. }
  intros node_lines w4 Hw4 _.
  eapply (returns_bind (w_sbom w)); [solve_frame|exact Hw4|apply returns_lift, py_sorted_plain|].
  intros srcs w5 Hw5 _.
  eapply (returns_bind (w_sbom w)); [unfold dot_edge_lines; solve_frame|exact Hw5| |done].
  eapply (returns_mapM_M (w_sbom w)); [intros ?; unfold dot_edge_lines; solve_frame|exact Hw5|].
  intros src w' _ Hw'. unfold dot_edge_lines.
  eapply (returns_bind (w_sbom w)); [solve_frame|exact Hw'|done|].
  intros kids w'' Hw'' _.
  eapply (returns_bind (w_sbom w)); [solve_frame|exact Hw''|apply returns_lift, py_sorted_plain|done].
Qed.

End Walk.

(** ** The edges of an SPDX graph *)

Lemma spdx_rel_step_adds (s s' : SBOM) (rel : json) :
  spdx_rel_step s rel = Ok s' →
  ∀ a b, has_edge s' a b ↔ has_edge s a b ∨ rel_edge rel a b.
Proof.
  unfold spdx_rel_step. intros (rt & Hrt & Hrun)%bind_Ok.
  apply bind_Ok in Hrun as (src & Hsrc & Hrun).
  apply bind_Ok in Hrun as (dst & Hdst & Hrun).
  assert (Hrel : ∀ a b, rel_edge rel a b ↔
            truthy src = true ∧ truthy dst = true ∧
            ((rt ∈ forward_types ∧ key_of src = Ok a ∧ key_of dst = Ok b)
             ∨ (rt ∈ reverse_types ∧ key_of dst = Ok a ∧ key_of src = Ok b))).
  { intros a b. unfold rel_edge. split.
    - intros (rt' & src' & dst' & Hrt' & Hsrc' & Hdst' & Hrest).
      assert (rt' = rt) as -> by congruence. assert (src' = src) as -> by congruence.
      assert (dst' = dst) as -> by congruence. tauto.
    - intros (? & ? & ?). exists rt, src, dst. tauto. }
  intros a b. rewrite Hrel.
  destruct (truthy src) eqn:Hts; simpl in Hrun;
    [|injection Hrun as <-; split; [tauto|intros [?|[? _]]; done]].
  destruct (truthy dst) eqn:Htd; simpl in Hrun;
    [|injection Hrun as <-; split; [tauto|intros [?|(_ & ? & _)]; done]].
  apply bind_Ok in Hrun as (s1 & H1 & Hrun).
  apply bind_Ok in Hrun as (s2 & H2 & Hrun).
  apply nodes_setdefault_facts in H1 as (ks & Hks & He1 & _).
  apply nodes_setdefault_facts in H2 as (kd & Hkd & He2 & _).
  assert (Hh : has_edge s2 a b ↔ has_edge s a b)
    by (unfold has_edge; by rewrite He2, He1).
  destruct (decide (rt ∈ forward_types)) as [Hf|Hf].
  - rewrite (bool_decide_eq_true_2 _ Hf) in Hrun.
    apply edges_add_Ok in Hrun as (x & y & Hx & Hy & ->).
    rewrite has_edge_insert_union, Hh.
    pose proof (forward_reverse_disjoint _ Hf).
    split; (intros [?|Hr]; [by left|right]).
    + destruct Hr as [-> ->]. split_and!; try done. left. split_and!; congruence.
    + destruct Hr as (_ & _ & [(_ & ? & ?)|(? & _)]); [split; congruence|done].
  - rewrite (bool_decide_eq_false_2 _ Hf) in Hrun.
    destruct (decide (rt ∈ reverse_types)) as [Hr|Hr].
    + rewrite (bool_decide_eq_true_2 _ Hr) in Hrun.
      apply edges_add_Ok in Hrun as (x & y & Hx & Hy & ->).
      rewrite has_edge_insert_union, Hh.
      split; (intros [?|Hr']; [by left|right]).
      * destruct Hr' as [-> ->]. split_and!; try done. right. split_and!; congruence.
      * destruct Hr' as (_ & _ & [(? & _)|(_ & ? & ?)]); [done|split; congruence].
    + rewrite (bool_decide_eq_false_2 _ Hr) in Hrun. injection Hrun as <-.
      rewrite Hh. split; [by left|]. intros [?|(_ & _ & [(? & _)|(? & _)])]; done.
Qed.

(** The edges of the graph [_from_spdx] returns are those the relationship
    entries stand for, and no others. *)
Lemma from_spdx_edges `{Runtime} (obj rs : json) (rl : list json) (s : SBOM) :
  get_default obj "relationships" (JList []) = Ok rs →
  py_iter (py_or rs (JList [])) = Ok rl →
  _from_spdx obj = Ok s →
  ∀ a b, has_edge s a b ↔ ∃ rel, rel ∈ rl ∧ rel_edge rel a b.
Proof.
  intros Hrs Hrl (s2 & Hb & Hr)%from_spdx_Ok a b.
  apply spdx_build_Ok in Hb as (s1 & rs' & rl' & Hd & Hrs' & Hrl' & Hrun).
  assert (rs' = rs) as -> by congruence. assert (rl' = rl) as -> by congruence.
  apply spdx_roots_facts in Hr as (_ & He & _).
  assert (He1 : edges s1 = ∅).
  { unfold spdx_declare in Hd. apply bind_Ok in Hd as (ps & _ & Hd).
    apply bind_Ok in Hd as (pl & _ & Hd).
    apply (foldM_inv (λ t, edges t = ∅ ∧ roots t = ∅)) in Hd as [? _]; [done| |done].
    intros t x t' _. apply spdx_package_step_empty. }
  pose proof (foldM_accum (λ t (p : key * key), has_edge t p.1 p.2)
                (λ rel (p : key * key), rel_edge rel p.1 p.2) spdx_rel_step rl
                (λ t x t' Hx e, spdx_rel_step_adds t t' x Hx e.1 e.2)
                _ _ Hrun (a, b)) as Hacc.
  simpl in Hacc. unfold has_edge at 1. rewrite He. fold (has_edge s2 a b).
  rewrite Hacc. unfold has_edge at 1. rewrite He1. split; [|by right].
  intros [(kids & Hk & _)|?]; [by rewrite lookup_empty in Hk|done].
Qed.

(** ** Documents of the CycloneDX shape are accepted *)

Lemma foldM_Ok {A S : Type} (P : S → Prop) (body : S → A → res S) (l : list A) :
  (∀ s x, x ∈ l → P s → ∃ s', body s x = Ok s' ∧ P s') →
  ∀ s, P s → ∃ s', foldM body s l = Ok s' ∧ P s'.
Proof.
  induction l as [|x l IH]; intros Hb s Hs; simpl; [eauto|].
  destruct (Hb s x) as (s1 & H1 & Hs1); [by left|done|]. rewrite H1. simpl.
  apply IH; [|done]. intros t y Hy. apply Hb. by right.
Qed.

Lemma null_or_str_or (a b : json) : null_or_str a → null_or_str b → null_or_str (py_or a b).
Proof. intros Ha Hb. unfold py_or. by destruct (truthy a). Qed.

Lemma null_or_str_key (v : json) :
  null_or_str v → truthy v = true → ∃ i, v = JStr i ∧ key_of v = Ok (KStr i).
Proof. intros [->|[i ->]] Ht; [done|]. by exists i. Qed.

Lemma wf_component_id (c : json) : wf_component c → ∃ v, cx_id c = Ok v ∧ null_or_str v.
Proof.
  intros (a & b & p & n & Ha & Hb & Hp & Hn & ? & ? & ? & ? & _).
  unfold cx_id. rewrite Ha, Hb, Hp, Hn. simpl. eexists. split; [done|].
  by repeat apply null_or_str_or.
Qed.

Lemma py_sorted_strings (l : list key) :
  Forall (λ k, ∃ i, k = KStr i) l → ∃ l', py_sorted l = Ok l'.
Proof.
  intros Hl. unfold py_sorted. destruct l as [|x [|y l]]; [eauto..|].
  remember (x :: y :: l) as xs eqn:Hxs.
  assert (Hn : mapM key_num xs = None).
  { subst xs. apply Forall_cons in Hl as [[i ->] _]. done. }
  assert (Hs : is_Some (mapM key_str xs)).
  { clear Hxs Hn. induction Hl as [|k ks [i ->] _ [ss Hss]]; [by eexists|].
    simpl. rewrite Hss. by eexists. }
  destruct Hs as [ss Hss]. rewrite Hn, Hss. eauto.
Qed.

Section Accepts.
Context `{Runtime}.

#[local] Arguments nodes_setdefault : simpl never.
#[local] Arguments roots_add : simpl never.
#[local] Arguments py_sorted : simpl never.

Lemma cx_label_accepts (c : json) (k : string) (v : json) :
  get c k = Ok v → ∃ lbl, _cx_label c = Ok lbl.
Proof. destruct c; try done. intros _. unfold _cx_label. simpl. eauto. Qed.

Lemma setdefault_str (i : string) (lbl : json) (s : SBOM) :
  ∃ s', nodes_setdefault (JStr i) lbl s = Ok s' ∧ edges s' = edges s.
Proof.
  unfold nodes_setdefault. simpl. eexists. split; [done|].
  by destruct (nodes s !! KStr i).
Qed.

Lemma cx_component_step_accepts (s : SBOM) (c : json) :
  wf_component c → str_sources s →
  ∃ s', cx_component_step s c = Ok s' ∧ str_sources s'.
Proof.
  intros Hc Hs. destruct (wf_component_id c Hc) as (v & Hv & Hn).
  destruct Hc as (a & b & p & n & _ & _ & _ & Hname & _).
  unfold cx_component_step. rewrite Hv. simpl.
  destruct (truthy v) eqn:Ht; [|eauto].
  destruct (null_or_str_key v Hn Ht) as (i & -> & _).
  destruct (cx_label_accepts c _ _ Hname) as [lbl ->]. simpl. eauto.
Qed.

Lemma cx_metadata_accepts (obj m : json) (s : SBOM) :
  get_default obj "metadata" (JDict []) = Ok m →
  (m = JNull ∨ ∃ mc, is_dict m = true ∧ get m "component" = Ok mc ∧
                     (mc = JNull ∨ wf_component mc)) →
  str_sources s →
  ∃ s' root_id, cx_metadata obj s = Ok (s', root_id) ∧ str_sources s' ∧
                null_or_str root_id.
Proof.
  intros Hm Hshape Hs. unfold cx_metadata. rewrite Hm. simpl.
  assert (Hnull : null_or_str JNull) by by left.
  destruct Hshape as [->|(mc & Hd & Hmc & Hwf)]; [simpl; eauto|].
  assert (Hget : get (py_or m (JDict [])) "component" = Ok (if truthy m then mc else JNull)).
  { unfold py_or. destruct (truthy m); [done|]. done. }
  rewrite Hget. simpl. destruct (truthy m); [|simpl; eauto].
  destruct Hwf as [->|Hwf]; [simpl; eauto|].
  destruct (truthy mc); [|eauto].
  destruct (wf_component_id mc Hwf) as (v & Hv & Hn). rewrite Hv. simpl.
  destruct (truthy v) eqn:Ht; [|eauto].
  destruct (null_or_str_key v Hn Ht) as (i & -> & _).
  destruct Hwf as (a & b & p & n & _ & _ & _ & Hname & _).
  destruct (cx_label_accepts mc _ _ Hname) as [lbl ->]. simpl.
  do 2 eexists. split; [done|]. split; [|by right; eauto].
  unfold str_sources. simpl. by destruct (nodes s !! KStr i).
Qed.

Lemma str_sources_edges_add (ks : string) (kc : key) (s : SBOM) :
  str_sources s →
  str_sources (with_edges (λ e, <[KStr ks := default ∅ (e !! KStr ks) ∪ {[kc]}]> e) s).
Proof.
  intros Hs k. simpl. rewrite dom_insert_L. intros [->%elem_of_singleton|?]%elem_of_union; eauto.
Qed.

Lemma cx_child_step_accepts (ref : string) (s : SBOM) (child : json) :
  null_or_str child → str_sources s →
  ∃ s', cx_child_step (JStr ref) s child = Ok s' ∧ str_sources s'.
Proof.
  intros Hn Hs. unfold cx_child_step. destruct (truthy child) eqn:Ht; [|eauto].
  destruct (null_or_str_key child Hn Ht) as (i & -> & _).
  simpl. eexists. split; [done|].
  apply str_sources_edges_add. unfold str_sources. by destruct (nodes s !! KStr i).
Qed.

Lemma cx_dep_step_accepts (s : SBOM) (dep : json) :
  wf_dependency dep → str_sources s →
  ∃ s', cx_dep_step s dep = Ok s' ∧ str_sources s'.
Proof.
  intros (ref & d & Hr & Hn & Hd & Hkids) Hs. unfold cx_dep_step.
  rewrite Hr. simpl. destruct (truthy ref) eqn:Ht; [|eauto].
  destruct (null_or_str_key ref Hn Ht) as (i & -> & _).
  destruct (setdefault_str i (JStr i) s) as (s1 & Hs1 & He).
  unfold nodes_setdefault in Hs1 |- *. simpl in Hs1 |- *. rewrite Hd. simpl.
  injection Hs1 as Hs1. rewrite Hs1.
  assert (Hstr1 : str_sources s1) by (unfold str_sources; by rewrite He).
  destruct Hkids as [->|(l & -> & Hl)]; [simpl; eauto|].
  assert (Hit : py_iter (py_or (JList l) (JList [])) = Ok l).
  { unfold py_or. simpl. by destruct l. }
  rewrite Hit. simpl.
  apply (foldM_Ok str_sources); [|done].
  intros t x Hx Ht'. apply cx_child_step_accepts; [|done].
  by eapply Forall_forall in Hl.
Qed.

Lemma cx_inline_step_accepts (s : SBOM) (c : json) :
  wf_component c → ∃ s', cx_inline_step s c = Ok s' ∧ s' = s.
Proof.
  intros Hc. destruct (wf_component_id c Hc) as (v & Hv & _).
  destruct Hc as (a & b & p & n & _ & _ & _ & _ & _ & _ & _ & _ & Hd).
  unfold cx_inline_step. rewrite Hv, Hd. simpl. eauto.
Qed.

Lemma cx_fallback_accepts (cl : list json) (s : SBOM) :
  Forall wf_component cl → cx_fallback (JList cl) s = Ok s.
Proof.
  intros Hcl. unfold cx_fallback.
  destruct (bool_decide (edges s = ∅) && truthy (JList cl)); [|done].
  simpl. destruct (foldM_Ok (λ t, t = s) cx_inline_step cl) with (s := s) as (s' & -> & ->); [|done..].
  intros t x Hx ->. apply cx_inline_step_accepts. by eapply Forall_forall in Hcl.
Qed.

Lemma cx_roots_accepts (root_id : json) (s : SBOM) :
  null_or_str root_id →
  ∃ s', cx_roots root_id s = Ok s' ∧ edges s' = edges s.
Proof.
  intros Hn. unfold cx_roots. destruct (truthy root_id) eqn:Ht.
  - destruct (null_or_str_key root_id Hn Ht) as (i & -> & _). simpl.
    eexists. split; [done|]. by case_bool_decide.
  - eexists. split; [done|]. by case_bool_decide.
Qed.

Lemma cx_attach_accepts (root_id : json) (s : SBOM) :
  null_or_str root_id → str_sources s → ∃ s', cx_attach root_id s = Ok s'.
Proof.
  intros Hn Hs. unfold cx_attach. destruct (truthy root_id) eqn:Ht; [|eauto].
  destruct (null_or_str_key root_id Hn Ht) as (i & -> & _). simpl.
  destruct (_ && _); [|eauto].
  destruct (py_sorted_strings
    (filter (λ r, r ∉ all_children s) (elements (dom (edges s))))) as [l ->].
  { apply Forall_forall. intros k [_ Hk%elem_of_elements]%list_elem_of_filter. by apply Hs. }
  simpl. destruct (bool_decide _); eauto.
Qed.

(** The CycloneDX normaliser raises nothing on a document of the CycloneDX
    shape. *)
Theorem from_cyclonedx_accepts (obj : json) :
  wf_cyclonedx obj → ∃ s, _from_cyclonedx obj = Ok s.
Proof.
  intros (cs & m & ds & Hcs & Hcomps & Hm & Hmeta & Hds & Hdeps).
  assert (Hcl : ∃ cl, py_or cs (JList []) = JList cl ∧ Forall wf_component cl).
  { destruct Hcomps as [->|(cl & -> & Hcl)]; [by exists []|].
    unfold py_or. simpl. destruct cl; [by exists []|]. eauto. }
  destruct Hcl as (cl & Hor & Hcl).
  assert (Hdl : ∃ dl, py_iter (py_or ds (JList [])) = Ok dl ∧ Forall wf_dependency dl).
  { destruct Hdeps as [->|(dl & -> & Hdl)]; [by exists []|].
    unfold py_or. simpl. destruct dl; [by exists []|]. eauto. }
  destruct Hdl as (dl & Hit & Hdl).
  assert (H0 : str_sources new_SBOM).
  { intros k Hk. simpl in Hk. by rewrite dom_empty_L in Hk. }
  destruct (foldM_Ok str_sources cx_component_step cl) with (s := new_SBOM)
    as (s1 & Hs1 & Hstr1); [|done|].
  { intros t x Hx Ht. apply cx_component_step_accepts; [|done].
    by eapply Forall_forall in Hcl. }
  destruct (cx_metadata_accepts obj m s1 Hm Hmeta Hstr1)
    as (s2 & root_id & Hs2 & Hstr2 & Hroot).
  destruct (foldM_Ok str_sources cx_dep_step dl) with (s := s2)
    as (s3 & Hs3 & Hstr3); [|done|].
  { intros t x Hx Ht. apply cx_dep_step_accepts; [|done].
    by eapply Forall_forall in Hdl. }
  destruct (cx_roots_accepts root_id s3 Hroot) as (s5 & Hs5 & He5).
  destruct (cx_attach_accepts root_id s5 Hroot) as (s6 & Hs6).
  { unfold str_sources. by rewrite He5. }
  exists s6. unfold _from_cyclonedx, cx_build, cx_primary, cx_declare.
  rewrite Hcs. cbn [mbind res_bind]. rewrite Hor. cbn [py_iter mbind res_bind].
  rewrite Hs1. cbn [mbind res_bind]. rewrite Hs2. cbn [mbind res_bind].
  rewrite Hds. cbn [mbind res_bind]. rewrite Hit. cbn [mbind res_bind].
  rewrite Hs3. cbn [mbind res_bind].
  rewrite (cx_fallback_accepts cl s3 Hcl). cbn [mbind res_bind].
  rewrite Hs5. cbn [mbind res_bind]. done.
Qed.

End Accepts.

(** ** Documents of the SPDX shape are accepted *)

Lemma py_or_list (P : json → Prop) (v : json) :
  (v = JNull ∨ ∃ l, v = JList l ∧ Forall P l) →
  ∃ l, py_or v (JList []) = JList l ∧ Forall P l.
Proof.
  intros [->|(l & -> & Hl)]; [by exists []|].
  unfold py_or. simpl. destruct l; [by exists []|]. eauto.
Qed.

Lemma foldM_total {A S : Type} (P : A → Prop) (body : S → A → res S) (l : list A) :
  (∀ s x, P x → ∃ s', body s x = Ok s') →
  Forall P l → ∀ s, ∃ s', foldM body s l = Ok s'.
Proof.
  intros Hb Hl s.
  destruct (foldM_Ok (λ _, True) body l) with (s := s) as (s' & Hs' & _); [|done|eauto].
  intros t x Hx _. destruct (Hb t x) as [s' ->]; [|eauto].
  by eapply Forall_forall in Hl.
Qed.

Section AcceptsSPDX.
Context `{Runtime}.

Lemma spdx_pkg_label_accepts (pkg : json) (k : string) (v : json) :
  get pkg k = Ok v → ∃ lbl, _spdx_pkg_label pkg = Ok lbl.
Proof. destruct pkg; try done. intros _. unfold _spdx_pkg_label. simpl. eauto. Qed.

Lemma spdx_package_step_accepts (s : SBOM) (pkg : json) :
  wf_package pkg → ∃ s', spdx_package_step s pkg = Ok s'.
Proof.
  intros (a & b & Ha & Hb & Hna & Hnb). unfold spdx_package_step.
  rewrite Ha, Hb. cbn [mbind res_bind].
  destruct (truthy (py_or a b)) eqn:Ht; [|eauto].
  destruct (null_or_str_key _ (null_or_str_or _ _ Hna Hnb) Ht) as (i & -> & _).
  destruct (spdx_pkg_label_accepts pkg _ _ Ha) as [lbl ->]. simpl. eauto.
Qed.

Lemma spdx_rel_step_accepts (s : SBOM) (rel : json) :
  wf_relationship rel → ∃ s', spdx_rel_step s rel = Ok s'.
Proof.
  intros (t & a & b & c & d & Ht & Ha & Hb & Hc & Hd & Hnt & Hna & Hnb & Hnc & Hnd).
  unfold spdx_rel_step, spdx_rel_type, spdx_rel_source, spdx_rel_target.
  rewrite Ht, Ha, Hb, Hc, Hd. cbn [mbind res_bind].
  assert (Hty : ∃ x, py_or t (JStr "") = JStr x).
  { destruct Hnt as [->|[x ->]]; [by eexists|]. unfold py_or. destruct (truthy _); eauto. }
  destruct Hty as [x ->]. cbn [mbind res_bind].
  destruct (truthy (py_or a b)) eqn:Hsrc; [|simpl; eauto].
  destruct (truthy (py_or c d)) eqn:Hdst; [|simpl; eauto].
  destruct (null_or_str_key _ (null_or_str_or _ _ Hna Hnb) Hsrc) as (i & -> & _).
  destruct (null_or_str_key _ (null_or_str_or _ _ Hnc Hnd) Hdst) as (j & -> & _).
  simpl. repeat case_bool_decide; eauto.
Qed.

Lemma spdx_describes_step_accepts (s : SBOM) (rid : json) :
  null_or_str rid → ∃ s', spdx_describes_step s rid = Ok s'.
Proof.
  intros [->|[i ->]]; unfold spdx_describes_step; simpl; case_bool_decide; eauto.
Qed.

Lemma spdx_roots_accepts (obj d : json) (s : SBOM) :
  get obj "documentDescribes" = Ok d →
  (null_or_str d ∨ ∃ dl, d = JList dl ∧ Forall null_or_str dl) →
  ∃ s', spdx_roots obj s = Ok s'.
Proof.
  intros Hd Hshape. unfold spdx_roots. rewrite Hd. cbn [mbind res_bind].
  assert (Hdl : ∃ dl, py_iter (if is_str (py_or d (JList []))
                               then JList [py_or d (JList [])]
                               else py_or d (JList [])) = Ok dl ∧
                      Forall null_or_str dl).
  { destruct Hshape as [[->|[i ->]]|(dl & -> & Hdl)].
    - by exists [].
    - unfold py_or. destruct (truthy (JStr i)); simpl; [|by exists []].
      exists [JStr i]. split; [done|]. apply Forall_singleton. right. by eexists.
    - unfold py_or. simpl. destruct dl; [by exists []|]. eauto. }
  destruct Hdl as (dl & -> & Hdl). cbn [mbind res_bind].
  destruct (foldM_total null_or_str spdx_describes_step dl) with (s := s) as [s1 ->];
    [apply spdx_describes_step_accepts|done|].
  cbn [mbind res_bind]. case_bool_decide; eauto.
Qed.

(** The SPDX normaliser raises nothing on a document of the SPDX shape. *)
Theorem from_spdx_accepts (obj : json) :
  wf_spdx obj → ∃ s, _from_spdx obj = Ok s.
Proof.
  intros (ps & rs & d & Hps & Hpkgs & Hrs & Hrels & Hd & Hdesc).
  destruct (py_or_list _ _ Hpkgs) as (pl & Hpor & Hpl).
  destruct (py_or_list _ _ Hrels) as (rl & Hror & Hrl).
  destruct (foldM_total wf_package spdx_package_step pl) with (s := new_SBOM)
    as [s1 Hs1]; [apply spdx_package_step_accepts|done|].
  destruct (foldM_total wf_relationship spdx_rel_step rl) with (s := s1)
    as [s2 Hs2]; [apply spdx_rel_step_accepts|done|].
  destruct (spdx_roots_accepts obj d s2 Hd Hdesc) as [s3 Hs3].
  exists s3. unfold _from_spdx, spdx_build, spdx_declare.
  rewrite Hps. cbn [mbind res_bind]. rewrite Hpor. cbn [py_iter mbind res_bind].
  rewrite Hs1. cbn [mbind res_bind]. rewrite Hrs. cbn [mbind res_bind].
  rewrite Hror. cbn [py_iter mbind res_bind]. rewrite Hs2. cbn [mbind res_bind].
  done.
Qed.

End AcceptsSPDX.

(** ** The scenarios have these shapes *)

Ltac shape := repeat first
  [ reflexivity
  | progress simpl
  | match goal with
    | |- _ ∧ _ => split
    | |- null_or_str JNull => left
    | |- null_or_str (JStr _) => right; eexists
    | |- Forall _ [] => apply Forall_nil_2
    | |- Forall _ (_ :: _) => apply Forall_cons_2
    | |- JNull = JNull ∨ _ => left
    | |- null_or_str JNull ∨ _ => left
    | |- _ ∨ _ => right
    | |- ∃ _, _ => eexists
    end ].

Lemma scenario_B_well_formed : wf_cyclonedx scenario_B.
Proof.
  unfold wf_cyclonedx, wf_component, wf_dependency, scenario_B,
    scenario_B_components, scenario_B_dependency.
  shape.
Qed.

Lemma scenario_C_well_formed : wf_spdx scenario_C.
Proof. unfold wf_spdx, wf_package, wf_relationship, scenario_C. shape. Qed.

(** Scenario C: Q is synthesized as a node labelled Q, with the edge P -> Q. *)
Lemma scenario_C_normalised `{Runtime} : from_json scenario_C = Ok scenario_C_graph.
Proof. by vm_compute. Qed.

(** ** How the roots are chosen *)

Section Roots.
Context `{Runtime}.

Lemma cx_child_step_roots ref s child s' :
  cx_child_step ref s child = Ok s' → roots s' = roots s.
Proof.
  unfold cx_child_step. destruct (truthy child); [|by intros [= <-]].
  intros (s1 & H1 & H2)%bind_Ok.
  apply nodes_setdefault_facts in H1 as (k & _ & _ & Hr1 & _).
  apply edges_add_facts in H2 as (ks & kc & _ & _ & _ & Hr2 & _). congruence.
Qed.

Lemma cx_dep_step_roots s dep s' : cx_dep_step s dep = Ok s' → roots s' = roots s.
Proof.
  unfold cx_dep_step. intros (ref & _ & Hrun)%bind_Ok.
  destruct (truthy ref); [|by injection Hrun as <-].
  apply bind_Ok in Hrun as (s1 & H1 & Hrun).
  apply bind_Ok in Hrun as (d & _ & Hrun).
  apply bind_Ok in Hrun as (kids & _ & Hrun).
  apply nodes_setdefault_facts in H1 as (k & _ & _ & Hr1 & _).
  rewrite <- Hr1.
  eapply (foldM_inv (λ t, roots t = roots s1)); [| |exact Hrun]; [|done].
  intros t x t' _ Ht Hx. apply cx_child_step_roots in Hx. congruence.
Qed.

Lemma cx_inline_step_roots s c s' : cx_inline_step s c = Ok s' → roots s' = roots s.
Proof.
  unfold cx_inline_step. intros (src & _ & Hrun)%bind_Ok.
  apply bind_Ok in Hrun as (d & _ & Hrun).
  destruct (py_or d (JList [])); try by injection Hrun as <-.
  eapply (foldM_inv (λ t, roots t = roots s)); [| |exact Hrun]; [|done].
  intros t x t' _ Ht. unfold cx_inline_child_step.
  intros (s1 & H1 & Hx)%bind_Ok. apply bind_Ok in Hx as (s2 & H2 & H3).
  apply nodes_setdefault_facts in H1 as (k1 & _ & _ & Hr1 & _).
  apply nodes_setdefault_facts in H2 as (k2 & _ & _ & Hr2 & _).
  apply edges_add_facts in H3 as (ks & kc & _ & _ & _ & Hr3 & _). congruence.
Qed.

Lemma cx_build_roots obj s4 rid :
  cx_build obj = Ok (s4, rid) → truthy rid = false → roots s4 = ∅.
Proof.
  intros Hb Hf. pose proof Hb as (s2 & comps' & Hd & (_ & _ & Hdecl) & _)%cx_build_inv.
  rewrite Hf in Hdecl.
  apply cx_build_Ok in Hb as (s3 & comps & Hp & Hfb).
  apply cx_primary_Ok in Hp as (s2' & ds & dl & Hd' & _ & _ & Hs3).
  assert (s2' = s2) as -> by congruence.
  assert (H3 : roots s3 = ∅).
  { eapply (foldM_inv (λ t, roots t = ∅)); [| |exact Hs3]; [|exact Hdecl].
    intros t x t' _ Ht Hx. apply cx_dep_step_roots in Hx. congruence. }
  unfold cx_fallback in Hfb. destruct (_ && _); [|by injection Hfb as <-].
  apply bind_Ok in Hfb as (cs & _ & Hrun).
  eapply (foldM_inv (λ t, roots t = ∅)); [| |exact Hrun]; [|exact H3].
  intros t x t' _ Ht Hx. apply cx_inline_step_roots in Hx. congruence.
Qed.

(** X1. Without a declared root ([metadata.component] absent or without an
    id) the roots of a CycloneDX graph are exactly the nodes that no edge
    points to; when every node is some node's dependency there is no root. *)
Theorem cyclonedx_inferred_roots (obj rid : json) (s : SBOM) :
  declared_root obj = Ok rid → truthy rid = false →
  _from_cyclonedx obj = Ok s →
  ∀ k, k ∈ roots s ↔ k ∈ dom (nodes s) ∧ ¬ ∃ a, has_edge s a k.
Proof.
  intros Hroot Hf (s4 & rid' & s5 & Hb & Hr & Ha)%from_cyclonedx_Ok k.
  pose proof (cx_build_root _ _ _ Hb) as Hroot'.
  assert (rid' = rid) as -> by congruence.
  pose proof (cx_build_roots _ _ _ Hb Hf) as H4.
  apply cx_roots_facts in Hr as (Hn5 & He5 & Hr5). rewrite Hf in Hr5.
  unfold cx_attach in Ha. rewrite Hf in Ha. injection Ha as <-.
  rewrite Hr5, H4, Hn5. rewrite <- all_children_spec.
  assert (all_children s5 = all_children s4) as ->
    by (unfold all_children; by rewrite He5).
  set_solver.
Qed.

Lemma spdx_rel_step_roots s rel s' : spdx_rel_step s rel = Ok s' → roots s' = roots s.
Proof.
  unfold spdx_rel_step. intros (rt & _ & Hrun)%bind_Ok.
  apply bind_Ok in Hrun as (src & _ & Hrun).
  apply bind_Ok in Hrun as (dst & _ & Hrun).
  destruct (_ || _); [by injection Hrun as <-|].
  apply bind_Ok in Hrun as (s1 & H1 & Hrun).
  apply bind_Ok in Hrun as (s2 & H2 & Hrun).
  apply nodes_setdefault_facts in H1 as (k1 & _ & _ & Hr1 & _).
  apply nodes_setdefault_facts in H2 as (k2 & _ & _ & Hr2 & _).
  repeat case_bool_decide.
  - apply edges_add_facts in Hrun as (a & b & _ & _ & _ & Hr3 & _). congruence.
  - apply edges_add_facts in Hrun as (a & b & _ & _ & _ & Hr3 & _). congruence.
  - injection Hrun as <-. congruence.
Qed.

Lemma spdx_build_roots obj s2 : spdx_build obj = Ok s2 → roots s2 = ∅.
Proof.
  intros (s1 & rs & rl & Hd & _ & _ & Hrun)%spdx_build_Ok.
  unfold spdx_declare in Hd. apply bind_Ok in Hd as (ps & _ & Hd).
  apply bind_Ok in Hd as (pl & _ & Hd).
  apply (foldM_inv (λ t, edges t = ∅ ∧ roots t = ∅)) in Hd as [_ Hr1];
    [| |done]; [|intros t x t' _; apply spdx_package_step_empty].
  eapply (foldM_inv (λ t, roots t = ∅)); [| |exact Hrun]; [|exact Hr1].
  intros t x t' _ Ht Hx. apply spdx_rel_step_roots in Hx. congruence.
Qed.

Lemma spdx_describes_fold (dl : list json) (s s' : SBOM) :
  foldM spdx_describes_step s dl = Ok s' →
  nodes s' = nodes s ∧ edges s' = edges s ∧
  ∀ k, k ∈ roots s' ↔
       k ∈ roots s ∨ (k ∈ dom (nodes s) ∧ ∃ rid, rid ∈ dl ∧ key_of rid = Ok k).
Proof.
  revert s. induction dl as [|x dl IH]; intros s Hrun; simpl in Hrun.
  - injection Hrun as <-. split_and!; [done..|]. intros k. split; [by left|].
    intros [?|(_ & rid & Hin & _)]; [done|]. by apply elem_of_nil in Hin.
  - apply bind_Ok in Hrun as (t & Hx & Hrun).
    apply IH in Hrun as (Hn & He & Hr).
    unfold spdx_describes_step in Hx. apply bind_Ok in Hx as (kx & Hkx & Hx).
    case_bool_decide as Hin.
    + apply roots_add_Ok in Hx as (k' & Hk' & ->). simpl in *.
      assert (k' = kx) as -> by congruence.
      split_and!; [done..|]. intros k. rewrite Hr. split.
      * intros [Hk|(? & rid & ? & ?)].
        -- apply elem_of_union in Hk as [?|Hk]; [by left|].
           apply elem_of_singleton in Hk as ->.
           right. split; [done|]. exists x. split; [by left|done].
        -- right. split; [done|]. exists rid. split; [by right|done].
      * intros [?|(Hk & rid & Hrid & Hkey)]; [left; set_solver|].
        apply elem_of_cons in Hrid as [->|Hrid].
        -- left. assert (k = kx) as -> by congruence. set_solver.
        -- right. eauto.
    + injection Hx as <-. split_and!; [done..|]. intros k. rewrite Hr. split.
      * intros [?|(? & rid & ? & ?)]; [by left|].
        right. split; [done|]. exists rid. split; [by right|done].
      * intros [?|(Hk & rid & Hrid & Hkey)]; [by left|].
        apply elem_of_cons in Hrid as [->|Hrid].
        -- assert (k = kx) as -> by congruence. done.
        -- right. eauto.
Qed.

(** X2. The roots of an SPDX graph are the ids that [documentDescribes]
    names and that are nodes; when it names no node (it is absent, empty, or
    names unknown ids only) the roots are the nodes that no edge points to. *)
Theorem spdx_roots_selected (obj : json) (s : SBOM) :
  _from_spdx obj = Ok s →
  ((∃ k, described obj k ∧ k ∈ dom (nodes s)) →
     ∀ k, k ∈ roots s ↔ described obj k ∧ k ∈ dom (nodes s)) ∧
  (¬ (∃ k, described obj k ∧ k ∈ dom (nodes s)) →
     ∀ k, k ∈ roots s ↔ k ∈ dom (nodes s) ∧ ¬ ∃ a, has_edge s a k).
Proof.
  intros (s2 & Hb & Hr)%from_spdx_Ok.
  apply spdx_build_roots in Hb as H2.
  unfold spdx_roots in Hr. apply bind_Ok in Hr as (d & Hd & Hr).
  apply bind_Ok in Hr as (dl & Hdl & Hr).
  apply bind_Ok in Hr as (s1 & H1 & Hr).
  apply spdx_describes_fold in H1 as (Hn1 & He1 & Hr1).
  assert (Hdesc : ∀ k, described obj k ↔ ∃ rid, rid ∈ dl ∧ key_of rid = Ok k).
  { intros k. split.
    - intros (d' & dl' & rid & Hd' & Hdl' & Hin & Hk).
      assert (d' = d) as -> by congruence.
      assert (dl' = dl) as -> by (simpl in Hdl'; congruence). eauto.
    - intros (rid & Hin & Hk). by exists d, dl, rid. }
  assert (Hroots1 : ∀ k, k ∈ roots s1 ↔ described obj k ∧ k ∈ dom (nodes s2)).
  { intros k. rewrite Hr1, H2, Hdesc. set_solver. }
  case_bool_decide as Hempty; injection Hr as <-; simpl.
  - assert (Hnone : ¬ ∃ k, described obj k ∧ k ∈ dom (nodes s1)).
    { intros (k & Hk & Hin). rewrite Hn1 in Hin.
      assert (k ∈ roots s1) by (by apply Hroots1). set_solver. }
    split; [by intros ?|]. intros _ k.
    rewrite elem_of_difference, all_children_spec. done.
  - split.
    + intros _ k. rewrite Hn1. apply Hroots1.
    + intros Hnone. exfalso. apply Hempty. apply set_eq. intros k.
      split; [|set_solver]. intros Hk. exfalso. apply Hnone. exists k.
      rewrite Hn1. by apply Hroots1.
Qed.

End Roots.

Lemma scenario_A_normalised : @_from_cyclonedx example_runtime scenario_A = Ok scenario_A_graph.
Proof. vm_compute. reflexivity. Qed.

Lemma cyclonedx_inferred_roots_witness :
  KStr "a" ∈ roots scenario_A_graph ↔
  KStr "a" ∈ dom (nodes scenario_A_graph) ∧ ¬ ∃ a, has_edge scenario_A_graph a (KStr "a").
Proof.
  exact (@cyclonedx_inferred_roots example_runtime scenario_A JNull scenario_A_graph
           eq_refl eq_refl scenario_A_normalised (KStr "a")).
Defined.

Lemma described_doc_normalised : @_from_spdx example_runtime described_doc = Ok described_graph.
Proof. vm_compute. reflexivity. Qed.

Lemma spdx_roots_selected_witness :
  ((∃ k, described described_doc k ∧ k ∈ dom (nodes described_graph)) →
     ∀ k, k ∈ roots described_graph ↔ described described_doc k ∧ k ∈ dom (nodes described_graph)) ∧
  (¬ (∃ k, described described_doc k ∧ k ∈ dom (nodes described_graph)) →
     ∀ k, k ∈ roots described_graph ↔
          k ∈ dom (nodes described_graph) ∧ ¬ ∃ a, has_edge described_graph a k).
Proof.
  exact (@spdx_roots_selected example_runtime described_doc described_graph
           described_doc_normalised).
Defined.

(** ** Labels, repetitions and malformed entries *)

Lemma foldM_elem_Ok {A S : Type} (body : S → A → res S) (l : list A) (s s' : S) (x : A) :
  foldM body s l = Ok s' → x ∈ l → ∃ t t', body t x = Ok t'.
Proof.
  intros Hrun (l1 & l2 & ->)%list_elem_of_split.
  rewrite foldM_app in Hrun. apply bind_Ok in Hrun as (t & _ & H2).
  simpl in H2. apply bind_Ok in H2 as (t' & Hx & _). eauto.
Qed.

Lemma py_or_list_id (l : list json) : py_or (JList l) (JList []) = JList l.
Proof. unfold py_or. simpl. case_bool_decide; by subst. Qed.

Lemma foldM_fixed {A S : Type} (body : S → A → res S) (l : list A) (s : S) :
  (∀ x, x ∈ l → body s x = Ok s) → foldM body s l = Ok s.
Proof.
  induction l as [|x l IH]; intros Hall; [done|]. simpl.
  rewrite Hall by (by left). simpl. apply IH. intros y Hy. apply Hall. by right.
Qed.

Section Labels.
Context `{Runtime}.

Lemma cx_component_step_other (s s' : SBOM) (c : json) (k : key) :
  cx_component_step s c = Ok s' → ¬ component_id c k → nodes s' !! k = nodes s !! k.
Proof.
  unfold cx_component_step, component_id. intros (cid & Hcid & Hrun)%bind_Ok Hno.
  destruct (truthy cid) eqn:Ht; [|by injection Hrun as <-].
  apply bind_Ok in Hrun as (lbl & _ & Hrun).
  apply nodes_setitem_facts in Hrun as (j & Hj & _ & _ & ->).
  apply lookup_insert_ne. intros ->. apply Hno. eauto.
Qed.

Lemma cx_component_step_label (s s' : SBOM) (c lbl : json) (k : key) :
  cx_component_step s c = Ok s' → component_id c k → _cx_label c = Ok lbl →
  nodes s' !! k = Some lbl.
Proof.
  unfold cx_component_step. intros (cid & Hcid & Hrun)%bind_Ok (v & Hv & Ht & Hk) Hl.
  assert (cid = v) as -> by congruence. rewrite Ht, Hl in Hrun. simpl in Hrun.
  apply nodes_setitem_facts in Hrun as (j & Hj & _ & _ & ->).
  assert (j = k) as -> by congruence. apply lookup_insert_eq.
Qed.

Lemma cx_metadata_keeps (obj : json) (s s' : SBOM) (rid : json) (k : key) (v : json) :
  cx_metadata obj s = Ok (s', rid) → nodes s !! k = Some v → nodes s' !! k = Some v.
Proof.
  unfold cx_metadata. intros (m & Hm & Hrun)%bind_Ok Hv.
  apply bind_Ok in Hrun as (mc & Hmc & Hrun).
  destruct (truthy mc); [|by injection Hrun as <- _].
  apply bind_Ok in Hrun as (r & Hr & Hrun).
  destruct (truthy r); [|by injection Hrun as <- _].
  apply bind_Ok in Hrun as (lbl & _ & Hrun).
  apply bind_Ok in Hrun as (s1 & H1 & Hrun).
  apply bind_Ok in Hrun as (s2 & H2 & [= <- _]).
  apply grows_setdefault in H1 as [Hn1 _].
  apply roots_add_Ok in H2 as (k' & _ & ->). simpl. by apply Hn1.
Qed.

(** X3. A node keeps the label of the component that declares it: among
    components with the same id the last one gives the label, and neither
    [metadata.component] nor a dependency entry that mentions the id
    replaces it. *)
Theorem component_label_kept (obj cs : json) (l1 l2 : list json) (c lbl : json)
    (k : key) (s : SBOM) :
  get_default obj "components" (JList []) = Ok cs →
  py_iter (py_or cs (JList [])) = Ok (l1 ++ c :: l2)%list →
  component_id c k →
  (∀ c', c' ∈ l2 → ¬ component_id c' k) →
  _cx_label c = Ok lbl →
  _from_cyclonedx obj = Ok s →
  nodes s !! k = Some lbl.
Proof.
  intros Hcs Hcl Hc Hlater Hlbl (s4 & rid & s5 & Hb & Hr & Ha)%from_cyclonedx_Ok.
  apply cx_build_inv in Hb as (s2 & comps & Hd & _ & _ & [Hg _]).
  apply cx_roots_facts in Hr as (Hn5 & _). apply cx_attach_facts in Ha as (Hn & _).
  rewrite Hn, Hn5. apply Hg.
  unfold cx_declare in Hd. rewrite Hcs in Hd. simpl in Hd. rewrite Hcl in Hd.
  simpl in Hd. apply bind_Ok in Hd as (s1 & H1 & Hd).
  apply bind_Ok in Hd as ([s2' rid'] & Hm & [= <- _ _]).
  eapply cx_metadata_keeps; [exact Hm|].
  rewrite foldM_app in H1. apply bind_Ok in H1 as (t & _ & H1).
  simpl in H1. apply bind_Ok in H1 as (t1 & Hstep & H1).
  eapply (foldM_inv (λ u, nodes u !! k = Some lbl)); [| |exact H1].
  - intros u x u' Hx Hu Hux. rewrite <- Hu. eapply cx_component_step_other; eauto.
  - by eapply cx_component_step_label.
Qed.

(** A dependency entry that the graph already holds adds nothing. *)
Lemma cx_child_step_absorbed (ref child : json) (a : key) (s : SBOM) :
  key_of ref = Ok a →
  (truthy child = true → ∃ b, key_of child = Ok b ∧ b ∈ dom (nodes s) ∧ has_edge s a b) →
  cx_child_step ref s child = Ok s.
Proof.
  intros Ha Hc. unfold cx_child_step. destruct (truthy child); [|done].
  destruct Hc as (b & Hb & [v Hv]%elem_of_dom & (kids & Hkids & Hin)); [done|].
  apply bind_Ok. exists s. split.
  - apply nodes_setdefault_Ok. exists b. by rewrite Hv.
  - apply edges_add_Ok. exists a, b. split_and!; [done..|].
    destruct s as [n e r]. unfold with_edges. simpl in *. f_equal.
    rewrite Hkids. simpl. symmetry. apply insert_id. rewrite Hkids. f_equal. set_solver.
Qed.

Lemma cx_dep_step_absorbed (dep : json) (t t1 t2 : SBOM) :
  cx_dep_step t dep = Ok t1 → grows t1 t2 → cx_dep_step t2 dep = Ok t2.
Proof.
  intros Hstep Hg. pose proof (cx_dep_step_adds _ _ _ Hstep) as [Hedges Hnodes].
  unfold cx_dep_step in *. apply bind_Ok in Hstep as (ref & Href & Hrun).
  rewrite Href. simpl. destruct (truthy ref) eqn:Ht; [|done].
  apply bind_Ok in Hrun as (s1 & H1 & Hrun).
  apply bind_Ok in Hrun as (d & Hd & Hrun).
  apply bind_Ok in Hrun as (kids & Hkids & Hrun).
  apply nodes_setdefault_facts in H1 as (a & Ha & _).
  assert (Hrefa : dep_ref dep a) by (by exists ref).
  pose proof (grows_dom _ _ Hg) as Hdom. destruct Hg as [_ Hge].
  assert (Hain : a ∈ dom (nodes t2)).
  { apply Hdom, Hnodes. by right; left. }
  apply elem_of_dom in Hain as [va Hva].
  unfold nodes_setdefault. rewrite Ha. simpl. rewrite Hva. simpl.
  rewrite Hd. simpl. rewrite Hkids. simpl.
  assert (Hall : ∀ child, child ∈ kids → cx_child_step ref t2 child = Ok t2).
  { intros child Hin. apply (cx_child_step_absorbed ref child a); [done|].
    intros Htc.
    destruct (foldM_elem_Ok _ _ _ _ child Hrun Hin) as (u & u' & Hu).
    unfold cx_child_step in Hu. rewrite Htc in Hu.
    apply bind_Ok in Hu as (u1 & Hu1 & _).
    apply nodes_setdefault_facts in Hu1 as (b & Hb & _).
    assert (Hch : dep_child dep b) by (by exists d, kids, child).
    exists b. split_and!; [done| |].
    - apply Hdom, Hnodes. right; right. split; [by exists a|done].
    - apply Hge, Hedges. by right. }
  by apply foldM_fixed.
Qed.

Lemma cx_dep_fold_repeat (s s' : SBOM) (l1 l2 l3 : list json) (dep : json) :
  foldM cx_dep_step s (l1 ++ dep :: l2 ++ l3)%list = Ok s' →
  foldM cx_dep_step s (l1 ++ dep :: l2 ++ dep :: l3)%list = Ok s'.
Proof.
  rewrite !foldM_app. intros (t & H1 & Hrun)%bind_Ok. rewrite H1. simpl in *.
  apply bind_Ok in Hrun as (t1 & Hdep & Hrun). rewrite Hdep. simpl.
  rewrite foldM_app in Hrun |- *. apply bind_Ok in Hrun as (t2 & H2 & H3).
  rewrite H2. simpl.
  rewrite (cx_dep_step_absorbed dep t t1 t2 Hdep); [done|].
  eapply foldM_grows; [|exact H2]. intros ???. apply cx_dep_step_grows.
Qed.

(** X4. Repeating a dependency entry later in the [dependencies] list
    changes nothing: the document with the repetition normalises to the
    same graph as the document without it. *)
Theorem repeated_dependency_entry (obj obj' : json) (l1 l2 l3 : list json)
    (dep : json) (s : SBOM) :
  get_default obj' "components" (JList []) = get_default obj "components" (JList []) →
  get_default obj' "metadata" (JDict []) = get_default obj "metadata" (JDict []) →
  get_default obj "dependencies" (JList []) = Ok (JList (l1 ++ dep :: l2 ++ l3)%list) →
  get_default obj' "dependencies" (JList []) = Ok (JList (l1 ++ dep :: l2 ++ dep :: l3)%list) →
  _from_cyclonedx obj = Ok s →
  _from_cyclonedx obj' = Ok s.
Proof.
  intros Hc Hm Hd Hd' (s4 & rid & s5 & Hb & Hr & Ha)%from_cyclonedx_Ok.
  apply from_cyclonedx_Ok. exists s4, rid, s5. split_and!; [|done..].
  apply cx_build_Ok in Hb as (s3 & comps & Hp & Hf).
  apply cx_build_Ok. exists s3, comps. split; [|done].
  apply cx_primary_Ok in Hp as (s2 & ds & dl & Hdecl & Hds & Hdl & Hs3).
  apply cx_primary_Ok. exists s2, (JList (l1 ++ dep :: l2 ++ dep :: l3)%list),
    (l1 ++ dep :: l2 ++ dep :: l3)%list. split_and!.
  - unfold cx_declare, cx_metadata in *. by rewrite Hc, Hm.
  - done.
  - by rewrite py_or_list_id.
  - apply cx_dep_fold_repeat. rewrite Hd in Hds. injection Hds as <-.
    assert (dl = (l1 ++ dep :: l2 ++ l3)%list) as ->; [|done].
    rewrite py_or_list_id in Hdl. simpl in Hdl. congruence.
Qed.

(** X5. A member of [components] that is not a JSON object makes
    normalisation fail: [from_json] raises [AttributeError] or [TypeError]
    and returns no graph. *)
Theorem non_object_component_rejected (obj : json) (cl : list json) (c : json) :
  get_default obj "components" (JList []) = Ok (JList cl) →
  c ∈ cl → is_dict c = false →
  ∃ e, from_json obj = Raise e ∧ e ≠ ValueError.
Proof.
  intros Hcs Hin Hc.
  assert (Hfrom : from_json obj = _from_cyclonedx obj).
  { unfold from_json. destruct obj as [| | | | |kvs]; try done. simpl in *.
    injection Hcs as Hcs.
    assert (Hsome : is_Some (dict_get kvs "components")).
    { destruct (dict_get kvs "components"); [by eexists|]. simpl in Hcs.
      injection Hcs as <-. by apply elem_of_nil in Hin. }
    rewrite (bool_decide_eq_true_2 _ Hsome). by rewrite orb_true_r. }
  rewrite Hfrom. pose proof (plain_from_cyclonedx obj) as [Hv Hfuel].
  destruct (_from_cyclonedx obj) as [s|e|] eqn:Hrun; [|by exists e; split; congruence|done].
  exfalso. apply from_cyclonedx_Ok in Hrun as (s4 & rid & s5 & Hb & _).
  apply cx_build_Ok in Hb as (s3 & comps & Hp & _).
  apply cx_primary_Ok in Hp as (s2 & _ & _ & Hd & _).
  unfold cx_declare in Hd. rewrite Hcs in Hd. simpl in Hd.
  rewrite py_or_list_id in Hd. simpl in Hd. apply bind_Ok in Hd as (s1 & H1 & _).
  destruct (foldM_elem_Ok _ _ _ _ c H1 Hin) as (t & t' & Hstep).
  unfold cx_component_step, cx_id in Hstep. by destruct c.
Qed.

End Labels.

(** ** Relationship types *)

Lemma ascii_upper_lower_hyphen (c : ascii) :
  ascii_upper (ascii_lower (if Ascii.eqb c "-" then "_"%char else c))
  = (if Ascii.eqb (ascii_upper c) "-" then "_"%char else ascii_upper c).
Proof. destruct c as [[] [] [] [] [] [] [] []]; reflexivity. Qed.

Lemma upper_of_lower_hyphen (t : string) :
  upper (lower (replace_char "-" "_" t)) = replace_char "-" "_" (upper t).
Proof.
  unfold upper, lower, replace_char. induction t as [|c t IH]; [done|].
  simpl. by rewrite IH, ascii_upper_lower_hyphen.
Qed.

(** X6. Relationship types are matched without regard to the case of the
    letters A-Z and with "-" read as "_": two entries whose types agree up
    to these differences get the same normalised type. *)
Theorem relationship_type_ignores_case (rel rel' : json) (t t' : string) :
  get rel "relationshipType" = Ok (JStr t) →
  get rel' "relationshipType" = Ok (JStr t') →
  lower (replace_char "-" "_" t) = lower (replace_char "-" "_" t') →
  spdx_rel_type rel = spdx_rel_type rel'.
Proof.
  intros Ht Ht' Heq. unfold spdx_rel_type. rewrite Ht, Ht'. simpl.
  assert (Hn : ∀ x, match py_or (JStr x) (JStr "") with
                    | JStr y => Ok (replace_char "-" "_" (upper y))
                    | _ => Raise AttributeError
                    end = Ok (replace_char "-" "_" (upper x))).
  { intros x. unfold py_or. destruct x; done. }
  rewrite !Hn, <- !upper_of_lower_hyphen. by rewrite Heq.
Qed.

Lemma relabelled_doc_normalised :
  @_from_cyclonedx example_runtime relabelled_doc = Ok relabelled_graph.
Proof. vm_compute. reflexivity. Qed.

Lemma component_label_kept_witness :
  nodes relabelled_graph !! KStr "a" = Some (JStr "second").
Proof.
  apply (@component_label_kept example_runtime relabelled_doc
           (JList [JDict [("bom-ref", JStr "a"); ("name", JStr "first")];
                   JDict [("bom-ref", JStr "a"); ("name", JStr "second")]])
           [JDict [("bom-ref", JStr "a"); ("name", JStr "first")]] []
           (JDict [("bom-ref", JStr "a"); ("name", JStr "second")])
           (JStr "second") (KStr "a") relabelled_graph).
  - reflexivity.
  - reflexivity.
  - exists (JStr "a"). split_and!; reflexivity.
  - intros c' Hc'. by apply elem_of_nil in Hc'.
  - reflexivity.
  - exact relabelled_doc_normalised.
Defined.

Lemma repeated_dependency_entry_witness :
  @_from_cyclonedx example_runtime scenario_A_repeated = Ok scenario_A_graph.
Proof.
  apply (@repeated_dependency_entry example_runtime scenario_A scenario_A_repeated
           [] [] [] scenario_B_dependency scenario_A_graph).
  - reflexivity.
  - reflexivity.
  - reflexivity.
  - reflexivity.
  - vm_compute. reflexivity.
Defined.

Lemma non_object_component_rejected_witness :
  ∃ e, @from_json example_runtime stray_component_doc = Raise e ∧ e ≠ ValueError.
Proof.
  apply (@non_object_component_rejected example_runtime stray_component_doc
           [JDict [("bom-ref", JStr "a")]; JStr "b"] (JStr "b")).
  - reflexivity.
  - apply list_elem_of_further, list_elem_of_here.
  - reflexivity.
Defined.

Lemma relationship_type_ignores_case_witness :
  spdx_rel_type reverse_rel
  = spdx_rel_type (JDict [("relationshipType", JStr "Build_Dependency-Of")]).
Proof.
  apply (relationship_type_ignores_case reverse_rel
           (JDict [("relationshipType", JStr "Build_Dependency-Of")])
           "build-dependency-of" "Build_Dependency-Of").
  - reflexivity.
  - reflexivity.
  - reflexivity.
Defined.

(** ** Choosing the roots to render *)

Section Forest.
Context `{Runtime}.

Lemma filter_M_nodes_mem (ids : list key) (w : world) :
  filter_M nodes_mem ids w = (Ok (filter (λ k, k ∈ dom (nodes (w_sbom w))) ids), w).
Proof.
  induction ids as [|k ids IH]; [done|]. simpl.
  unfold mbind at 1, M_bind. unfold nodes_mem at 1.
  unfold mbind at 1, M_bind. rewrite IH. unfold mret, M_ret.
  rewrite filter_cons. by case_bool_decide; case_decide.
Qed.

Lemma build_forest_known (w : world) (ids : list key) :
  build_forest (Some ids) w =
  (let known := filter (λ k, k ∈ dom (nodes (w_sbom w))) ids in
   if decide (known = []) then build_forest None w else (Ok known, w)).
Proof.
  destruct ids as [|k ids]; [done|]. cbv zeta.
  unfold build_forest. unfold mbind at 1, M_bind. rewrite filter_M_nodes_mem.
  case_bool_decide as Hne; case_decide as Hd; try done.
Qed.

(** X7. Requested start ids that are nodes of the graph are returned as
    they were given, in their order and with their repetitions; ids that
    are no node are dropped, and when none is a node the request is ignored
    and the roots of the graph are used. *)
Theorem build_forest_requested (w : world) (ids : list key) :
  build_forest (Some ids) w =
  (let known := filter (λ k, k ∈ dom (nodes (w_sbom w))) ids in
   if decide (known = []) then build_forest None w else (Ok known, w)).
Proof. apply build_forest_known. Qed.

Lemma mapM_res_Raise {A B : Type} (f : A → res B) (l : list A) (e : pyexn) :
  mapM_res f l = Raise e → ∃ x, x ∈ l ∧ f x = Raise e.
Proof.
  induction l as [|x l IH]; simpl; [done|].
  destruct (f x) as [y|e'|] eqn:Hx; simpl; [|intros [= <-]; exists x; split; [by left|done]|done].
  destruct (mapM_res f l) as [ys|e'|]; simpl; [done| |done].
  intros [= <-]. destruct IH as (z & Hz & Hfz); [done|]. exists z. split; [by right|done].
Qed.

Lemma mapM_res_all_Ok {A B : Type} (f : A → res B) (l : list A) :
  (∃ k, mapM_res f l = Ok k) ↔ ∀ x, x ∈ l → ∃ y, f x = Ok y.
Proof.
  induction l as [|x l IH]; simpl.
  - split; [intros _ x Hx; by apply elem_of_nil in Hx|eauto].
  - split.
    + intros (k & (y & Hy & Hrun)%bind_Ok) z Hz.
      apply bind_Ok in Hrun as (ys & Hys & _).
      apply elem_of_cons in Hz as [->|Hz]; [eauto|]. apply IH; eauto.
    + intros Hall. destruct (Hall x) as [y ->]; [by left|]. simpl.
      destruct (proj2 IH) as [ys ->]; [|simpl; eauto].
      intros z Hz. apply Hall. by right.
Qed.

Lemma sorted_pure_outcome (s : SBOM) (xs : list key) :
  ((∃ l, sorted_pure s xs = Ok l) ↔ ∀ k, k ∈ xs → is_str (label_of s k) = true) ∧
  (sorted_pure s xs = Raise AttributeError ↔
   ∃ k, k ∈ xs ∧ is_str (label_of s k) = false).
Proof.
  set (g := λ rid, k ← sort_key s rid; Ok (k, rid)).
  assert (Hg : ∀ k, (is_str (label_of s k) = true ↔ ∃ y, g k = Ok y) ∧
                    (is_str (label_of s k) = false ↔ g k = Raise AttributeError)).
  { intros k. unfold g, sort_key. destruct (label_of s k); simpl; split; split;
      try done; try (by intros [? ?]); eauto. }
  assert (Hok : (∃ l, sorted_pure s xs = Ok l) ↔ ∀ k, k ∈ xs → is_str (label_of s k) = true).
  { unfold sorted_pure. fold g. split.
    - intros (l & (keyed & Hk & _)%bind_Ok) k Hin. apply Hg.
      eapply mapM_res_all_Ok; eauto.
    - intros Hall. destruct (proj2 (mapM_res_all_Ok g xs)) as [keyed ->]; [|simpl; eauto].
      intros k Hin. apply Hg. by apply Hall. }
  split; [done|]. split.
  - unfold sorted_pure. fold g. intros Hr.
    destruct (mapM_res g xs) as [keyed|e|] eqn:Hm; simpl in Hr; [done| |done].
    injection Hr as ->. apply mapM_res_Raise in Hm as (k & Hin & Hk).
    exists k. split; [done|]. by apply Hg.
  - intros (k & Hin & Hk).
    pose proof (sorted_pure_plain s xs) as Hfuel.
    destruct (sorted_pure s xs) as [l|e|] eqn:Hs; [| |done].
    + assert (is_str (label_of s k) = true) by (apply Hok; eauto). congruence.
    + unfold sorted_pure in Hs. fold g in Hs.
      destruct (mapM_res g xs) as [keyed|e'|] eqn:Hm; simpl in Hs; [done| |done].
      injection Hs as ->. apply mapM_res_Raise in Hm as (j & _ & Hj).
      unfold g, sort_key in Hj. destruct (label_of s j); simpl in Hj; congruence.
Qed.

(** X8. Without a usable request the roots are sorted by label, and that
    needs every root's label to be a string: [build_forest] returns a list
    exactly when it is so, and raises [AttributeError] exactly when some
    root has a label that is no string. *)
Theorem build_forest_needs_string_labels (w : world) :
  ((∃ l, build_forest None w = (Ok l, w)) ↔
   ∀ k, k ∈ roots (w_sbom w) → is_str (label_of (w_sbom w) k) = true) ∧
  (build_forest None w = (Raise AttributeError, w) ↔
   ∃ k, k ∈ roots (w_sbom w) ∧ is_str (label_of (w_sbom w) k) = false).
Proof.
  rewrite (build_forest_default w None) by (by left).
  destruct (sorted_pure_outcome (w_sbom w) (set_order (roots (w_sbom w)))) as [Hok Hraise].
  assert (Hin : ∀ k, k ∈ set_order (roots (w_sbom w)) ↔ k ∈ roots (w_sbom w)).
  { intros k. by rewrite set_order_perm, elem_of_elements. }
  split.
  - split.
    + intros (l & [= Hl]) k Hk. apply Hok; [eauto|by apply Hin].
    + intros Hall. destruct (proj2 Hok) as [l Hl]; [|exists l; by rewrite Hl].
      intros k Hk. apply Hall. by apply Hin.
  - split.
    + intros [= Hr]. apply Hraise in Hr as (k & Hk & Hs). exists k. split; [by apply Hin|done].
    + intros (k & Hk & Hs). f_equal. apply Hraise. exists k. split; [by apply Hin|done].
Qed.

(** ** The depth limit *)

Lemma for_each_roots_only (s : SBOM) (body : key → M unit) (line : key → string → Prop)
    (roots : list key) (texts : list string) :
  (∀ r t w, w_sbom w = s → line r t →
     body r w = (Ok tt, mkWorld (w_sbom w) (w_visited w) (w_out w ++ [t; ""]))) →
  Forall2 line roots texts →
  ∀ w, w_sbom w = s →
    for_each roots body w =
    (Ok tt, mkWorld (w_sbom w) (w_visited w) (w_out w ++ concat ((λ t, [t; ""]) <$> texts))).
Proof.
  intros Hb. induction 1 as [|r t roots texts Hrt _ IH]; intros w Hw; simpl.
  - rewrite app_nil_r. by destruct w.
  - unfold mbind, M_bind. rewrite (Hb r t w Hw Hrt). rewrite IH by done.
    simpl. by rewrite <- app_assoc.
Qed.

(** X9. With a depth limit of zero or less the ASCII renderer prints, for
    every root, its line and an empty line, and nothing else. *)
Theorem ascii_depth_limit_zero (w : world) (roots : list key) (texts : list string)
    (show_ids include_dupes : bool) (d : Z) :
  (d ≤ 0)%Z →
  Forall2 (λ r t, node_text show_ids (label_of (w_sbom w) r) r = JStr t) roots texts →
  ascii_trees roots show_ids (Some d) include_dupes w =
  (Ok tt, mkWorld (w_sbom w) ∅ (w_out w ++ concat ((λ t, [t; ""]) <$> texts))).
Proof.
  intros Hd Htexts. unfold ascii_trees.
  unfold mbind at 1, M_bind. unfold visited_new at 1.
  unfold mbind at 1, M_bind. unfold edges_len at 1. cbn [w_sbom].
  rewrite (for_each_roots_only (w_sbom w) _
             (λ r t, node_text show_ids (label_of (w_sbom w) r) r = JStr t) roots texts);
    [done| |done|done].
  intros r t w' Hw' Hline. cbn [render].
  unfold mbind, M_bind, nodes_get. rewrite Hw'. fold (label_of (w_sbom w) r).
  assert (Hlim : at_limit (Some d) 0 = true).
  { unfold at_limit. apply bool_decide_eq_true. lia. }
  unfold lift. rewrite Hline, Hlim. simpl.
  unfold print, mret, M_ret. simpl. rewrite Hw'. by rewrite <- app_assoc.
Qed.

End Forest.

Lemma ascii_depth_limit_zero_witness :
  @ascii_trees example_runtime [KStr "a"] false (Some 0%Z) false (start two_cycle) =
  (Ok tt, mkWorld two_cycle ∅ ["a"; ""]).
Proof.
  apply (@ascii_depth_limit_zero example_runtime (start two_cycle) [KStr "a"] ["a"]
           false false 0%Z).
  - lia.
  - repeat constructor.
Defined.

(** ** Computations that only read *)

Lemma bindM_Ok {A B : Type} (m : M A) (f : A → M B) (w w' : world) (b : B) :
  (m ≫= f) w = (Ok b, w') ↔ ∃ a w1, m w = (Ok a, w1) ∧ f a w1 = (Ok b, w').
Proof.
  unfold mbind, M_bind. destruct (m w) as [[a|e|] w1]; split;
    try done; try (by intros (? & ? & [=] & _)).
  - eauto.
  - by intros (a' & w1' & [= <- <-] & Hf).
Qed.

Lemma reads_only_bind {A B : Type} (m : M A) (f : A → M B) :
  reads_only m → (∀ a, reads_only (f a)) → reads_only (m ≫= f).
Proof.
  intros Hm Hf w. unfold mbind, M_bind. specialize (Hm w).
  destruct (m w) as [[a|e|] w1]; simpl in *; subst; [apply Hf|done..].
Qed.

Lemma reads_only_ret {A : Type} (a : A) : reads_only (mret a).
Proof. done. Qed.

Lemma reads_only_lift {A : Type} (r : res A) : reads_only (lift r).
Proof. done. Qed.

Lemma reads_only_mapM_M {A B : Type} (f : A → M B) (l : list A) :
  (∀ x, reads_only (f x)) → reads_only (mapM_M f l).
Proof.
  intros Hf. induction l as [|x l IH]; simpl; [done|].
  apply reads_only_bind; [done|]. intros y.
  apply reads_only_bind; [done|]. intros ys. done.
Qed.

Lemma reads_only_fold_M {A B : Type} (body : B → A → M B) (l : list A) (acc : B) :
  (∀ b x, reads_only (body b x)) → reads_only (fold_M body acc l).
Proof.
  intros Hb. revert acc. induction l as [|x l IH]; intros acc; simpl; [done|].
  apply reads_only_bind; [done|]. intros acc'. apply IH.
Qed.

Lemma mapM_M_Ok {A B : Type} (f : A → M B) (l : list A) (k : list B) (w w' : world) :
  (∀ x, reads_only (f x)) →
  mapM_M f l w = (Ok k, w') → w' = w ∧ Forall2 (λ x y, f x w = (Ok y, w)) l k.
Proof.
  intros Hf. revert k. induction l as [|x l IH]; intros k; simpl.
  - intros [= <- <-]. split; [done|constructor].
  - intros (y & w1 & Hy & Hrun)%bindM_Ok.
    apply bindM_Ok in Hrun as (ys & w2 & Hys & [= <- <-]).
    pose proof (Hf x w) as Hw1. rewrite Hy in Hw1. simpl in Hw1. subst w1.
    apply IH in Hys as [-> Hall]. split; [done|]. by constructor.
Qed.

Lemma Forall2_impl_elem {A B : Type} (P Q : A → B → Prop) (l : list A) (k : list B) :
  Forall2 P l k → (∀ x y, x ∈ l → P x y → Q x y) → Forall2 Q l k.
Proof.
  induction 1 as [|x y l k Hxy _ IH]; intros HPQ; constructor.
  - apply HPQ; [by left|done].
  - apply IH. intros a b Ha. apply HPQ. by right.
Qed.

Lemma filter_all {A : Type} (P : A → Prop) `{∀ x, Decision (P x)} (l : list A) :
  (∀ x, x ∈ l → P x) → filter P l = l.
Proof.
  induction l as [|x l IH]; intros Hall; [done|].
  rewrite filter_cons, decide_True by (apply Hall; by left).
  f_equal. apply IH. intros y Hy. apply Hall. by right.
Qed.

Section Dot.
Context `{Runtime}.

Lemma reads_only_bfs (fuel : nat) (dq : list key) (acc : gset key) :
  reads_only (bfs fuel dq acc).
Proof.
  revert dq acc. induction fuel as [|fuel IH]; intros [|n dq] acc; simpl; try done.
  case_bool_decide; [apply IH|].
  apply reads_only_bind; [done|]. intros kids. apply IH.
Qed.

Lemma reads_only_dot_node_line (n : key) : reads_only (dot_node_line n).
Proof.
  unfold dot_node_line. apply reads_only_bind; [done|]. intros v.
  apply reads_only_bind; [done|]. done.
Qed.

Lemma reads_only_dot_edge_lines (R : gset key) (src : key) :
  reads_only (dot_edge_lines R src).
Proof.
  unfold dot_edge_lines. apply reads_only_bind; [done|]. intros kids.
  apply reads_only_bind; [done|]. done.
Qed.

Lemma has_edge_kids (s : SBOM) (a b : key) :
  has_edge s a b ↔ b ∈ default ∅ (edges s !! a).
Proof.
  unfold has_edge. destruct (edges s !! a) as [kids|]; simpl.
  - split; [by intros (? & [= <-] & ?)|eauto].
  - split; [by intros (? & [=] & _)|set_solver].
Qed.

(** The walk from a queue: what it reaches is closed under the edges,
    holds the queue and what was reached before, and nothing else than
    what the edges lead to. *)
Lemma bfs_spec (s : SBOM) (P : key → Prop) (fuel : nat) :
  (∀ a b, P a → has_edge s a b → P b) →
  ∀ dq acc w R w',
    w_sbom w = s →
    bfs fuel dq acc w = (Ok R, w') →
    (∀ k, k ∈ acc → P k) → (∀ n, n ∈ dq → P n) →
    (∀ a b, a ∈ acc → has_edge s a b → b ∈ acc ∨ b ∈ dq) →
    acc ⊆ R ∧ (∀ n, n ∈ dq → n ∈ R) ∧ (∀ k, k ∈ R → P k) ∧
    (∀ a b, a ∈ R → has_edge s a b → b ∈ R).
Proof.
  intros HP. induction fuel as [|fuel IH]; intros dq acc w R w' Hw Hrun Hacc Hdq Hcl.
  - destruct dq as [|n dq]; simpl in Hrun; [|done]. injection Hrun as <- <-.
    split_and!; [done|by intros n Hn; apply elem_of_nil in Hn|done|].
    intros a b Ha Hab. destruct (Hcl a b Ha Hab) as [?|Hb]; [done|].
    by apply elem_of_nil in Hb.
  - destruct dq as [|n dq]; simpl in Hrun.
    { injection Hrun as <- <-.
      split_and!; [done|by intros n Hn; apply elem_of_nil in Hn|done|].
      intros a b Ha Hab. destruct (Hcl a b Ha Hab) as [?|Hb]; [done|].
      by apply elem_of_nil in Hb. }
    case_bool_decide as Hn.
    + apply IH in Hrun as (Hsub & Hq & Hsound & Hclosed); [|done|done| |].
      * split_and!; [done| |done..].
        intros m [->|Hm]%elem_of_cons; [by apply Hsub|by apply Hq].
      * intros m Hm. apply Hdq. by right.
      * intros a b Ha Hab. destruct (Hcl a b Ha Hab) as [?|Hb]; [by left|].
        apply elem_of_cons in Hb as [->|?]; [by left|by right].
    + apply bindM_Ok in Hrun as (kids & w1 & Hk & Hrun).
      unfold edges_get in Hk. injection Hk as <- <-. rewrite Hw in Hrun.
      apply IH in Hrun as (Hsub & Hq & Hsound & Hclosed); [|done| | |].
      * split_and!; [set_solver| |done..].
        intros m [->|Hm]%elem_of_cons; [set_solver|].
        apply Hq. apply elem_of_app. by left.
      * intros k [?| ->%elem_of_singleton]%elem_of_union; [by apply Hacc|].
        apply Hdq. by left.
      * intros m [Hm|Hm]%elem_of_app; [apply Hdq; by right|].
        rewrite set_order_perm, elem_of_elements in Hm.
        apply (HP n); [apply Hdq; by left|by apply has_edge_kids].
      * intros a b [Ha| ->%elem_of_singleton]%elem_of_union Hab.
        -- destruct (Hcl a b Ha Hab) as [?|Hb]; [left; set_solver|].
           apply elem_of_cons in Hb as [->|?]; [left; set_solver|].
           right. apply elem_of_app. by left.
        -- right. apply elem_of_app. right.
           rewrite set_order_perm, elem_of_elements. by apply has_edge_kids.
Qed.

Lemma bfs_fold_spec (s : SBOM) (P : key → Prop) (fuel : nat) (roots : list key) :
  (∀ a b, P a → has_edge s a b → P b) →
  (∀ r, r ∈ roots → P r) →
  ∀ acc w R w',
    w_sbom w = s →
    fold_M (λ acc root, bfs fuel [root] acc) acc roots w = (Ok R, w') →
    (∀ k, k ∈ acc → P k) →
    (∀ a b, a ∈ acc → has_edge s a b → b ∈ acc) →
    acc ⊆ R ∧ (∀ r, r ∈ roots → r ∈ R) ∧ (∀ k, k ∈ R → P k) ∧
    (∀ a b, a ∈ R → has_edge s a b → b ∈ R).
Proof.
  intros HP. induction roots as [|r roots IH]; intros Hroots acc w R w' Hw Hrun Hacc Hcl;
    simpl in Hrun.
  - injection Hrun as <- <-. split_and!; [done| |done..].
    intros r Hr. by apply elem_of_nil in Hr.
  - apply bindM_Ok in Hrun as (acc1 & w1 & Hr & Hrun).
    pose proof (reads_only_bfs fuel [r] acc w) as Hw1. rewrite Hr in Hw1.
    simpl in Hw1. subst w1.
    apply (bfs_spec s P fuel HP) in Hr as (Hsub1 & Hq1 & Hsound1 & Hcl1); [|done..| |].
    2:{ intros n ->%list_elem_of_singleton. apply Hroots. by left. }
    2:{ intros a b Ha Hab. left. by eapply Hcl. }
    apply IH in Hrun as (Hsub & Hq & Hsound & Hclosed); [|intros; apply Hroots; by right|done..].
    split_and!; [set_solver| |done..].
    intros m [->|Hm]%elem_of_cons; [|by apply Hq].
    apply Hsub, Hq1. by left.
Qed.

(** X10. The DOT text has one node statement for every id that is a root
    given to [to_dot] or can be reached from one along edges, and for no
    other id, in ascending order of the ids; then, for every such id in the
    same order, one edge statement for each of its children, in ascending
    order of the children's ids: no edge of a reached node is left out. *)
Theorem to_dot_lists_reachable (w : world) (roots : list key) (text : string) (w' : world) :
  to_dot roots w = (Ok text, w') →
  ∃ ns node_lines edge_lines,
    (∀ k, k ∈ ns ↔ reachable_from (w_sbom w) roots k) ∧
    NoDup ns ∧ Sorted id_le ns ∧
    Forall2 (λ n line, dot_node_line n w = (Ok line, w)) ns node_lines ∧
    Forall2 (λ src lines,
               ∃ dsts, dsts ≡ₚ elements (default ∅ (edges (w_sbom w) !! src)) ∧
                 Sorted id_le dsts ∧ lines = dot_edge_line src <$> dsts)
            ns edge_lines ∧
    text = join newline
             (["digraph SBOM {"; "  rankdir=LR;"; "  node [shape=box, fontsize=10];"]
              ++ node_lines ++ concat edge_lines ++ ["}"])%list.
Proof.
  unfold to_dot. intros (fuel & w1 & Hf & Hrun)%bindM_Ok.
  unfold bfs_fuel in Hf. injection Hf as _ <-.
  apply bindM_Ok in Hrun as (R & w2 & HR & Hrun).
  pose proof (reads_only_fold_M (λ acc root, bfs fuel [root] acc) roots ∅
                (λ b x, reads_only_bfs _ _ _) w) as Hw2.
  rewrite HR in Hw2. simpl in Hw2. subst w2.
  apply (bfs_fold_spec (w_sbom w) (reachable_from (w_sbom w) roots)) in HR
    as (_ & Hroots & Hsound & Hclosed); [| | |done| |].
  2:{ intros a b (r & Hr & Hra) Hab. exists r. split; [done|]. by eapply rtc_r. }
  2:{ intros r Hr. by exists r. }
  2:{ intros k Hk. by apply not_elem_of_empty in Hk. }
  2:{ intros a b Ha. by apply not_elem_of_empty in Ha. }
  assert (HRspec : ∀ k, k ∈ R ↔ reachable_from (w_sbom w) roots k).
  { intros k. split; [apply Hsound|]. intros (r & Hr & Hrk).
    apply Hroots in Hr. induction Hrk as [|a b c Hab _ IH]; [done|].
    apply IH. by eapply Hclosed. }
  apply bindM_Ok in Hrun as (ns & w3 & Hns & Hrun).
  unfold lift in Hns. injection Hns as Hns <-.
  apply bindM_Ok in Hrun as (node_lines & w4 & Hnl & Hrun).
  apply mapM_M_Ok in Hnl as [-> Hnl]; [|apply reads_only_dot_node_line].
  apply bindM_Ok in Hrun as (srcs & w5 & Hsrcs & Hrun).
  unfold lift in Hsrcs. injection Hsrcs as Hsrcs <-.
  assert (srcs = ns) as -> by congruence.
  apply bindM_Ok in Hrun as (edge_lines & w6 & Hel & [= <- <-]).
  apply mapM_M_Ok in Hel as [_ Hel]; [|apply reads_only_dot_edge_lines].
  pose proof (py_sorted_perm _ _ Hns) as Hperm.
  exists ns, node_lines, edge_lines. split_and!; [| |by eapply py_sorted_sorted|done| |done].
  - intros k. by rewrite Hperm, elem_of_elements.
  - rewrite Hperm. apply NoDup_elements.
  - eapply Forall2_impl_elem; [exact Hel|]. intros src lines Hsrc.
    rewrite Hperm, elem_of_elements in Hsrc.
    unfold dot_edge_lines, edges_get, lift. unfold mbind, M_bind. simpl.
    destruct (py_sorted (elements (default ∅ (edges (w_sbom w) !! src))))
      as [dsts| |] eqn:Hsort; [|done..].
    intros [= <-]. exists dsts.
    pose proof (py_sorted_perm _ _ Hsort) as Hp.
    split_and!; [done|by eapply py_sorted_sorted|].
    f_equal. apply filter_all. intros dst Hdst.
    rewrite Hp, elem_of_elements in Hdst.
    eapply Hclosed; [exact Hsrc|]. by apply has_edge_kids.
Qed.

End Dot.

Lemma to_dot_lists_reachable_witness :
  ∃ ns node_lines edge_lines,
    (∀ k, k ∈ ns ↔ reachable_from shared_root [KStr "r"] k) ∧
    NoDup ns ∧ Sorted id_le ns ∧
    Forall2 (λ n line, @dot_node_line example_runtime n (start shared_root)
                       = (Ok line, start shared_root)) ns node_lines ∧
    Forall2 (λ src lines,
               ∃ dsts, dsts ≡ₚ elements (default ∅ (edges shared_root !! src)) ∧
                 Sorted id_le dsts ∧ lines = @dot_edge_line example_runtime src <$> dsts)
            ns edge_lines ∧
    shared_root_dot = join newline
             (["digraph SBOM {"; "  rankdir=LR;"; "  node [shape=box, fontsize=10];"]
              ++ node_lines ++ concat edge_lines ++ ["}"])%list.
Proof.
  apply (@to_dot_lists_reachable example_runtime (start shared_root) [KStr "r"]
           shared_root_dot (start shared_root)).
  vm_compute. reflexivity.
Defined.

(** ** Graphs of strings are rendered without an exception *)

Lemma never_raises_bind {A B : Type} (s : SBOM) (m : M A) (f : A → M B) (w : world) :
  frame m → w_sbom w = s → never_raises m w →
  (∀ a w', w_sbom w' = s → m w = (Ok a, w') → never_raises (f a) w') →
  never_raises (m ≫= f) w.
Proof.
  intros Hfr Hw Hm Hf e. unfold never_raises, mbind, M_bind in *.
  specialize (Hfr w). specialize (Hm e).
  destruct (m w) as [[a|e'|] w'] eqn:Hmw; simpl in *; [|by intros [= ->]|done].
  apply Hf; [congruence|done].
Qed.

Lemma never_raises_for_each {A : Type} (s : SBOM) (l : list A) (body : A → M unit) (w : world) :
  (∀ x, frame (body x)) → w_sbom w = s →
  (∀ x w', x ∈ l → w_sbom w' = s → never_raises (body x) w') →
  never_raises (for_each l body) w.
Proof.
  intros Hfr. revert w. induction l as [|x l IH]; intros w Hw Hb; simpl; [done|].
  eapply never_raises_bind; [apply Hfr|exact Hw|apply Hb; [by left|done]|].
  intros _ w' Hw' _. apply IH; [done|]. intros y w'' Hy. apply Hb. by right.
Qed.

Lemma never_raises_mapM_M {A B : Type} (s : SBOM) (l : list A) (f : A → M B) (w : world) :
  (∀ x, frame (f x)) → w_sbom w = s →
  (∀ x w', x ∈ l → w_sbom w' = s → never_raises (f x) w') →
  never_raises (mapM_M f l) w.
Proof.
  intros Hfr. revert w. induction l as [|x l IH]; intros w Hw Hb; simpl; [done|].
  eapply never_raises_bind; [apply Hfr|exact Hw|apply Hb; [by left|done]|].
  intros y w' Hw' _.
  eapply never_raises_bind; [by apply frame_mapM_M|exact Hw'| |done].
  apply IH; [done|]. intros z w'' Hz. apply Hb. by right.
Qed.

Lemma returns_Ok {A : Type} (m : M A) (w : world) :
  returns m w → never_raises m w → ∃ a w', m w = (Ok a, w').
Proof.
  unfold returns, never_raises. destruct (m w) as [[a|e|] w']; simpl; intros Hr Hn.
  - eauto.
  - by destruct (Hn e).
  - done.
Qed.

Lemma str_graph_label (s : SBOM) (k : key) :
  str_graph s → str_key k → ∃ t, label_of s k = JStr t.
Proof.
  intros (Hn & _) [i ->]. unfold label_of.
  destruct (nodes s !! KStr i) as [v|] eqn:Hv; simpl; [|eauto].
  destruct (Hn _ _ Hv) as [_ Hs]. destruct v; try done. eauto.
Qed.

Lemma str_graph_kids (s : SBOM) (node k : key) :
  str_graph s → k ∈ default ∅ (edges s !! node) → str_key k.
Proof.
  intros (_ & He & _). destruct (edges s !! node) as [kids|] eqn:Hk; simpl; [|set_solver].
  intros Hin. by destruct (He _ _ Hk) as [_ Hkids]; apply Hkids.
Qed.

Section Safe.
Context `{Runtime}.

Lemma children_of_str (s : SBOM) (node : key) (w : world) :
  str_graph s → w_sbom w = s →
  ∃ l, children_of node w = (Ok l, w) ∧ Forall str_key l.
Proof.
  intros Hs Hw. rewrite children_of_pure, Hw.
  destruct (sorted_pure_outcome s (set_order (default ∅ (edges s !! node))))
    as [Hok _].
  destruct (proj2 Hok) as [l Hl].
  { intros k Hk. rewrite set_order_perm, elem_of_elements in Hk.
    destruct (str_graph_label s k Hs) as [t ->]; [by eapply str_graph_kids|done]. }
  exists l. split; [by rewrite Hl|].
  apply sorted_pure_spec in Hl as (Hp & _). apply Forall_forall. intros k Hk.
  rewrite Hp, set_order_perm, elem_of_elements in Hk. by eapply str_graph_kids.
Qed.

Lemma render_never_raises (s : SBOM) (fuel : nat) show_ids max_depth include_dupes :
  str_graph s →
  ∀ node prefix seen last depth w,
    w_sbom w = s → str_key node →
    never_raises (render fuel show_ids max_depth include_dupes node prefix seen last depth) w.
Proof.
  intros Hs. induction fuel as [|fuel IH]; intros node prefix seen last depth w Hw Hnode;
    [done|].
  simpl.
  eapply never_raises_bind; [apply frame_nodes_get|exact Hw|done|].
  intros label w1 Hw1 Hlabel. unfold nodes_get in Hlabel. injection Hlabel as <- <-.
  fold (label_of (w_sbom w) node). rewrite Hw.
  destruct (str_graph_label s node Hs Hnode) as [t Ht]. rewrite Ht.
  eapply never_raises_bind; [apply frame_lift|exact Hw| |].
  { unfold node_text. by destruct show_ids. }
  intros line w2 Hw2 _.
  eapply never_raises_bind; [apply frame_print|exact Hw2|done|].
  intros _ w3 Hw3 _.
  destruct (at_limit max_depth depth); [done|].
  case_bool_decide as Hseen; [done|].
  destruct (children_of_str s node w3 Hs Hw3) as (children & Hch & Hstr).
  eapply never_raises_bind; [apply frame_children_of|exact Hw3| |].
  { intros e. by rewrite Hch. }
  intros children' w4 Hw4 Hch'. rewrite Hch in Hch'. injection Hch' as <- <-.
  eapply never_raises_for_each; [|exact Hw3|].
  { intros [i child]. solve_frame. apply frame_render. }
  intros [i child] w5 Hin Hw5.
  assert (Hchild : str_key child).
  { eapply Forall_forall; [exact Hstr|].
    unfold enumerate in Hin. apply list_elem_of_lookup in Hin as [j Hj].
    rewrite list_lookup_imap in Hj.
    destruct (children !! j) as [c|] eqn:Hc; simpl in Hj; [|done].
    injection Hj as _ <-. by eapply list_elem_of_lookup_2. }
  eapply never_raises_bind; [apply frame_visited_mem|exact Hw5|done|].
  intros dup w6 Hw6 _.
  destruct (negb include_dupes && dup).
  - eapply never_raises_bind; [apply frame_nodes_get|exact Hw6|done|].
    intros lbl w7 Hw7 Hlbl. unfold nodes_get in Hlbl. injection Hlbl as <- <-.
    fold (label_of (w_sbom w6) child). rewrite Hw6.
    destruct (str_graph_label s child Hs Hchild) as [tc ->].
    eapply never_raises_bind; [apply frame_lift|exact Hw6|done|].
    intros ref_line w8 Hw8 _. done.
  - eapply never_raises_bind; [apply frame_visited_add|exact Hw6|done|].
    intros _ w7 Hw7 _. by apply IH.
Qed.

(** X11. On a graph all of whose ids and labels are strings, [render]
    started on a string id as [ascii_trees] starts it raises no exception
    of its own, whatever the options and whatever number [fuel] of nested
    calls it is allowed: what can stop it is the want of depth alone. And
    it prints its lines and returns as soon as it is allowed more than
    [len(sbom.edges)] nested calls. *)
Theorem render_stopped_by_depth_only (s : SBOM) (r : key)
    (show_ids include_dupes : bool) (max_depth : option Z) :
  str_graph s → str_key r →
  ∀ fuel w, w_sbom w = s →
    never_raises (render fuel show_ids max_depth include_dupes r "" ∅ true 0) w ∧
    (size (edges s) < fuel →
     ∃ w', render fuel show_ids max_depth include_dupes r "" ∅ true 0 w = (Ok tt, w')).
Proof.
  intros Hs Hr fuel w Hw.
  assert (Hn : never_raises (render fuel show_ids max_depth include_dupes r "" ∅ true 0) w)
    by (by apply (render_never_raises s)).
  split; [exact Hn|]. intros Hfuel.
  destruct (returns_Ok _ w (render_returns s fuel show_ids max_depth include_dupes
                              r "" ∅ true 0 w Hw
                              ltac:(by rewrite difference_empty_L, size_dom)) Hn)
    as ([] & w' & Hrun).
  by exists w'.
Qed.

Lemma reads_only_children_of (node : key) : reads_only (children_of node).
Proof. intros w. by rewrite children_of_pure. Qed.

Lemma reads_only_make_node (fuel : nat) (node : key) (seen : gset key) :
  reads_only (make_node fuel node seen).
Proof.
  revert node seen. induction fuel as [|fuel IH]; intros node seen; simpl; [done|].
  apply reads_only_bind; [done|]. intros label. case_bool_decide.
  - apply reads_only_bind; [done|]. done.
  - apply reads_only_bind; [apply reads_only_children_of|]. intros kids.
    apply reads_only_bind; [by apply reads_only_mapM_M|]. done.
Qed.

Lemma reads_only_to_d3_tree (roots : list key) : reads_only (to_d3_tree roots).
Proof.
  unfold to_d3_tree. apply reads_only_bind; [done|]. intros n.
  assert (Hall : ∀ rs, reads_only (cs ← mapM_M (λ r, make_node (S n) r ∅) rs;
                                   mret (D3 (JStr "SBOM Roots") cs))).
  { intros rs. apply reads_only_bind; [|done].
    apply reads_only_mapM_M. intros r. apply reads_only_make_node. }
  destruct roots as [|r [|r' roots]]; [apply Hall|apply reads_only_make_node|apply Hall].
Qed.

Lemma make_node_never_raises (s : SBOM) (fuel : nat) :
  str_graph s →
  ∀ node seen w, w_sbom w = s → str_key node → never_raises (make_node fuel node seen) w.
Proof.
  intros Hs. induction fuel as [|fuel IH]; intros node seen w Hw Hnode; [done|].
  simpl.
  eapply never_raises_bind; [apply frame_nodes_get|exact Hw|done|].
  intros label w1 Hw1 Hlabel. unfold nodes_get in Hlabel. injection Hlabel as <- <-.
  fold (label_of (w_sbom w) node). rewrite Hw.
  destruct (str_graph_label s node Hs Hnode) as [t ->].
  case_bool_decide as Hseen.
  - eapply never_raises_bind; [apply frame_lift|exact Hw|done|]. done.
  - destruct (children_of_str s node w Hs Hw) as (kids & Hch & Hstr).
    eapply never_raises_bind; [apply frame_children_of|exact Hw| |].
    { intros e. by rewrite Hch. }
    intros kids' w2 Hw2 Hch'. rewrite Hch in Hch'. injection Hch' as <- <-.
    eapply never_raises_bind; [|exact Hw| |done].
    { apply frame_mapM_M. intros x. apply frame_make_node. }
    eapply never_raises_mapM_M; [intros x; apply frame_make_node|exact Hw|].
    intros k w3 Hk Hw3. apply IH; [done|]. by eapply Forall_forall.
Qed.


(** X12. On such a graph [make_node], started on a string id as
    [to_d3_tree] starts it, raises no exception of its own either, whatever
    number [fuel] of nested calls it is allowed; and it returns a tree,
    having printed nothing, as soon as it is allowed more than
    [len(sbom.edges)] nested calls. *)
Theorem make_node_stopped_by_depth_only (s : SBOM) (r : key) :
  str_graph s → str_key r →
  ∀ fuel w, w_sbom w = s →
    never_raises (make_node fuel r ∅) w ∧
    (size (edges s) < fuel → ∃ t, make_node fuel r ∅ w = (Ok t, w)).
Proof.
  intros Hs Hr fuel w Hw.
  assert (Hn : never_raises (make_node fuel r ∅) w)
    by (by apply (make_node_never_raises s)).
  split; [exact Hn|]. intros Hfuel.
  destruct (returns_Ok _ w (make_node_returns s fuel r ∅ w Hw
                              ltac:(by rewrite difference_empty_L, size_dom)) Hn)
    as (t & w' & Hrun).
  exists t. pose proof (reads_only_make_node fuel r ∅ w) as Hw'.
  rewrite Hrun in Hw'. simpl in Hw'. by subst w'.
Qed.

Lemma reads_only_to_dot (roots : list key) : reads_only (to_dot roots).
Proof.
  unfold to_dot. apply reads_only_bind; [done|]. intros fuel.
  apply reads_only_bind; [apply reads_only_fold_M; intros; apply reads_only_bfs|].
  intros R. apply reads_only_bind; [done|]. intros ns.
  apply reads_only_bind;
    [apply reads_only_mapM_M; intros; apply reads_only_dot_node_line|].
  intros nl. apply reads_only_bind; [done|]. intros srcs.
  apply reads_only_bind;
    [apply reads_only_mapM_M; intros; apply reads_only_dot_edge_lines|].
  done.
Qed.

Lemma bfs_never_raises (fuel : nat) (dq : list key) (acc : gset key) (w : world) :
  never_raises (bfs fuel dq acc) w.
Proof.
  revert dq acc. induction fuel as [|fuel IH]; intros [|n dq] acc; simpl; try done.
  case_bool_decide; [apply IH|].
  eapply (never_raises_bind (w_sbom w)); [apply frame_edges_get|done|done|].
  intros kids w' _ Hk. unfold edges_get in Hk. injection Hk as _ <-. apply IH.
Qed.

Lemma bfs_fold_never_raises (fuel : nat) (roots : list key) (acc : gset key) (w : world) :
  never_raises (fold_M (λ acc root, bfs fuel [root] acc) acc roots) w.
Proof.
  revert acc. induction roots as [|r roots IH]; intros acc; simpl; [done|].
  eapply (never_raises_bind (w_sbom w)); [apply frame_bfs|done|apply bfs_never_raises|].
  intros acc' w' _ Hr.
  pose proof (reads_only_bfs fuel [r] acc w) as Hw'. rewrite Hr in Hw'. simpl in Hw'.
  subst w'. apply IH.
Qed.

Lemma to_dot_succeeds (w : world) (roots : list key) :
  str_graph (w_sbom w) → Forall str_key roots →
  ∃ text, to_dot roots w = (Ok text, w).
Proof.
  intros Hs Hroots.
  destruct (returns_Ok (to_dot roots) w) as (text & w' & Hrun);
    [apply to_dot_returns| |].
  2:{ exists text. pose proof (reads_only_to_dot roots w) as Hw'.
      rewrite Hrun in Hw'. simpl in Hw'. by subst w'. }
  unfold to_dot.
  eapply (never_raises_bind (w_sbom w)); [apply frame_bfs_fuel|done|done|].
  intros fuel w1 Hw1 Hf. unfold bfs_fuel in Hf. injection Hf as _ <-.
  eapply (never_raises_bind (w_sbom w));
    [apply frame_fold_M; intros; apply frame_bfs|done|apply bfs_fold_never_raises|].
  intros R w2 Hw2 HR.
  apply (bfs_fold_spec (w_sbom w) str_key) in HR as (_ & _ & HRstr & _); [| | |done| |].
  2:{ intros a b _ (kids & Hk & Hb). destruct Hs as (_ & He & _).
      destruct (He _ _ Hk) as [_ Hkids]. by apply Hkids. }
  2:{ intros r Hr. by eapply Forall_forall. }
  2:{ intros k Hk. by apply not_elem_of_empty in Hk. }
  2:{ intros a b Ha. by apply not_elem_of_empty in Ha. }
  destruct (py_sorted_strings (elements R)) as [ns Hns].
  { apply Forall_forall. intros k Hk. apply HRstr. by apply elem_of_elements. }
  assert (Hnstr : Forall str_key ns).
  { apply Forall_forall. intros k Hk. apply HRstr.
    rewrite (py_sorted_perm _ _ Hns) in Hk. by apply elem_of_elements in Hk. }
  rewrite Hns.
  eapply (never_raises_bind (w_sbom w)); [apply frame_lift|exact Hw2|done|].
  intros ns' w3 Hw3 Hns'. unfold lift in Hns'. injection Hns' as <- <-.
  eapply (never_raises_bind (w_sbom w)); [unfold dot_node_line; solve_frame|exact Hw2| |].
  { eapply (never_raises_mapM_M (w_sbom w));
      [intros ?; unfold dot_node_line; solve_frame|exact Hw2|].
    intros n w' Hn Hw'. unfold dot_node_line.
    eapply (never_raises_bind (w_sbom w)); [solve_frame|exact Hw'|done|].
    intros v w'' Hw'' Hv. unfold nodes_get in Hv. injection Hv as <- <-.
    fold (label_of (w_sbom w') n). rewrite Hw'.
    destruct (str_graph_label (w_sbom w) n Hs) as [t ->]; [by eapply Forall_forall|].
    eapply (never_raises_bind (w_sbom w)); [solve_frame|exact Hw'|done|done]. }
  intros node_lines w4 Hw4 _.
  eapply (never_raises_bind (w_sbom w)); [apply frame_lift|exact Hw4|done|].
  intros srcs w5 Hw5 Hsrcs. unfold lift in Hsrcs. injection Hsrcs as <- <-.
  eapply (never_raises_bind (w_sbom w)); [unfold dot_edge_lines; solve_frame|exact Hw4| |done].
  eapply (never_raises_mapM_M (w_sbom w));
    [intros ?; unfold dot_edge_lines; solve_frame|exact Hw4|].
  intros src w' _ Hw'. unfold dot_edge_lines.
  eapply (never_raises_bind (w_sbom w)); [solve_frame|exact Hw'|done|].
  intros kids w'' Hw'' Hk. unfold edges_get in Hk. injection Hk as <- <-. rewrite Hw'.
  destruct (py_sorted_strings (elements (default ∅ (edges (w_sbom w) !! src))))
    as [dsts Hd].
  { apply Forall_forall. intros k Hk. apply elem_of_elements in Hk.
    by eapply str_graph_kids. }
  rewrite Hd.
  eapply (never_raises_bind (w_sbom w)); [solve_frame|exact Hw'|done|done].
Qed.

(** X13. On such a graph the DOT emitter raises nothing and returns its
    text. *)
Theorem to_dot_no_error (w : world) (roots : list key) :
  str_graph (w_sbom w) → Forall str_key roots →
  ∃ text, to_dot roots w = (Ok text, w).
Proof. apply to_dot_succeeds. Qed.

End Safe.

Lemma str_graph_graph_of (ns : list (string * string)) (es : list (string * list string))
    (rs : list string) :
  str_graph (graph_of ns es rs).
Proof.
  unfold graph_of. split_and!; simpl.
  - intros k v Hkv. apply elem_of_list_to_map_2 in Hkv.
    apply list_elem_of_fmap in Hkv as ([i l] & [= -> ->] & _). split; [by eexists|done].
  - intros a kids Hk. apply elem_of_list_to_map_2 in Hk.
    apply list_elem_of_fmap in Hk as ([i l] & [= -> ->] & _). split; [by eexists|].
    intros b Hb. apply elem_of_list_to_set in Hb.
    apply list_elem_of_fmap in Hb as (j & -> & _). by eexists.
  - intros k Hk. apply elem_of_list_to_set in Hk.
    apply list_elem_of_fmap in Hk as (j & -> & _). by eexists.
Qed.

Lemma render_stopped_by_depth_only_witness :
  never_raises (@render example_runtime 1 false None false (KStr "q") "" ∅ true 0)
    (start shared_root) ∧
  ∃ w', @render example_runtime 3 false None false (KStr "q") "" ∅ true 0 (start shared_root)
        = (Ok tt, w').
Proof.
  assert (Hq : str_key (KStr "q")) by (by exists "q").
  split.
  - apply (@render_stopped_by_depth_only example_runtime shared_root (KStr "q")
             false false None (str_graph_graph_of _ _ _) Hq 1 (start shared_root) eq_refl).
  - apply (@render_stopped_by_depth_only example_runtime shared_root (KStr "q")
             false false None (str_graph_graph_of _ _ _) Hq 3 (start shared_root) eq_refl).
    vm_compute. lia.
Defined.

Lemma make_node_stopped_by_depth_only_witness :
  never_raises (@make_node example_runtime 1 (KStr "q") ∅) (start shared_root) ∧
  ∃ t, @make_node example_runtime 3 (KStr "q") ∅ (start shared_root)
       = (Ok t, start shared_root).
Proof.
  assert (Hq : str_key (KStr "q")) by (by exists "q").
  split.
  - apply (@make_node_stopped_by_depth_only example_runtime shared_root (KStr "q")
             (str_graph_graph_of _ _ _) Hq 1 (start shared_root) eq_refl).
  - apply (@make_node_stopped_by_depth_only example_runtime shared_root (KStr "q")
             (str_graph_graph_of _ _ _) Hq 3 (start shared_root) eq_refl).
    vm_compute. lia.
Defined.

Lemma to_dot_no_error_witness :
  ∃ text, @to_dot example_runtime [KStr "q"] (start shared_root)
          = (Ok text, start shared_root).
Proof.
  apply (@to_dot_no_error example_runtime (start shared_root) [KStr "q"]).
  - apply str_graph_graph_of.
  - apply Forall_singleton. by exists "q".
Defined.

(** ** Documents of strings give graphs of strings *)

Lemma typed_cyclonedx_wf (obj : json) : typed_cyclonedx obj → wf_cyclonedx obj.
Proof.
  intros (cs & m & ds & Hcs & Hc & Hm & Hmc & Hds & Hd).
  exists cs, m, ds. split_and!; [done| |done| |done..].
  - destruct Hc as [->|(cl & -> & Hcl)]; [by left|right]. exists cl. split; [done|].
    eapply Forall_impl; [exact Hcl|]. by intros c [Hc _].
  - destruct Hmc as [->|(mc & Hd' & Hg & Hmc)]; [by left|right]. exists mc.
    split_and!; [done..|]. destruct Hmc as [->|[Hmc _]]; [by left|by right].
Qed.

Lemma typed_spdx_wf (obj : json) : typed_spdx obj → wf_spdx obj.
Proof.
  intros (ps & rs & d & Hps & Hp & Hrs & Hr & Hd & Hdd).
  exists ps, rs, d. split_and!; [done| |done..].
  destruct Hp as [->|(pl & -> & Hpl)]; [by left|right]. exists pl. split; [done|].
  eapply Forall_impl; [exact Hpl|]. by intros c [Hc _].
Qed.

Lemma py_or_default_str (v : json) (d : string) :
  null_or_str v → is_str (py_or v (JStr d)) = true.
Proof. intros [->|[i ->]]; unfold py_or; [done|]. by destruct (truthy (JStr i)). Qed.

Lemma str_graph_setitem (s : SBOM) (i : string) (lbl : json) :
  str_graph s → is_str lbl = true → str_graph (with_nodes (insert (KStr i) lbl) s).
Proof.
  intros (Hn & He & Hr) Hl. split_and!; [|done..]. simpl. intros k v.
  destruct (decide (k = KStr i)) as [->|Hne].
  - rewrite lookup_insert_eq. intros [= <-]. split; [by eexists|done].
  - rewrite lookup_insert_ne by done. apply Hn.
Qed.

Lemma str_graph_setdefault (s s' : SBOM) (i : string) (lbl : json) :
  str_graph s → is_str lbl = true →
  nodes_setdefault (JStr i) lbl s = Ok s' → str_graph s'.
Proof.
  intros Hs Hl (k & [= <-] & ->)%nodes_setdefault_Ok.
  destruct (nodes s !! KStr i); [done|]. by apply str_graph_setitem.
Qed.

Lemma str_graph_edges_add (s s' : SBOM) (a b : string) :
  str_graph s → edges_add (JStr a) (JStr b) s = Ok s' → str_graph s'.
Proof.
  intros (Hn & He & Hr) (ks & kc & [= <-] & [= <-] & ->)%edges_add_Ok.
  split_and!; [done| |done]. simpl. intros x kids.
  destruct (decide (x = KStr a)) as [->|Hne].
  - rewrite lookup_insert_eq. intros [= <-]. split; [by eexists|].
    intros y [Hy| ->%elem_of_singleton]%elem_of_union; [|by eexists].
    destruct (edges s !! KStr a) as [old|] eqn:Hold; simpl in Hy; [|set_solver].
    destruct (He _ _ Hold) as [_ Hk]. by apply Hk.
  - rewrite lookup_insert_ne by done. apply He.
Qed.

Section Typed.
Context `{Runtime}.

Lemma cx_label_str (c lbl : json) :
  labelled_component c → _cx_label c = Ok lbl → is_str lbl = true.
Proof.
  intros [(a & b & p & n & _ & _ & _ & Hn & _ & _ & _ & Hns & _)
          (g & t & Hg & Ht & Hgs & Hts)].
  unfold _cx_label. rewrite Hn, Hg, Ht. cbn [mbind res_bind].
  assert (Hname : is_str (py_or (py_or (py_or n g) t) (JStr "component")) = true).
  { apply py_or_default_str. by repeat apply null_or_str_or. }
  destruct (py_or (py_or (py_or n g) t) (JStr "component")) as [| | |name| |]; try done.
  destruct (get c "version") as [v| |]; cbn [mbind res_bind]; [|done..].
  intros [= <-]. by destruct (truthy v), (truthy g && negb (py_eq g (JStr name))).
Qed.

Lemma cx_component_step_str (s s' : SBOM) (c : json) :
  labelled_component c → str_graph s → cx_component_step s c = Ok s' → str_graph s'.
Proof.
  intros Hc Hs. destruct (wf_component_id c (proj1 Hc)) as (v & Hv & Hn).
  unfold cx_component_step. rewrite Hv. cbn [mbind res_bind].
  destruct (truthy v) eqn:Ht; [|by intros [= <-]].
  destruct (null_or_str_key v Hn Ht) as (i & -> & _).
  intros (lbl & Hl & (k & [= <-] & ->)%nodes_setitem_Ok)%bind_Ok.
  apply str_graph_setitem; [done|]. by eapply cx_label_str.
Qed.

Lemma cx_metadata_str (obj m : json) (s s' : SBOM) (rid : json) :
  get_default obj "metadata" (JDict []) = Ok m →
  (m = JNull ∨ ∃ mc, is_dict m = true ∧ get m "component" = Ok mc ∧
                     (mc = JNull ∨ labelled_component mc)) →
  str_graph s → cx_metadata obj s = Ok (s', rid) →
  str_graph s' ∧ null_or_str rid.
Proof.
  intros Hm Hshape Hs. unfold cx_metadata. rewrite Hm. cbn [mbind res_bind].
  assert (Hnull : null_or_str JNull) by by left.
  destruct Hshape as [->|(mc & Hd & Hmc & Hwf)]; [by intros [= <- <-]|].
  assert (Hget : get (py_or m (JDict [])) "component" = Ok (if truthy m then mc else JNull)).
  { unfold py_or. destruct (truthy m); [done|]. done. }
  rewrite Hget. cbn [mbind res_bind]. destruct (truthy m); [|by intros [= <- <-]].
  destruct Hwf as [->|Hwf]; [by intros [= <- <-]|].
  destruct (truthy mc); [|by intros [= <- <-]].
  destruct (wf_component_id mc (proj1 Hwf)) as (v & Hv & Hn). rewrite Hv.
  cbn [mbind res_bind].
  destruct (truthy v) eqn:Ht; [|by intros [= <- <-]].
  destruct (null_or_str_key v Hn Ht) as (i & -> & _).
  intros (lbl & Hl & Hrun)%bind_Ok.
  apply bind_Ok in Hrun as (s1 & H1 & Hrun).
  apply bind_Ok in Hrun as (s2 & H2 & [= <- <-]).
  split; [|done].
  apply str_graph_setdefault in H1; [|done|by eapply cx_label_str].
  apply roots_add_Ok in H2 as (k & [= <-] & ->).
  destruct H1 as (Hn1 & He1 & Hr1). split_and!; [done..|]. simpl.
  intros k [?| ->%elem_of_singleton]%elem_of_union; [by apply Hr1|by eexists].
Qed.

Lemma cx_dep_step_str (s s' : SBOM) (dep : json) :
  wf_dependency dep → str_graph s → cx_dep_step s dep = Ok s' → str_graph s'.
Proof.
  intros (ref & d & Hr & Hn & Hd & Hkids) Hs. unfold cx_dep_step.
  rewrite Hr. cbn [mbind res_bind]. destruct (truthy ref) eqn:Ht; [|by intros [= <-]].
  destruct (null_or_str_key ref Hn Ht) as (i & -> & _).
  intros (s1 & H1 & Hrun)%bind_Ok. rewrite Hd in Hrun. cbn [mbind res_bind] in Hrun.
  apply str_graph_setdefault in H1; [|done..].
  apply bind_Ok in Hrun as (kids & Hit & Hrun).
  assert (Hall : Forall null_or_str kids).
  { destruct Hkids as [->|(l & -> & Hl)].
    - injection Hit as <-. constructor.
    - rewrite py_or_list_id in Hit. by injection Hit as <-. }
  eapply (foldM_inv str_graph); [| |exact Hrun]; [|done].
  intros t x t' Hx Ht'. unfold cx_child_step.
  destruct (truthy x) eqn:Htx; [|by intros [= <-]].
  destruct (null_or_str_key x) as (j & -> & _); [by eapply Forall_forall|done|].
  intros (t1 & Ht1 & Hadd)%bind_Ok.
  apply str_graph_setdefault in Ht1; [|done..]. by eapply str_graph_edges_add.
Qed.

Lemma cx_roots_str (rid : json) (s s' : SBOM) :
  null_or_str rid → str_graph s → cx_roots rid s = Ok s' → str_graph s'.
Proof.
  intros Hn (Hnodes & He & Hr) (Hn' & He' & Hr')%cx_roots_facts.
  split_and!; [by rewrite Hn'|by rewrite He'|].
  destruct (truthy rid) eqn:Ht.
  - destruct Hr' as (k & Hk & ->).
    destruct (null_or_str_key rid Hn Ht) as (i & -> & _). injection Hk as <-.
    intros k ->%elem_of_singleton. by eexists.
  - rewrite Hr'. intros k [?|[Hk _]%elem_of_difference]%elem_of_union; [by apply Hr|].
    apply elem_of_dom in Hk as [v Hv]. by destruct (Hnodes _ _ Hv).
Qed.

Lemma cx_attach_str (rid : json) (s s' : SBOM) :
  null_or_str rid → str_graph s → cx_attach rid s = Ok s' → str_graph s'.
Proof.
  intros Hn (Hnodes & He & Hr) (Hn' & Hr' & Hedges)%cx_attach_facts.
  split_and!; [by rewrite Hn'| |by rewrite Hr'].
  destruct Hedges as [[-> _]|(k & top & Ht & Hk & _ & _ & Hperm & _ & ->)]; [done|].
  destruct (null_or_str_key rid Hn Ht) as (i & -> & _). injection Hk as <-.
  intros a kids. destruct (decide (a = KStr i)) as [->|Hne].
  - rewrite lookup_insert_eq. intros [= <-]. split; [by eexists|].
    intros b Hb. apply elem_of_list_to_set in Hb. rewrite Hperm in Hb.
    apply list_elem_of_filter in Hb as [_ Hb]. apply elem_of_elements in Hb.
    apply elem_of_dom in Hb as [kb Hkb]. by destruct (He _ _ Hkb).
  - rewrite lookup_insert_ne by done. apply He.
Qed.

Lemma str_graph_new : str_graph new_SBOM.
Proof.
  split_and!; simpl.
  - intros k v. by rewrite lookup_empty.
  - intros a kids. by rewrite lookup_empty.
  - intros k Hk. by apply not_elem_of_empty in Hk.
Qed.

Lemma typed_cyclonedx_str (obj : json) :
  typed_cyclonedx obj → ∃ s, _from_cyclonedx obj = Ok s ∧ str_graph s.
Proof.
  intros Ht. destruct (from_cyclonedx_accepts obj (typed_cyclonedx_wf obj Ht)) as [s Hs].
  exists s. split; [done|].
  destruct Ht as (cs & m & ds & Hcs & Hcomps & Hm & Hmeta & Hds & Hdeps).
  apply from_cyclonedx_Ok in Hs as (s4 & rid & s5 & Hb & Hr & Ha).
  apply cx_build_Ok in Hb as (s3 & comps & Hp & Hf).
  apply cx_primary_Ok in Hp as (s2 & ds' & dl & Hd & Hds' & Hdl & Hs3).
  assert (ds' = ds) as -> by congruence.
  unfold cx_declare in Hd. rewrite Hcs in Hd. cbn [mbind res_bind] in Hd.
  destruct (py_or_list _ _ Hcomps) as (cl & Hor & Hcl). rewrite Hor in Hd.
  cbn [py_iter mbind res_bind] in Hd.
  apply bind_Ok in Hd as (s1 & H1 & Hd).
  apply bind_Ok in Hd as ([s2' rid'] & Hmd & [= -> <- ->]).
  assert (Hstr1 : str_graph s1).
  { eapply (foldM_inv str_graph); [| |exact H1]; [|apply str_graph_new].
    intros t x t' Hx Ht'. apply cx_component_step_str; [|done].
    by eapply Forall_forall. }
  destruct (cx_metadata_str obj m s1 s2 rid Hm Hmeta Hstr1 Hmd) as [Hstr2 Hrid].
  assert (Hstr3 : str_graph s3).
  { destruct (py_or_list _ _ Hdeps) as (dl' & Hor' & Hdl'). rewrite Hor' in Hdl.
    injection Hdl as <-.
    eapply (foldM_inv str_graph); [| |exact Hs3]; [|done].
    intros t x t' Hx Ht'. apply cx_dep_step_str; [|done]. by eapply Forall_forall. }
  rewrite (cx_fallback_accepts cl s3) in Hf.
  2:{ eapply Forall_impl; [exact Hcl|]. by intros c [Hc _]. }
  injection Hf as <-.
  eapply cx_attach_str; [exact Hrid| |exact Ha].
  by eapply cx_roots_str.
Qed.

(** X14. A CycloneDX document whose ids, references and naming fields are
    strings (or absent) is normalised without an exception, into a graph all
    of whose ids and labels are strings. *)
Theorem typed_cyclonedx_string_graph (obj : json) :
  typed_cyclonedx obj → ∃ s, _from_cyclonedx obj = Ok s ∧ str_graph s.
Proof. apply typed_cyclonedx_str. Qed.

Lemma spdx_pkg_label_str (pkg lbl : json) :
  labelled_package pkg → _spdx_pkg_label pkg = Ok lbl → is_str lbl = true.
Proof.
  intros [_ (n & Hn & Hns)]. unfold _spdx_pkg_label. rewrite Hn. cbn [mbind res_bind].
  pose proof (py_or_default_str n "package" Hns) as Hname.
  destruct (py_or n (JStr "package")) as [| | |name| |]; try done.
  destruct (get pkg "versionInfo") as [vi| |]; cbn [mbind res_bind]; [|done..].
  destruct (get pkg "version") as [v| |]; cbn [mbind res_bind]; [|done..].
  intros [= <-]. by destruct (negb (truthy (py_or vi v))).
Qed.

Lemma spdx_package_step_str (s s' : SBOM) (pkg : json) :
  labelled_package pkg → str_graph s → spdx_package_step s pkg = Ok s' → str_graph s'.
Proof.
  intros Hp Hs. pose proof Hp as [(a & b & Ha & Hb & Hna & Hnb) _].
  unfold spdx_package_step. rewrite Ha, Hb. cbn [mbind res_bind].
  destruct (truthy (py_or a b)) eqn:Ht; [|by intros [= <-]].
  destruct (null_or_str_key _ (null_or_str_or _ _ Hna Hnb) Ht) as (i & -> & _).
  intros (lbl & Hl & (k & [= <-] & ->)%nodes_setitem_Ok)%bind_Ok.
  apply str_graph_setitem; [done|]. by eapply spdx_pkg_label_str.
Qed.

Lemma spdx_rel_step_str (s s' : SBOM) (rel : json) :
  wf_relationship rel → str_graph s → spdx_rel_step s rel = Ok s' → str_graph s'.
Proof.
  intros (t & a & b & c & d & Ht & Ha & Hb & Hc & Hd & Hnt & Hna & Hnb & Hnc & Hnd) Hs.
  unfold spdx_rel_step, spdx_rel_source, spdx_rel_target.
  intros (rt & _ & Hrun)%bind_Ok. rewrite Ha, Hb, Hc, Hd in Hrun.
  cbn [mbind res_bind] in Hrun.
  destruct (truthy (py_or a b)) eqn:Hsrc; [|by injection Hrun as <-].
  destruct (truthy (py_or c d)) eqn:Hdst; [|by injection Hrun as <-].
  destruct (null_or_str_key _ (null_or_str_or _ _ Hna Hnb) Hsrc) as (i & Hi & _).
  destruct (null_or_str_key _ (null_or_str_or _ _ Hnc Hnd) Hdst) as (j & Hj & _).
  rewrite Hi, Hj in Hrun. cbn [negb orb] in Hrun.
  apply bind_Ok in Hrun as (s1 & H1 & Hrun).
  apply bind_Ok in Hrun as (s2 & H2 & Hrun).
  apply str_graph_setdefault in H1; [|done..].
  apply str_graph_setdefault in H2; [|done..].
  repeat case_bool_decide; [by eapply str_graph_edges_add..|by injection Hrun as <-].
Qed.

Lemma typed_spdx_str (obj : json) :
  typed_spdx obj → ∃ s, _from_spdx obj = Ok s ∧ str_graph s.
Proof.
  intros Ht. destruct (from_spdx_accepts obj (typed_spdx_wf obj Ht)) as [s Hs].
  exists s. split; [done|].
  destruct Ht as (ps & rs & d & Hps & Hpkgs & Hrs & Hrels & Hd & Hdesc).
  pose proof (from_spdx_inv _ _ Hs) as (s0 & _ & [[_ Hclosed] _]).
  apply from_spdx_Ok in Hs as (s2 & Hb & Hr).
  apply spdx_build_Ok in Hb as (s1 & rs' & rl & Hdecl & Hrs' & Hrl & Hrun).
  assert (rs' = rs) as -> by congruence.
  unfold spdx_declare in Hdecl. rewrite Hps in Hdecl. cbn [mbind res_bind] in Hdecl.
  destruct (py_or_list _ _ Hpkgs) as (pl & Hpor & Hpl). rewrite Hpor in Hdecl.
  cbn [py_iter mbind res_bind] in Hdecl.
  assert (Hstr1 : str_graph s1).
  { eapply (foldM_inv str_graph); [| |exact Hdecl]; [|apply str_graph_new].
    intros t x t' Hx Ht'. apply spdx_package_step_str; [|done]. by eapply Forall_forall. }
  assert (Hstr2 : str_graph s2).
  { destruct (py_or_list _ _ Hrels) as (rl' & Hror & Hrl'). rewrite Hror in Hrl.
    injection Hrl as <-.
    eapply (foldM_inv str_graph); [| |exact Hrun]; [|done].
    intros t x t' Hx Ht'. apply spdx_rel_step_str; [|done]. by eapply Forall_forall. }
  pose proof (spdx_roots_facts _ _ _ Hr) as (Hn & He & Hrc).
  destruct Hstr2 as (Hnodes & Hedges & Hroots).
  split_and!; [by rewrite Hn|by rewrite He|].
  intros k Hk.
  assert (Hin : k ∈ dom (nodes s)) by (by apply Hclosed).
  rewrite Hn in Hin. apply elem_of_dom in Hin as [v Hv]. by destruct (Hnodes _ _ Hv).
Qed.

(** X15. An SPDX document whose ids, references, types and package names
    are strings (or absent) is normalised without an exception, into a graph
    all of whose ids and labels are strings. *)
Theorem typed_spdx_string_graph (obj : json) :
  typed_spdx obj → ∃ s, _from_spdx obj = Ok s ∧ str_graph s.
Proof. apply typed_spdx_str. Qed.

End Typed.

Lemma scenario_B_typed : typed_cyclonedx scenario_B.
Proof.
  unfold typed_cyclonedx, labelled_component, wf_component, wf_dependency, scenario_B,
    scenario_B_components, scenario_B_dependency.
  shape.
Qed.

Lemma scenario_C_typed : typed_spdx scenario_C.
Proof.
  unfold typed_spdx, labelled_package, wf_package, wf_relationship, scenario_C. shape.
Qed.

Lemma typed_cyclonedx_string_graph_witness :
  ∃ s, @_from_cyclonedx example_runtime scenario_B = Ok s ∧ str_graph s.
Proof.
  exact (@typed_cyclonedx_string_graph example_runtime scenario_B scenario_B_typed).
Defined.

Lemma typed_spdx_string_graph_witness :
  ∃ s, @_from_spdx example_runtime scenario_C = Ok s ∧ str_graph s.
Proof.
  exact (@typed_spdx_string_graph example_runtime scenario_C scenario_C_typed).
Defined.

(** ** The command line *)

Lemma build_forest_reads_only `{Runtime} (start_ids : option (list key)) :
  reads_only (build_forest start_ids).
Proof.
  intros w.
  assert (Hdef : (build_forest None w).2 = w).
  { by rewrite (build_forest_default w None) by (by left). }
  destruct start_ids as [[|k ids]|]; [done| |done].
  unfold build_forest. unfold mbind at 1, M_bind. rewrite filter_M_nodes_mem.
  case_bool_decide; [done|]. exact Hdef.
Qed.

Lemma build_forest_returns `{Runtime} (start_ids : option (list key)) (w : world) :
  returns (build_forest start_ids) w.
Proof.
  assert (Hdef : returns (build_forest None) w).
  { unfold returns. rewrite (build_forest_default w None) by (by left).
    apply sorted_pure_plain. }
  destruct start_ids as [[|k ids]|]; [done| |done].
  unfold returns, build_forest. unfold mbind at 1, M_bind. rewrite filter_M_nodes_mem.
  case_bool_decide; [done|]. exact Hdef.
Qed.

Lemma from_json_plain `{Runtime} (obj : json) : from_json obj ≠ OutOfFuel.
Proof.
  unfold from_json. destruct (_ && _); [apply plain_from_cyclonedx|].
  destruct (_ && _); [apply plain_from_spdx|done].
Qed.

Section CLIProperties.
Context `{Runtime} `{Host}.

Lemma main_cases (a : args) (loaded : option json) (P : outcome → Prop) :
  P (mkOutcome (Exit 2) [] [Failed_to_read] []) →
  (∀ e, P (mkOutcome (Exit 3) [] [Failed_to_parse e] [])) →
  P (mkOutcome (Exit 4) [] [No_roots] []) →
  P (mkOutcome (Exit 5) [] [No_output_path] []) →
  (∀ out files, P (mkOutcome (Exit 0) out [] files)) →
  (∀ e out, (a_format a ≠ fmt_ascii → out = []) → P (mkOutcome (Uncaught e) out [] [])) →
  P (mkOutcome Write_failed [] [] []) →
  P (main a loaded).
Proof.
  intros K2 K3 K4 K5 K0 Ku Kw. unfold main.
  destruct loaded as [obj|]; [|done].
  pose proof (from_json_plain obj) as Hfuel.
  destruct (from_json obj) as [s|e|]; [|done..].
  pose proof (build_forest_returns (requested a) (mkWorld s ∅ [])) as Hret.
  pose proof (build_forest_reads_only (requested a) (mkWorld s ∅ [])) as Hro.
  unfold returns in Hret.
  destruct (build_forest _ _) as [[roots|e|] w]; simpl in *; subst; [|by apply Ku|done].
  case_bool_decide; [done|].
  assert (Hwrite : ∀ path text note,
            P (write_out path text note (mkWorld s ∅ []))).
  { intros. unfold write_out. destruct (can_write path); done. }
  destruct (a_format a).
  - pose proof (ascii_trees_returns roots (a_show_ids a) (a_max_depth a)
                  (a_include_dupes a) (mkWorld s ∅ [])) as Hr.
    unfold returns in Hr.
    destruct (ascii_trees _ _ _ _ _) as [[[]|e|] w']; simpl in *; [| |done].
    + by destruct (forallb _ roots).
    + by apply Ku.
  - destruct (output_path a) as [path|]; [|done].
    pose proof (to_d3_tree_returns roots (mkWorld s ∅ [])) as Hr. unfold returns in Hr.
    pose proof (reads_only_to_d3_tree roots (mkWorld s ∅ [])) as Hw'.
    destruct (to_d3_tree _ _) as [[data|e|] w']; simpl in *; subst w'; [| |done].
    + apply Hwrite.
    + by apply Ku.
  - pose proof (to_dot_returns roots (mkWorld s ∅ [])) as Hr. unfold returns in Hr.
    pose proof (reads_only_to_dot roots (mkWorld s ∅ [])) as Hw'.
    destruct (to_dot _ _) as [[text|e|] w']; simpl in *; subst w'; [| |done].
    + destruct (output_path a) as [path|]; [|done]. apply Hwrite.
    + by apply Ku.
Qed.

(** X16. Every run of [main] comes to an end, on cyclic graphs too: the
    renderers never need more than [len(s.edges) + 1] nested calls, and the
    breadth-first walk of [to_dot] stops. [main] ends by returning, by
    [sys.exit] with 2, 3, 4 or 5, by an exception that leaves it, or by a
    failure to open the output file; [sys.exit] is called with no other
    code. *)
Theorem main_ends (a : args) (loaded : option json) :
  o_status (main a loaded) ≠ Unfinished ∧
  ∀ c, o_status (main a loaded) = Exit c → c ∈ [0; 2; 3; 4; 5]%Z.
Proof.
  apply (main_cases a loaded); simpl; (split; [done|]); intros; simplify_eq;
    set_solver.
Qed.

(** X17. When [main] calls [sys.exit] with 2, 3, 4 or 5 it has printed
    nothing on standard output and written no file, and it has printed
    exactly one message on standard error; when it returns it has printed
    nothing on standard error. When an exception leaves [main] no file has
    been written, and standard output is empty unless the format is ascii,
    where a part of the tree can be printed already; when the output file
    cannot be opened, nothing has been printed and nothing written. *)
Theorem main_fails_silently (a : args) (loaded : option json) :
  match o_status (main a loaded) with
  | Exit c =>
      if bool_decide (c = 0%Z) then o_stderr (main a loaded) = []
      else o_stdout (main a loaded) = [] ∧ o_files (main a loaded) = [] ∧
           length (o_stderr (main a loaded)) = 1
  | Uncaught e =>
      o_files (main a loaded) = [] ∧
      (a_format a ≠ fmt_ascii → o_stdout (main a loaded) = [])
  | Write_failed =>
      o_stdout (main a loaded) = [] ∧ o_files (main a loaded) = []
  | Unfinished => False
  end.
Proof. apply (main_cases a loaded); simpl; intros; done. Qed.

Lemma from_json_ValueError (obj : json) :
  from_json obj = Raise ValueError ↔ ¬ cyclonedx_markers obj ∧ ¬ spdx_markers obj.
Proof.
  rewrite cyclonedx_markers_test, spdx_markers_test. unfold from_json.
  destruct (is_dict obj && (_ || has_key obj "dependencies")) eqn:Hc;
    [|destruct (is_dict obj && (has_key obj "packages" || _)) eqn:Hs].
  - split; [|by intros [? _]]. intros Hv. by destruct (plain_from_cyclonedx obj).
  - split; [|by intros [_ ?]]. intros Hv. by destruct (plain_from_spdx obj).
  - done.
Qed.

Lemma from_json_cyclonedx (obj : json) :
  cyclonedx_markers obj → from_json obj = _from_cyclonedx obj.
Proof.
  rewrite cyclonedx_markers_test. unfold from_json. by intros ->.
Qed.

Lemma from_json_spdx (obj : json) :
  ¬ cyclonedx_markers obj → spdx_markers obj → from_json obj = _from_spdx obj.
Proof.
  rewrite cyclonedx_markers_test, spdx_markers_test. unfold from_json.
  intros Hc ->. by destruct (is_dict obj && (_ || has_key obj "dependencies")).
Qed.

Lemma main_Ok (a : args) (obj : json) (s : SBOM) :
  from_json obj = Ok s →
  ∃ r, build_forest (requested a) (start s) = (r, start s) ∧
    match r with
    | Ok roots =>
        if bool_decide (roots = [])
        then main a (Some obj) = mkOutcome (Exit 4) [] [No_roots] []
        else o_status (main a (Some obj)) ≠ Exit 4 ∧
             o_status (main a (Some obj)) ≠ Exit 3 ∧
             o_status (main a (Some obj)) ≠ Exit 2
    | Raise e => main a (Some obj) = mkOutcome (Uncaught e) [] [] []
    | OutOfFuel => False
    end.
Proof.
  intros Hs. unfold main. rewrite Hs. fold (start s).
  pose proof (build_forest_returns (requested a) (start s)) as Hret.
  pose proof (build_forest_reads_only (requested a) (start s)) as Hro.
  unfold returns in Hret.
  destruct (build_forest _ _) as [[roots|e|] w]; simpl in *; subst; [| |done].
  - eexists. split; [done|].
    destruct (decide (roots = [])) as [->|Hne];
      [by rewrite !bool_decide_eq_true_2 by done|rewrite !bool_decide_eq_false_2 by done].
    destruct (a_format a).
    + destruct (ascii_trees _ _ _ _ _) as [[[]|e|] w']; simpl; [|done..].
      by destruct (forallb _ roots).
    + destruct (output_path a) as [path|]; [|done].
      destruct (to_d3_tree _ _) as [[data|e|] w']; simpl; [|done..].
      unfold write_out. by destruct (can_write path).
    + destruct (to_dot _ _) as [[text|e|] w']; simpl; [|done..].
      destruct (output_path a) as [path|]; [|done].
      unfold write_out. by destruct (can_write path).
  - eexists. split; [done|]. done.
Qed.

(** X18. [main] exits with 3 exactly when normalisation raises; that is so
    with the format error exactly when the document has neither the
    CycloneDX nor the SPDX markers. Nothing is printed then but the
    diagnostic. *)
Theorem main_exit_3 (a : args) (obj : json) :
  (o_status (main a (Some obj)) = Exit 3 ↔ ∃ e, from_json obj = Raise e) ∧
  (main a (Some obj) = mkOutcome (Exit 3) [] [Failed_to_parse ValueError] [] ↔
   ¬ cyclonedx_markers obj ∧ ¬ spdx_markers obj).
Proof.
  rewrite <- from_json_ValueError.
  destruct (from_json obj) as [s|e|] eqn:Hs.
  - destruct (main_Ok a obj s Hs) as (r & Hr & Hmain).
    destruct r as [roots|e|]; [|by rewrite Hmain; split; split; try done; intros [? ?]|done].
    case_bool_decide.
    + rewrite Hmain. split; split; try done. by intros [? ?].
    + destruct Hmain as (_ & H3 & _). split; split; try done; [by intros [? ?]|].
      intros Heq. by rewrite Heq in H3.
  - unfold main. rewrite Hs. simpl. split; split; try done; [eauto|by intros [= ->]|].
    by intros [= ->].
  - by destruct (from_json_plain obj).
Qed.

Lemma sorted_pure_nil (s : SBOM) (xs : list key) :
  sorted_pure s xs = Ok [] ↔ xs = [].
Proof.
  split; [|by intros ->].
  intros (Hp & _)%sorted_pure_spec. by apply Permutation_nil_l in Hp.
Qed.

Lemma set_order_nil (X : gset key) : set_order X = [] ↔ X = ∅.
Proof.
  split.
  - intros Hnil. apply set_eq. intros k.
    rewrite <- elem_of_elements, <- set_order_perm, Hnil. set_solver.
  - intros ->. apply set_order_empty.
Qed.

Lemma filter_none {A : Type} (P : A → Prop) `{∀ x, Decision (P x)} (l : list A) :
  (∀ x, x ∈ l → ¬ P x) → filter P l = [].
Proof.
  induction l as [|x l IH]; intros Hall; [done|].
  rewrite filter_cons, decide_False by (apply Hall; by left).
  apply IH. intros y Hy. apply Hall. by right.
Qed.

Lemma build_forest_nil (w : world) (ids : option (list key)) :
  build_forest ids w = (Ok [], w) ↔
  roots (w_sbom w) = ∅ ∧ ∀ k, k ∈ default [] ids → k ∉ dom (nodes (w_sbom w)).
Proof.
  assert (Hdef : build_forest None w = (Ok [], w) ↔ roots (w_sbom w) = ∅).
  { rewrite (build_forest_default w None) by (by left).
    rewrite <- set_order_nil, <- sorted_pure_nil. split; [by intros [= ->]|by intros ->]. }
  destruct ids as [ids|].
  - rewrite build_forest_known. cbv zeta. simpl.
    case_decide as Hk.
    + rewrite Hdef. split; [|by intros [? _]]. intros Hr. split; [done|].
      intros k Hin Hdom.
      assert (k ∈ filter (λ k, k ∈ dom (nodes (w_sbom w))) ids)
        by (by apply list_elem_of_filter).
      rewrite Hk in *. by apply elem_of_nil in H1.
    + split; [by intros [= ?]|]. intros [_ Hnone]. exfalso. apply Hk.
      apply filter_none. intros k Hin. by apply Hnone.
  - rewrite Hdef. simpl. split; [|by intros [? _]]. intros Hr. split; [done|].
    intros k Hk. by apply elem_of_nil in Hk.
Qed.

(** X19. [main] exits with 4 exactly when the graph has no root and no
    requested start id is a node: so for a document in which every node is
    some node's dependency and no root is declared, unless [--root] names a
    node. The output format plays no part. *)
Theorem main_exit_4 (a : args) (obj : json) :
  o_status (main a (Some obj)) = Exit 4 ↔
  ∃ s, from_json obj = Ok s ∧ roots s = ∅ ∧
       ∀ k, k ∈ default [] (requested a) → k ∉ dom (nodes s).
Proof.
  destruct (from_json obj) as [s|e|] eqn:Hs.
  - destruct (main_Ok a obj s Hs) as (r & Hr & Hmain).
    pose proof (build_forest_nil (start s) (requested a)) as Hnil. rewrite Hr in Hnil.
    simpl in Hnil. destruct r as [roots|e|]; [| |done].
    + case_bool_decide as Hroots.
      * subst roots. rewrite Hmain. simpl. split; [|done]. intros _. exists s.
        split; [done|]. by apply Hnil.
      * destruct Hmain as (H4 & _). split; [done|].
        intros (s' & [= <-] & Hempty & Hnone). exfalso. apply Hroots.
        pose proof (proj2 Hnil (conj Hempty Hnone)) as Heq. by injection Heq as ->.
    + rewrite Hmain. simpl. split; [done|].
      intros (s' & [= <-] & Hempty & Hnone).
      pose proof (proj2 Hnil (conj Hempty Hnone)) as Heq. discriminate Heq.
  - unfold main. rewrite Hs. simpl. split; [done|]. by intros (? & ? & _).
  - by destruct (from_json_plain obj).
Qed.

(** X20. With [--format dot], a CycloneDX document whose ids, references
    and naming fields are strings or absent and whose components carry no
    inline dependency list, or such an SPDX document, is rendered without a
    traceback, whatever the other options: [main] returns or exits with 4,
    or fails to open the output file. Nothing on this path is recursive. *)
Theorem main_dot_no_traceback (a : args) (obj : json) :
  a_format a = fmt_dot →
  (cyclonedx_markers obj ∧ typed_cyclonedx obj)
  ∨ (¬ cyclonedx_markers obj ∧ spdx_markers obj ∧ typed_spdx obj) →
  match o_status (main a (Some obj)) with
  | Exit c => c ∈ [0; 4]%Z
  | Write_failed => output_path a ≠ None
  | _ => False
  end.
Proof.
  intros Hfmt Hdoc.
  assert (Hs : ∃ s, from_json obj = Ok s ∧ str_graph s).
  { destruct Hdoc as [[Hm Ht]|(Hn & Hm & Ht)].
    - rewrite (from_json_cyclonedx obj Hm). by apply typed_cyclonedx_str.
    - rewrite (from_json_spdx obj Hn Hm). by apply typed_spdx_str. }
  destruct Hs as (s & Hs & Hstr). unfold main. rewrite Hs. fold (start s).
  assert (Hreq : Forall str_key (default [] (requested a))).
  { unfold requested. destruct (a_root a) as [ids|]; simpl; [|constructor].
    apply Forall_forall. intros k (i & -> & _)%list_elem_of_fmap. by exists i. }
  assert (Hforest : ∃ roots, build_forest (requested a) (start s) = (Ok roots, start s) ∧
                             Forall str_key roots).
  { assert (Hdef : ∃ roots, build_forest None (start s) = (Ok roots, start s) ∧
                            Forall str_key roots).
    { rewrite (build_forest_default (start s) None) by (by left). simpl.
      destruct (sorted_pure_outcome s (set_order (roots s))) as [Hok _].
      destruct (proj2 Hok) as [l Hl].
      { intros k Hk. rewrite set_order_perm, elem_of_elements in Hk.
        pose proof Hstr as (_ & _ & Hr).
        destruct (str_graph_label s k) as [t ->]; [exact Hstr|by apply Hr|done]. }
      exists l. rewrite Hl. split; [done|].
      apply sorted_pure_spec in Hl as (Hp & _). apply Forall_forall. intros k Hk.
      rewrite Hp, set_order_perm, elem_of_elements in Hk.
      pose proof Hstr as (_ & _ & Hr). by apply Hr. }
    destruct (requested a) as [ids|]; [|done]. rewrite build_forest_known. cbv zeta.
    case_decide; [done|]. eexists. split; [done|].
    apply Forall_forall. intros k [_ Hk]%list_elem_of_filter.
    by eapply Forall_forall in Hreq. }
  destruct Hforest as (roots & -> & Hroots).
  case_bool_decide; [simpl; set_solver|]. rewrite Hfmt.
  destruct (to_dot_succeeds (start s) roots Hstr Hroots) as [text ->].
  destruct (output_path a) as [path|]; [|simpl; set_solver].
  unfold write_out. destruct (can_write path); simpl; [set_solver|done].
Qed.

End CLIProperties.

Lemma scenario_B_markers : cyclonedx_markers scenario_B.
Proof. eexists. split; [reflexivity|]. right; left. by eexists. Qed.

Lemma main_dot_no_traceback_witness :
  match o_status (@main example_runtime example_host dot_args (Some scenario_B)) with
  | Exit c => c ∈ [0; 4]%Z
  | Write_failed => output_path dot_args ≠ None
  | _ => False
  end.
Proof.
  apply (@main_dot_no_traceback example_runtime example_host dot_args scenario_B).
  - reflexivity.
  - left. split; [exact scenario_B_markers|exact scenario_B_typed].
Defined.

(** ** The ASCII renderer draws the tree that the tree builder returns *)



Section Drawing.
Context `{Runtime}.




End Drawing.

